(** * PDF-OCR front end: the normalisation and reconciliation core

    A shallow embedding of the pure helpers of
    [src/frontend/src/components/OCRUpload.jsx]:
    [_cleanFeeString], [normalizeProcRow], [normalizeDiagRow],
    [normalizeTables], the highlight scan of [PatientBlock],
    [dedupeAndMergePatients], [ResultBlock] and [buildItemFromResponse],
    of what the components [RenderMetaValue], [MetadataVertical],
    [ProcedureTables], [DiagnosisTables] and [PatientBlock] compute to be
    shown, and of the handlers [handleFileChange] and [handleUploadAll].

    Conventions of the model.
    - A JavaScript string is a [string]: a sequence of code units below 256.
      Character classes ([\s], [\d], [\w], [\b]) are the ones of a regular
      expression without flags, restricted to those code units.
    - A payload value is a JSON value ([value]); its numbers are integers,
      printed as their numerals when the engine holds them exactly (up to
      [2^53 - 1] in size) and as the engine prints them beyond.  [VUndef] is
      the result of reading a property that is absent.
    - What the engine decides and the source does not (the collation of
      [localeCompare], the order of a sort on an inconsistent comparator) is
      the engine's: see [Engine].
    - A plain object is the list of its own enumerable properties in
      enumeration order (array-index keys first, ascending, then the other
      keys in creation order).
    - A computation that can raise returns an [outcome]: [Ok], [Throw] for
      a [TypeError] of the engine, and [Unmodelled] where the execution
      leaves the fragment described here (a read through the prototype chain
      with a computed key, a named property written on an array that is
      held as a value; the store of objects has such properties).
    - A component is what it computes and hands to the renderer, without
      the markup.  A selected file is its name; the form goes from event to
      event, the answer to a request being one of the events. *)

From Stdlib Require Import ZArith Lia Bool List Ascii DecimalString Sorted.
From Stdlib Require String.
From stdpp Require Import base list strings.
Import ListNotations.

Local Open Scope Z_scope.
Local Open Scope list_scope.
Local Open Scope stdpp_scope.

(** ** Characters *)

Module Chars.

Definition code (c : ascii) : N := N_of_ascii c.

Definition char_eqb (a b : ascii) : bool := Ascii.eqb a b.

(** [\s] and the characters removed by [String.prototype.trim]. *)
Definition is_space (c : ascii) : bool :=
  existsb (N.eqb (code c)) [9; 10; 11; 12; 13; 32; 160]%N.

(** [\d] *)
Definition is_digit (c : ascii) : bool :=
  ((48 <=? code c) && (code c <=? 57))%N.

Definition is_upper (c : ascii) : bool :=
  ((65 <=? code c) && (code c <=? 90))%N.

Definition is_lower (c : ascii) : bool :=
  ((97 <=? code c) && (code c <=? 122))%N.

(** [\w] *)
Definition is_word (c : ascii) : bool :=
  is_digit c || is_upper c || is_lower c || (code c =? 95)%N.

(** The class [[\|\[\(]]. *)
Definition is_open_bracket (c : ascii) : bool :=
  existsb (N.eqb (code c)) [124; 91; 40]%N.

Definition is_dot (c : ascii) : bool := (code c =? 46)%N.
Definition is_zero (c : ascii) : bool := (code c =? 48)%N.

Definition space : ascii := " "%char.
Definition dot : ascii := "."%char.
Definition zero : ascii := "0"%char.
Definition comma : ascii := ","%char.
Definition dquote : ascii := ascii_of_N 34.
Definition backslash : ascii := ascii_of_N 92.

End Chars.
Import Chars.

(** ** Strings as character lists *)

Abbreviation chars := (list ascii).

Definition explode (s : string) : chars := String.list_ascii_of_string s.
Definition implode (l : chars) : string := String.string_of_list_ascii l.

Fixpoint skip_while {A} (f : A -> bool) (l : list A) : list A :=
  match l with
  | [] => []
  | x :: t => if f x then skip_while f t else l
  end.

Fixpoint span_while {A} (f : A -> bool) (l : list A) : list A :=
  match l with
  | [] => []
  | x :: t => if f x then x :: span_while f t else []
  end.

Definition trim_start (l : chars) : chars := skip_while is_space l.
Definition trim_end (l : chars) : chars := rev (skip_while is_space (rev l)).

(** [String.prototype.trim] *)
Definition trim_chars (l : chars) : chars := trim_end (trim_start l).
Definition trim (s : string) : string := implode (trim_chars (explode s)).

(** [/^\d+$/.test] *)
Definition all_digits (l : chars) : bool :=
  negb (Nat.eqb (length l) 0) && forallb is_digit l.

(** ** The engine

    What the code takes from the engine that runs it and the source does
    not fix: the collation behind [String.prototype.localeCompare], which
    follows the locale; the order [Array.prototype.sort] leaves when its
    comparator is not consistent, which the standard leaves to the
    implementation; and the digits of a number the engine does not hold
    exactly.  An engine is any that keeps the two laws of the sort; [host]
    is the one the code runs on, and nothing else is known of it. *)

Module Engine.

(** Insertion from the right, each element before the first one it does
    not come after: the list a stable sort returns. *)
Fixpoint insert_sorted (cmp : string -> string -> Z) (x : string) (l : list string) : list string :=
  match l with
  | [] => [x]
  | y :: t => if 0 <? cmp x y then y :: insert_sorted cmp x t else x :: l
  end.

Definition stable_sort (cmp : string -> string -> Z) (l : list string) : list string :=
  fold_right (insert_sorted cmp) [] l.

(** The comparator is consistent on [l]: it compares the elements of [l]
    as a rank does. *)
Definition ranked (cmp : string -> string -> Z) (l : list string) : Prop :=
  exists rank : string -> Z,
    forall a b, In a l -> In b l -> Z.sgn (cmp a b) = Z.sgn (rank a - rank b).

Record engine : Type := {
  (** [a.localeCompare(b)] *)
  collation : string -> string -> Z;
  (** [keys.sort(cmp)] on an array of texts *)
  sort : (string -> string -> Z) -> list string -> list string;
  (** [String(n)] for an integer that is not held exactly *)
  inexact_text : Z -> string;
  (** The sort rearranges; on a consistent comparator it is the stable
      sort. *)
  sort_permutes : forall cmp l, sort cmp l ≡ₚ l;
  sort_ranked : forall cmp l, ranked cmp l -> sort cmp l = stable_sort cmp l
}.

(** The engine the code runs on.  The proof only shows that there are
    engines; it is closed, so that no property depends on the choice. *)
Definition host : engine.
Proof.
  refine {| collation := fun a b => match String.compare a b with
                                    | Lt => -1 | Eq => 0 | Gt => 1
                                    end;
            sort := stable_sort;
            inexact_text := fun n => NilZero.string_of_int (Z.to_int n) |}.
  - intros cmp l. induction l as [|x t IH]; simpl; [reflexivity|].
    rewrite <- IH at 2. generalize (stable_sort cmp t). intros s.
    induction s as [|y s IHs]; simpl; [reflexivity|].
    destruct (0 <? cmp x y); [|reflexivity].
    rewrite IHs. apply Permutation_swap.
  - reflexivity.
Qed.

End Engine.

(** ** FeeStringRepair: the rewriting steps of [_cleanFeeString] *)

Module Fee.

(** [raw.replace(/\s+/g, " ")]: every maximal run of white space becomes one
    space.  [in_run] tells that the previous character was white space. *)
Fixpoint collapse_from (in_run : bool) (l : chars) : chars :=
  match l with
  | [] => []
  | c :: t =>
      if is_space c
      then (if in_run then collapse_from true t else space :: collapse_from true t)
      else c :: collapse_from false t
  end.

Definition collapse_spaces (l : chars) : chars := collapse_from false l.

(** [raw.replace(/^[\|\[\(]+/, "")] *)
Definition strip_open_brackets (l : chars) : chars := skip_while is_open_bracket l.

(** [raw.replace(/(\d)\s+(\d{2}\.\d{2})$/, "$1$2")].  The pattern is anchored
    at the end, so it is read on the reversed text: two digits, a dot, two
    digits, then a non-empty run of white space, then a digit.  The white
    space is removed. *)
Definition join_split_amount (l : chars) : chars :=
  match rev l with
  | d4 :: d3 :: p :: d2 :: d1 :: w :: before =>
      if is_digit d4 && is_digit d3 && is_dot p && is_digit d2 && is_digit d1
         && is_space w
      then match skip_while is_space before with
           | g :: rest =>
               if is_digit g
               then rev (d4 :: d3 :: p :: d2 :: d1 :: g :: rest)
               else l
           | [] => l
           end
      else l
  | _ => l
  end.

(** [raw.replace(/^0+(\.\d{2})$/, "0$1")] *)
Definition collapse_zeros (l : chars) : chars :=
  match l with
  | z :: _ =>
      if is_zero z
      then match skip_while is_zero l with
           | [p; d1; d2] =>
               if is_dot p && is_digit d1 && is_digit d2
               then [zero; p; d1; d2] else l
           | _ => l
           end
      else l
  | [] => l
  end.

(** [raw.slice(0, raw.length - 2) + "." + raw.slice(-2)], used when
    [raw.length > 2]. *)
Definition insert_point (l : chars) : chars :=
  take (length l - 2) l ++ dot :: drop (length l - 2) l.

(** [/^\d+(\.\d+)?$/.test] *)
Definition is_decimal (l : chars) : bool :=
  match skip_while is_digit l with
  | [] => all_digits l
  | p :: frac => is_dot p && all_digits (span_while is_digit l) && all_digits frac
  end.

(** [/\.\d{2}$/.test] *)
Definition ends_dot_2digits (l : chars) : bool :=
  match rev l with
  | d2 :: d1 :: p :: _ => is_digit d2 && is_digit d1 && is_dot p
  | _ => false
  end.

(** [raw.split(".")] *)
Fixpoint split_dot_from (acc : chars) (l : chars) : list chars :=
  match l with
  | [] => [rev acc]
  | c :: t => if is_dot c then rev acc :: split_dot_from [] t
              else split_dot_from (c :: acc) t
  end.

Definition split_dot (l : chars) : list chars := split_dot_from [] l.

(** The body of the last [if]: pad to two decimals. *)
Definition pad_decimals (l : chars) : chars :=
  match split_dot l with
  | [_] => l ++ [dot; zero; zero]
  | _ :: frac :: _ => if Nat.eqb (length frac) 1 then l ++ [zero] else l
  | [] => l
  end.

(** [_cleanFeeString] after [String(s)], on the characters of the text. *)
Definition clean_chars (s : chars) : chars :=
  let raw := trim_chars s in
  match raw with
  | [] => []
  | _ =>
      let raw := collapse_spaces raw in
      let raw := strip_open_brackets raw in
      let raw := join_split_amount raw in
      let raw := collapse_zeros raw in
      let raw := if all_digits raw && Nat.ltb 2 (length raw)
                 then insert_point raw else raw in
      let raw := if is_decimal raw && negb (ends_dot_2digits raw)
                 then pad_decimals raw else raw in
      raw
  end.

Definition clean_text (s : string) : string := implode (clean_chars (explode s)).

End Fee.

(** ** Values and outcomes *)

#[warnings="-register-all"]
Inductive value : Type :=
  | VUndef
  | VNull
  | VBool (b : bool)
  | VNum (n : Z)
  | VStr (s : string)
  | VArr (items : list value)
  | VObj (props : list (string * value)).

Abbreviation object := (list (string * value)).

Inductive outcome (A : Type) : Type :=
  | Ok (a : A)
  | Throw
  | Unmodelled.

Arguments Ok {A} a.
Arguments Throw {A}.
Arguments Unmodelled {A}.

#[global] Instance outcome_bind : MBind outcome := fun A B f m =>
  match m with
  | Ok a => f a
  | Throw => Throw
  | Unmodelled => Unmodelled
  end.

#[global] Instance outcome_ret : MRet outcome := fun A a => Ok a.

Definition map_outcome {A B} (f : A -> outcome B) : list A -> outcome (list B) :=
  fix go (l : list A) : outcome (list B) :=
    match l with
    | [] => Ok []
    | x :: t => y ← f x; ys ← go t; Ok (y :: ys)
    end.

Definition fold_outcome {A S} (f : S -> A -> outcome S) : list A -> S -> outcome S :=
  fix go (l : list A) (s : S) : outcome S :=
    match l with
    | [] => Ok s
    | x :: t => s' ← f s x; go t s'
    end.

(** Truthiness, [Array.isArray], [x === null || x === undefined], [x || y]. *)
Definition truthy (v : value) : bool :=
  match v with
  | VUndef | VNull => false
  | VBool b => b
  | VNum n => negb (n =? 0)
  | VStr s => negb (String.eqb s "")
  | VArr _ | VObj _ => true
  end.

Definition is_array (v : value) : bool :=
  match v with VArr _ => true | _ => false end.

Definition nullish (v : value) : bool :=
  match v with VUndef | VNull => true | _ => false end.

Definition or_else (a b : value) : value := if truthy a then a else b.

Infix "?|" := or_else (at level 45, left associativity).

(** ** Property names and plain objects *)

Definition nat_of_digits (l : chars) : N :=
  fold_left (fun acc c => (10 * acc + (code c - 48))%N) l 0%N.

(** A canonical array index: a decimal numeral without leading zero and
    below [2^32 - 1]. *)
Definition array_index (k : string) : option N :=
  let l := explode k in
  if all_digits l && (Nat.eqb (length l) 1 || negb (is_zero (hd zero l)))
     && Nat.leb (length l) 10 && (nat_of_digits l <? 4294967295)%N
  then Some (nat_of_digits l) else None.

Definition text_of_nat (n : nat) : string := NilZero.string_of_uint (Nat.to_uint n).

(** An integer the engine holds exactly: at most [2^53 - 1] in size. *)
Definition safe_integer (n : Z) : bool := Z.abs n <=? 9007199254740991.

(** [String(n)]: the decimal numeral of an integer held exactly; beyond,
    the engine prints the value it rounded to, with an exponent from
    [1e21]. *)
Definition text_of_Z (n : Z) : string :=
  if safe_integer n then NilZero.string_of_int (Z.to_int n)
  else Engine.inexact_text Engine.host n.

Section Properties.
Context {V : Type}.

Fixpoint lookup_prop (o : list (string * V)) (k : string) : option V :=
  match o with
  | [] => None
  | (k', v) :: t => if String.eqb k' k then Some v else lookup_prop t k
  end.

Definition has_own (o : list (string * V)) (k : string) : bool :=
  match lookup_prop o k with Some _ => true | None => false end.

Fixpoint replace_prop (o : list (string * V)) (k : string) (v : V) : list (string * V) :=
  match o with
  | [] => []
  | (k', v') :: t =>
      if String.eqb k' k then (k', v) :: t else (k', v') :: replace_prop t k v
  end.

(** Where a new own property lands in the enumeration order. *)
Fixpoint insert_index (o : list (string * V)) (i : N) (k : string) (v : V) : list (string * V) :=
  match o with
  | [] => [(k, v)]
  | (k', v') :: t =>
      match array_index k' with
      | Some j => if (j <? i)%N then (k', v') :: insert_index t i k v
                  else (k, v) :: o
      | None => (k, v) :: o
      end
  end.

(** [CreateDataProperty] on a plain object (object literals, spread). *)
Definition define_prop (o : list (string * V)) (k : string) (v : V) : list (string * V) :=
  if has_own o k then replace_prop o k v
  else match array_index k with
       | Some i => insert_index o i k v
       | None => o ++ [(k, v)]
       end.

(** [o[k] = v] on a plain object whose own properties are data properties.
    When [__proto__] is not an own property the assignment reaches the
    accessor of [Object.prototype]: no own property is created. *)
Definition assign_prop (o : list (string * V)) (k : string) (v : V) : list (string * V) :=
  if negb (has_own o k) && String.eqb k "__proto__" then o
  else define_prop o k v.

(** The own properties of an array, or of the characters of a text. *)
Fixpoint index_entries (i : nat) (l : list V) : list (string * V) :=
  match l with
  | [] => []
  | v :: t => (text_of_nat i, v) :: index_entries (S i) t
  end.

End Properties.

(** The names a plain object inherits from [Object.prototype]. *)
Definition object_prototype_names : list string :=
  ["constructor"; "__defineGetter__"; "__defineSetter__"; "hasOwnProperty";
   "__lookupGetter__"; "__lookupSetter__"; "isPrototypeOf";
   "propertyIsEnumerable"; "toString"; "valueOf"; "__proto__";
   "toLocaleString"].

Definition inherited_name (k : string) : bool :=
  existsb (String.eqb k) object_prototype_names.

(** The object a JSON text denotes: members are defined in text order. *)
Definition obj_of_entries (l : list (string * value)) : object :=
  fold_left (fun o kv => define_prop o (fst kv) (snd kv)) l [].

Definition char_values (s : string) : list value :=
  map (fun c => VStr (implode [c])) (explode s).

(** [Object.entries], [Object.keys], [Object.values] on a value that is
    neither [null] nor [undefined]. *)
Definition own_entries (v : value) : object :=
  match v with
  | VObj o => o
  | VArr l => index_entries 0 l
  | VStr s => index_entries 0 (char_values s)
  | _ => []
  end.

Definition own_keys (v : value) : list string := map fst (own_entries v).
Definition own_values (v : value) : list value := map snd (own_entries v).

(** [v[k]] for a key that is not inherited: every name the source text
    reads with a fixed key, and the own keys it enumerates.  Reading a
    property of [null] or [undefined] raises. *)
Definition get_prop (v : value) (k : string) : outcome value :=
  match v with
  | VUndef | VNull => Throw
  | _ => Ok (default VUndef (lookup_prop (own_entries v) k))
  end.

(** [{ ...v }] *)
Definition spread (v : value) : object := own_entries v.

(** ** Conversions to text *)

Definition join_with (sep : string) (parts : list string) : string :=
  match parts with
  | [] => ""
  | x :: t => fold_left (fun acc y => acc +:+ sep +:+ y) t x
  end.

(** [String(v)] and [v.toString()].  An array is the comma-joined text of
    its elements, [null] and [undefined] elements giving the empty text.  A
    plain object answers through [Object.prototype.toString], unless an own
    property named [toString] hides it: a JSON value is never callable, and
    the conversion raises. *)
Fixpoint to_text (v : value) : outcome string :=
  match v with
  | VUndef => Ok "undefined"
  | VNull => Ok "null"
  | VBool b => Ok (if b then "true" else "false")
  | VNum n => Ok (text_of_Z n)
  | VStr s => Ok s
  | VArr l =>
      parts ← map_outcome (fun x => if nullish x then Ok "" else to_text x) l;
      Ok (join_with "," parts)
  | VObj o => if has_own o "toString" then Throw else Ok "[object Object]"
  end.

Definition hex_digit (n : N) : ascii :=
  ascii_of_N (if (n <? 10)%N then 48 + n else 87 + n).

(** [QuoteJSONString] *)
Definition json_escape (c : ascii) : chars :=
  let n := code c in
  if (n =? 34)%N then [backslash; dquote]
  else if (n =? 92)%N then [backslash; backslash]
  else if (n =? 8)%N then [backslash; "b"%char]
  else if (n =? 9)%N then [backslash; "t"%char]
  else if (n =? 10)%N then [backslash; "n"%char]
  else if (n =? 12)%N then [backslash; "f"%char]
  else if (n =? 13)%N then [backslash; "r"%char]
  else if (n <? 32)%N
       then [backslash; "u"%char; zero; zero; hex_digit (n / 16); hex_digit (n mod 16)]
  else [c].

Definition json_quote (s : string) : string :=
  implode (dquote :: flat_map json_escape (explode s) ++ [dquote]).

(** [JSON.stringify(v)]; [None] is the result [undefined]. *)
Fixpoint json_text (v : value) : option string :=
  match v with
  | VUndef => None
  | VNull => Some "null"
  | VBool b => Some (if b then "true" else "false")
  | VNum n => Some (text_of_Z n)
  | VStr s => Some (json_quote s)
  | VArr l =>
      Some ("[" +:+ join_with "," (map (fun x => default "null" (json_text x)) l) +:+ "]")
  | VObj o =>
      Some ("{" +:+ join_with ","
               ((fix members (o : object) : list string :=
                   match o with
                   | [] => []
                   | (k, x) :: t =>
                       match json_text x with
                       | Some tx => (json_quote k +:+ ":" +:+ tx) :: members t
                       | None => members t
                       end
                   end) o) +:+ "}")
  end.

(** [s.slice(0, n)] *)
Definition slice_to (n : nat) (s : string) : string := implode (take n (explode s)).

(** ** FeeStringRepair and RowNormalizer *)

(** [_cleanFeeString] *)
Definition _cleanFeeString (s : value) : outcome string :=
  if nullish s then Ok ""
  else t ← to_text s; Ok (Fee.clean_text t).

(** [r.k1 ?? r.k2 ?? ... ?? d], read left to right. *)
Fixpoint probe (r : value) (keys : list string) (d : value) : outcome value :=
  match keys with
  | [] => Ok d
  | k :: ks => v ← get_prop r k; if nullish v then probe r ks d else Ok v
  end.

(** [r.k1 || r.k2 || ... || d] *)
Fixpoint probe_truthy (r : value) (keys : list string) (d : value) : outcome value :=
  match keys with
  | [] => Ok d
  | k :: ks => v ← get_prop r k; if truthy v then Ok v else probe_truthy r ks d
  end.

Definition trimmed_text (v : value) : outcome string :=
  t ← to_text v; Ok (trim t).

(** [normalizeProcRow].  The [if] whose body is empty only converts [desc]
    and [fee] to text, as the [return] after it does. *)
Definition normalizeProcRow (r : value) : outcome (string * string * string) :=
  if negb (truthy r) then Ok ("", "", "")
  else if is_array r then
    code ← probe r ["0"] (VStr "");
    desc ← probe r ["1"] (VStr "");
    fee ← probe r ["2"] (VStr "");
    c ← trimmed_text code; d ← trimmed_text desc; f ← _cleanFeeString fee;
    Ok (c, d, f)
  else
    code ← probe r ["Code"; "code"; "code_value"; "0"] (VStr "");
    desc ← probe r ["Description"; "description"; "Desc"; "desc"; "1"] (VStr "");
    fee ← probe r ["Fee"; "fee"; "Amount"; "amount"; "Price"; "price"; "2"] (VStr "");
    c ← trimmed_text code; d ← trimmed_text desc; f ← _cleanFeeString fee;
    Ok (c, d, f).

(** [normalizeDiagRow] *)
Definition normalizeDiagRow (r : value) : outcome (value * value * value) :=
  if negb (truthy r) then Ok (VStr "ICD-10", VStr "", VStr "")
  else if is_array r then
    typ ← probe r ["0"] (VStr "ICD-10");
    code ← probe r ["1"] (VStr "");
    diag ← probe r ["2"] (VStr "");
    Ok (typ, code, diag)
  else
    typ ← probe r ["Type"; "type"; "0"] (VStr "ICD-10");
    code ← probe r ["Code"; "code"; "1"] (VStr "");
    diag ← probe r ["Diagnosis"; "diagnosis"; "Description"; "description"; "2"] (VStr "");
    c ← trimmed_text code; d ← trimmed_text diag;
    Ok (typ, VStr c, VStr d).

(** ** TableShapeNormalizer *)

Module Keys.

(** The value of [Number(k)] for a key [k]: not a number, an infinity, or
    the double [m * 2^e]. *)
Inductive number : Type :=
  | NaN
  | Inf (negative : bool)
  | Fin (m e : Z).

Definition Z_of_digits (base : Z) (digit : ascii -> option Z) (l : chars) : option Z :=
  match l with
  | [] => None
  | _ => fold_left (fun acc c =>
                      match acc, digit c with
                      | Some a, Some d => Some (base * a + d)
                      | _, _ => None
                      end) l (Some 0)
  end.

Definition dec_digit (c : ascii) : option Z :=
  if is_digit c then Some (Z.of_N (code c) - 48) else None.

Definition hex_value (c : ascii) : option Z :=
  let n := Z.of_N (code c) in
  if is_digit c then Some (n - 48)
  else if (97 <=? n) && (n <=? 102) then Some (n - 87)
  else if (65 <=? n) && (n <=? 70) then Some (n - 55)
  else None.

Definition bounded_digit (base : Z) (c : ascii) : option Z :=
  match dec_digit c with
  | Some d => if d <? base then Some d else None
  | None => None
  end.

(** The quotient [n / d] rounded to the nearest integer, a tie going to
    the even one. *)
Definition round_half_even (n d : Z) : Z :=
  let q := n / d in
  let r := n mod d in
  if 2 * r <? d then q
  else if d <? 2 * r then q + 1
  else if Z.even q then q else q + 1.

(** The exponent [k] with [2^k <= n / d < 2^(k+1)], for positive [n] and
    [d]. *)
Definition binade (n d : Z) : Z :=
  let k := Z.log2 n - Z.log2 d in
  if (if 0 <=? k then d * 2 ^ k <=? n else d <=? n * 2 ^ (- k)) then k else k - 1.

(** The double nearest to [n / d], for positive [n] and [d]: 53 binary
    digits, the last of them worth [2^-1074] at least, a tie going to the
    even neighbour; what rounds to [2^1024] is infinite. *)
Definition nearest_double (n d : Z) : number :=
  let e := Z.max (binade n d - 52) (-1074) in
  let m := if 0 <=? e then round_half_even n (d * 2 ^ e)
           else round_half_even (n * 2 ^ (- e)) d in
  if 2 ^ 1024 <=? m * 2 ^ e then Inf false else Fin m e.

Definition negate (x : number) : number :=
  match x with
  | NaN => NaN
  | Inf s => Inf (negb s)
  | Fin m e => Fin (- m) e
  end.

(** The Number value of the decimal [m * 10^e]. *)
Definition of_decimal (m e : Z) : number :=
  if m =? 0 then Fin 0 0
  else
    let x := if 0 <=? e then nearest_double (Z.abs m * 10 ^ e) 1
             else nearest_double (Z.abs m) (10 ^ (- e)) in
    if m <? 0 then negate x else x.

(** [[eE][+-]?\d+] up to the end of the text, or nothing. *)
Definition exponent (l : chars) : option Z :=
  match l with
  | [] => Some 0
  | e :: rest =>
      if (code e =? 101)%N || (code e =? 69)%N then
        match rest with
        | s :: ds =>
            if (code s =? 43)%N then Z_of_digits 10 dec_digit ds
            else if (code s =? 45)%N then Z.opp <$> Z_of_digits 10 dec_digit ds
            else Z_of_digits 10 dec_digit rest
        | [] => None
        end
      else None
  end.

(** An unsigned [StrDecimalLiteral] other than [Infinity]. *)
Definition unsigned_decimal (l : chars) : number :=
  let int := span_while is_digit l in
  let rest := skip_while is_digit l in
  let '(frac, rest) :=
    match rest with
    | p :: after => if is_dot p then (span_while is_digit after, skip_while is_digit after)
                    else ([], rest)
    | [] => ([], [])
    end in
  match int ++ frac with
  | [] => NaN
  | ds =>
      match Z_of_digits 10 dec_digit ds, exponent rest with
      | Some m, Some e => of_decimal m (e - Z.of_nat (length frac))
      | _, _ => NaN
      end
  end.

Definition infinity_text : chars := explode "Infinity".

Definition unsigned_literal (l : chars) : number :=
  if bool_decide (l = infinity_text) then Inf false else unsigned_decimal l.

Definition radix_literal (l : chars) : option number :=
  match l with
  | z :: x :: ds =>
      if is_zero z then
        let n := code x in
        let parse base digit :=
          Some (match Z_of_digits base digit ds with
                | Some m => of_decimal m 0
                | None => NaN
                end) in
        if (n =? 120)%N || (n =? 88)%N then parse 16 hex_value
        else if (n =? 111)%N || (n =? 79)%N then parse 8 (bounded_digit 8)
        else if (n =? 98)%N || (n =? 66)%N then parse 2 (bounded_digit 2)
        else None
      else None
  | _ => None
  end.

(** [Number(k)] on a text. *)
Definition to_number (k : string) : number :=
  let l := trim_chars (explode k) in
  match l with
  | [] => Fin 0 0
  | s :: rest =>
      match radix_literal l with
      | Some n => n
      | None =>
          if (code s =? 43)%N then unsigned_literal rest
          else if (code s =? 45)%N then negate (unsigned_literal rest)
          else unsigned_literal l
      end
  end.

Definition is_nan (x : number) : bool :=
  match x with NaN => true | _ => false end.

Definition is_finite (x : number) : bool :=
  match x with Fin _ _ => true | _ => false end.

(** A finite number counted in units of [2^-1074], the least double. *)
Definition units (x : number) : Z :=
  match x with
  | Fin m e => m * 2 ^ (e + 1074)
  | _ => 0
  end.

(** The sign of [x - y]; the difference of equal infinities is not a
    number, which the sort reads as [0]. *)
Definition difference_sign (x y : number) : Z :=
  match x, y with
  | Fin m1 e1, Fin m2 e2 =>
      let e := Z.min e1 e2 in
      Z.sgn (m1 * 2 ^ (e1 - e) - m2 * 2 ^ (e2 - e))
  | Inf s1, Inf s2 => if Bool.eqb s1 s2 then 0 else if s1 then -1 else 1
  | Inf s, Fin _ _ => if s then -1 else 1
  | Fin _ _, Inf s => if s then 1 else -1
  | _, _ => 0
  end.

(** [a.localeCompare(b)] *)
Definition localeCompare (a b : string) : Z := Engine.collation Engine.host a b.

(** The comparator passed to [sort]. *)
Definition key_order (a b : string) : Z :=
  let na := to_number a in
  let nb := to_number b in
  if negb (is_nan na) && negb (is_nan nb) then difference_sign na nb
  else localeCompare a b.

(** [keys.sort(cmp)] *)
Definition sort_keys (cmp : string -> string -> Z) (l : list string) : list string :=
  Engine.sort Engine.host cmp l.

End Keys.

(** The rows of a section whose value is a mapping keyed by index:
    [Object.keys(rows).sort(cmp).map((k) => rows[k])]. *)
Definition rows_of_keyed (rows : object) : list value :=
  map (fun k => default VUndef (lookup_prop rows k))
      (Keys.sort_keys Keys.key_order (map fst rows)).

(** The callback of [Object.entries(tables).forEach]. *)
Definition normalize_section (out : object) (entry : string * value) : object :=
  let '(sec, rows) := entry in
  match rows with
  | VNull | VUndef => assign_prop out sec (VArr [])
  | VArr _ => assign_prop out sec rows
  | VObj o => assign_prop out sec (VArr (rows_of_keyed o))
  | _ => assign_prop out sec (VArr [rows])
  end.

(** [normalizeTables] *)
Definition normalizeTables (tables : value) : object :=
  if negb (truthy tables) then []
  else if is_array tables then assign_prop [] "Procedures" tables
  else fold_left normalize_section (own_entries tables) [].

(** ** CodeHighlighter: the scan at the head of [PatientBlock] *)

Module Icd.

Definition is_word_opt (c : option ascii) : bool :=
  match c with Some c => is_word c | None => false end.

(** [\b] between two neighbouring positions. *)
Definition boundary (before after : option ascii) : bool :=
  xorb (is_word_opt before) (is_word_opt after).

(** The class [[0-9A-Z]]. *)
Definition is_suffix_char (c : ascii) : bool := is_digit c || is_upper c.

(** The ways [[0-9A-Z]+] can match at the head of [l], longest first; each
    is the matched text, reversed, and the text left. *)
Fixpoint suffix_runs (taken : chars) (l : chars) : list (chars * chars) :=
  match l with
  | c :: t =>
      if is_suffix_char c
      then suffix_runs (c :: taken) t ++ [(c :: taken, t)]
      else []
  | [] => []
  end.

(** [(?:\.[0-9A-Z]+)?\b] after the text [taken] (reversed, not empty):
    the group is tried first, longest run first, then the empty match. *)
Definition match_tail (taken : chars) (l : chars) : option (chars * chars) :=
  let ends_well (cand : chars * chars) :=
    boundary (head (fst cand)) (head (snd cand)) in
  let with_group :=
    match l with
    | p :: t => if is_dot p then suffix_runs (p :: taken) t else []
    | [] => []
    end in
  match filter (fun cand => Is_true (ends_well cand)) (with_group ++ [(taken, l)]) with
  | cand :: _ => Some cand
  | [] => None
  end.

(** [[0-9]{n}] at the head of [l]. *)
Fixpoint digits_exactly (n : nat) (taken : chars) (l : chars) : option (chars * chars) :=
  match n with
  | O => Some (taken, l)
  | S n' =>
      match l with
      | c :: t => if is_digit c then digits_exactly n' (c :: taken) t else None
      | [] => None
      end
  end.

(** One attempt of [\b[A-Z][0-9]{2,3}(?:\.[0-9A-Z]+)?\b] at the head of
    [l], [prev] being the character before it: three digits are tried
    before two.  The result is the matched text. *)
Definition match_at (prev : option ascii) (l : chars) : option chars :=
  match l with
  | a :: t =>
      if boundary prev (Some a) && is_upper a then
        let attempt n :=
          match digits_exactly n [a] t with
          | Some (taken, rest) => match_tail taken rest
          | None => None
          end in
        match attempt 3%nat with
        | Some (taken, _) => Some (rev taken)
        | None =>
            match attempt 2%nat with
            | Some (taken, _) => Some (rev taken)
            | None => None
            end
        end
      else None
  | [] => None
  end.

(** [str.match(icdRegex)] with the flag [g]: the matches from left to
    right, the scan resuming after each match.  [skip] counts the
    characters of the last match still to pass. *)
Fixpoint scan (prev : option ascii) (skip : nat) (l : chars) : list chars :=
  match l with
  | [] => []
  | c :: t =>
      match skip with
      | S n => scan (Some c) n t
      | O =>
          match match_at prev l with
          | Some m => m :: scan (Some c) (length m - 1) t
          | None => scan (Some c) 0 t
          end
      end
  end.

Definition matches (s : string) : list string :=
  map implode (scan None 0 (explode s)).

End Icd.

(** [Set.prototype.add], the set kept in insertion order. *)
Definition set_add (set : list string) (x : string) : list string :=
  if existsb (String.eqb x) set then set else set ++ [x].

(** The body of the [forEach] over the field values: a failure of
    [String(v || "")] is caught and the field is skipped. *)
Definition highlight_field (set : list string) (v : value) : list string :=
  match to_text (v ?| VStr "") with
  | Ok str => fold_left set_add (map trim (Icd.matches str)) set
  | _ => set
  end.

(** [highlightCodes] of [PatientBlock]. *)
Definition highlightCodes (patient : value) : list string :=
  fold_left highlight_field (own_values (patient ?| VObj [])) [].

(** ** PatientReconciler *)

(** The grouping key computed at the head of the loop of
    [dedupeAndMergePatients]. *)
Definition identity_key (p : value) : outcome string :=
  n ← probe_truthy p ["Patient Name"; "Patient"] (VStr "");
  name ← trimmed_text n;
  s ← probe_truthy p ["Subscriber ID"; "SubscriberId"; "Subscriber"] (VStr "");
  sub ← trimmed_text s;
  if negb (String.eqb name "") then Ok name
  else if negb (String.eqb sub "") then Ok sub
  else match json_text p with
       | Some t => Ok (slice_to 80 t)
       | None => Throw
       end.

(** [if (clone[k] && !Array.isArray(clone[k])) clone[k] = [clone[k]]] *)
Definition wrap_rows (clone : object) (k : string) : object :=
  let v := default VUndef (lookup_prop clone k) in
  if truthy v && negb (is_array v) then assign_prop clone k (VArr [v]) else clone.

(** The record stored when a key is seen for the first time. *)
Definition first_clone (p : value) : object :=
  wrap_rows (wrap_rows (spread p) "Procedure / Billing (All Tables)")
            "Diagnosis (All Tables)".

(** [existing[k]] for a computed key [k]. *)
Definition read_computed (existing : object) (k : string) : outcome value :=
  match lookup_prop existing k with
  | Some v => Ok v
  | None => if inherited_name k then Unmodelled else Ok VUndef
  end.

(** [e === undefined || e === null || e === "NIL" || e === ""] *)
Definition is_placeholder (e : value) : bool :=
  match e with
  | VUndef | VNull => true
  | VStr s => String.eqb s "NIL" || String.eqb s ""
  | _ => false
  end.

(** The body of [for (const k of Object.keys(p))]. *)
Definition merge_field (p : value) (existing : object) (k : string) : outcome object :=
  val ← get_prop p k;
  e ← read_computed existing k;
  if is_placeholder e && truthy val then Ok (assign_prop existing k val)
  else match e, val with
       | VArr a, VArr b => Ok (assign_prop existing k (VArr (a ++ b)))
       | VArr a, _ =>
           if truthy val then Ok (assign_prop existing k (VArr (a ++ [val])))
           else Ok existing
       | _, VArr b =>
           Ok (assign_prop existing k (VArr ((if truthy e then [e] else []) ++ b)))
       | _, _ => Ok existing
       end.

Definition merge_into (existing : object) (p : value) : outcome object :=
  fold_outcome (merge_field p) (own_keys p) existing.

(** The [Map] of the reconciler: keys in first-seen order. *)
Abbreviation patient_map := (list (string * object)).

Fixpoint map_get (m : patient_map) (key : string) : option object :=
  match m with
  | [] => None
  | (k, o) :: t => if String.eqb k key then Some o else map_get t key
  end.

Fixpoint map_set (m : patient_map) (key : string) (o : object) : patient_map :=
  match m with
  | [] => [(key, o)]
  | (k, o') :: t => if String.eqb k key then (k, o) :: t else (k, o') :: map_set t key o
  end.

(** One turn of [for (const p of patients)]. *)
Definition reconcile_step (m : patient_map) (p : value) : outcome patient_map :=
  key ← identity_key p;
  match map_get m key with
  | None => Ok (map_set m key (first_clone p))
  | Some existing =>
      merged ← merge_into existing p;
      Ok (map_set m key merged)
  end.

(** [dedupeAndMergePatients] *)
Definition dedupeAndMergePatients (patients : value) : outcome (list value) :=
  match patients with
  | VArr ps =>
      m ← fold_outcome reconcile_step ps [];
      Ok (map (fun entry => VObj (snd entry)) m)
  | _ => Ok []
  end.

(** ** ResultAssembler *)

(** [Array.isArray(x) ? f(x) : d] on the elements of a legacy array. *)
Definition legacy_proc_row (r : value) : outcome value :=
  if is_array r then Ok r
  else
    c ← probe r ["Code"; "code"] (VStr "");
    d ← probe r ["Description"; "description"] (VStr "");
    f ← probe r ["Fee"; "fee"] (VStr "");
    Ok (VArr [c; d; f]).

Definition legacy_diag_row (d : value) : outcome value :=
  if is_array d then Ok d
  else
    t ← probe d ["Type"; "type"] (VStr "ICD-10");
    c ← probe d ["Code"; "code"] (VStr "");
    g ← probe d ["Diagnosis"; "diagnosis"; "Description"; "description"] (VStr "");
    Ok (VArr [t; c; g]).

(** [Array.isArray(x) ? x.map(f) : []] *)
Definition map_rows (f : value -> outcome value) (x : value) : outcome value :=
  match x with
  | VArr l => rows ← map_outcome f l; Ok (VArr rows)
  | _ => Ok (VArr [])
  end.

Definition array_or_empty (x : value) : value :=
  if is_array x then x else VArr [].

(** [if (!meta["File Name"]) meta["File Name"] = name], the module being
    in strict mode: the write raises on a primitive. *)
Definition stamp_file_name (meta : value) (name : string) : outcome value :=
  f ← get_prop meta "File Name";
  if truthy f then Ok meta
  else match meta with
       | VObj o => Ok (VObj (assign_prop o "File Name" (VStr name)))
       | VArr _ => Unmodelled
       | _ => Throw
       end.

Definition make_item (file_name patients procs diags metadata : value) : value :=
  VObj [("file_name", file_name); ("patients", patients);
        ("procedure_tables", procs); ("diagnosis_tables", diags);
        ("metadata", metadata)].

(** [buildItemFromResponse(resData, file)], [name] being [file.name]. *)
Definition buildItemFromResponse (resData : value) (name : string) : outcome value :=
  if negb (truthy resData) then
    Ok (make_item (VStr name) (VArr []) (VObj []) (VObj []) (VObj []))
  else
    canonical ← probe_truthy resData ["patients"; "procedure_tables"; "diagnosis_tables"] VUndef;
    if truthy canonical then
      fname ← probe_truthy resData ["file_name"; "filename"] (VStr name);
      pats ← get_prop resData "patients";
      procs ← probe_truthy resData ["procedure_tables"; "procedureTables"] (VObj []);
      diags ← probe_truthy resData ["diagnosis_tables"; "diagnosisTables"] (VObj []);
      meta ← probe_truthy resData ["metadata"] (VObj []);
      Ok (make_item fname (array_or_empty pats) procs diags meta)
    else
      legacy ← probe_truthy resData ["medical_billing_codes"; "diagnosis_codes"] VUndef;
      if truthy legacy then
        billing ← get_prop resData "medical_billing_codes";
        prows ← map_rows legacy_proc_row billing;
        codes ← get_prop resData "diagnosis_codes";
        drows ← map_rows legacy_diag_row codes;
        fname ← probe_truthy resData ["file_name"; "filename"] (VStr name);
        pats ← get_prop resData "patients";
        meta ← probe_truthy resData ["metadata"] (VObj []);
        Ok (make_item fname (array_or_empty pats)
                      (VObj [("Procedures", prows)]) (VObj [("Diagnosis", drows)]) meta)
      else
        meta ← probe_truthy resData ["metadata"] resData;
        meta' ← stamp_file_name meta name;
        fname ← get_prop meta' "File Name";
        Ok (make_item fname (VArr []) (VObj []) (VObj []) meta').

(** What [ResultBlock] computes before it renders. *)
Record result_view : Type := {
  title : value;
  patients : list value;
  procedureTables : object;
  diagnosisTables : object;
  totalProcRows : Z;
  totalDiagRows : Z
}.

(** [(a && a.length) || 0] summed over the sections, which are arrays. *)
Definition count_rows (tables : object) : Z :=
  fold_left (fun s a => s + match a with
                          | VArr l => Z.of_nat (length l)
                          | _ => 0
                          end) (map snd tables) 0.

(** The replacement of an empty table set by a flat legacy array. *)
Definition flat_fallback (normalized : object) (section : string) (flat : value) : object :=
  match flat with
  | VArr (_ :: _) => if Nat.eqb (length normalized) 0 then [(section, flat)] else normalized
  | _ => normalized
  end.

(** [ResultBlock({ item })] up to the [return]. *)
Definition ResultBlock (item : value) : outcome result_view :=
  pats ← get_prop item "patients";
  plist ← get_prop item "patients_list";
  let rawPatients :=
    if is_array pats then pats else if is_array plist then plist else VArr [] in
  procs ← probe_truthy item ["procedure_tables"; "procedureTables"; "medical_billing_codes"] (VObj []);
  diags ← probe_truthy item ["diagnosis_tables"; "diagnosisTables"; "diagnosis_codes"] (VObj []);
  billing ← get_prop item "medical_billing_codes";
  codes ← get_prop item "diagnosis_codes";
  let procTablesMutable := flat_fallback (normalizeTables procs) "Procedures" billing in
  let diagTablesMutable := flat_fallback (normalizeTables diags) "Diagnosis" codes in
  merged ← dedupeAndMergePatients rawPatients;
  ttl ← probe_truthy item ["file_name"; "filename"] (VStr "Uploaded file");
  Ok {| title := ttl;
        patients := merged;
        procedureTables := procTablesMutable;
        diagnosisTables := diagTablesMutable;
        totalProcRows := count_rows procTablesMutable;
        totalDiagRows := count_rows diagTablesMutable |}.

(** The whole transform: one payload and one file name in, one view out. *)
Definition assemble (resData : value) (name : string) : outcome result_view :=
  item ← buildItemFromResponse resData name;
  ResultBlock item.

(** ** The rendered views

    What the components compute and hand to the renderer: the texts, rows
    and flags placed in the markup, without the markup. *)

(** [s.startsWith(prefix)] *)
Definition starts_with (prefix s : string) : bool := String.prefix prefix s.

(** [a ?? b] *)
Definition or_default (a b : value) : value := if nullish a then b else a.

(** [Array.prototype.join(sep)]: [null] and [undefined] elements give the
    empty text, the others are converted as [String] does. *)
Definition join_items (sep : string) (l : list value) : outcome string :=
  parts ← map_outcome (fun x => if nullish x then Ok "" else to_text x) l;
  Ok (join_with sep parts).

(** [typeof v === "object" && v !== null] *)
Definition is_object (v : value) : bool :=
  match v with VArr _ | VObj _ => true | _ => false end.

(** [typeof v === "string" && v.startsWith("/signatures/")], with the text. *)
Definition signature_path (v : value) : option string :=
  match v with
  | VStr s => if starts_with "/signatures/" s then Some s else None
  | _ => None
  end.

(** The four renderings of [RenderMetaValue]: the linked signature image,
    the joined list, the JSON text (the result of [JSON.stringify], which
    may be [undefined]) and the plain text. *)
Inductive meta_view : Type :=
  | SignatureLink (href : string)
  | JoinedList (text : string)
  | JsonBlock (text : option string)
  | PlainText (text : string).

(** [RenderMetaValue({ value })] *)
Definition RenderMetaValue (v : value) : outcome meta_view :=
  match signature_path v with
  | Some href => Ok (SignatureLink href)
  | None =>
      match v with
      | VArr l => t ← join_items ", " l; Ok (JoinedList t)
      | _ =>
          if is_object v then Ok (JsonBlock (json_text v))
          else t ← to_text (or_default v (VStr "")); Ok (PlainText t)
      end
  end.

(** The [combinedCounts] property of [MetadataVertical]; [None] is a field
    that is [undefined]. *)
Record combined_counts : Type := {
  procsTotal : option Z;
  diagsTotal : option Z
}.

(** A cell of the metadata table: a row count, or a rendered value. *)
Inductive meta_cell : Type :=
  | RowCount (n : Z)
  | Rendered (view : meta_view).

(** The cell [MetadataVertical] shows for the key [k]: the count of the
    procedure rows or of the diagnosis rows under the names of the table
    fields, when that count is given, and the rendered value otherwise. *)
Definition meta_cell_of (meta : value) (combinedCounts : combined_counts) (k : string)
  : outcome meta_cell :=
  match (if String.eqb k "Procedure / Billing (All Tables)" || String.eqb k "Procedure / Billing"
         then procsTotal combinedCounts else None) with
  | Some n => Ok (RowCount n)
  | None =>
      match (if String.eqb k "Diagnosis (All Tables)" || String.eqb k "Diagnosis"
             then diagsTotal combinedCounts else None) with
      | Some m => Ok (RowCount m)
      | None => v ← get_prop meta k; view ← RenderMetaValue v; Ok (Rendered view)
      end
  end.

(** [MetadataVertical({ meta, combinedCounts })]: [None] is the line
    "No metadata", otherwise one row for each own key. *)
Definition MetadataVertical (meta : value) (combinedCounts : combined_counts)
  : outcome (option (list (string * meta_cell))) :=
  if negb (truthy meta) || Nat.eqb (length (own_keys meta)) 0 then Ok None
  else
    rows ← map_outcome (fun k => cell ← meta_cell_of meta combinedCounts k; Ok (k, cell))
                       (own_keys meta);
    Ok (Some rows).

(** The body of a rendered table: the line "No rows", or the rows. *)
Inductive table_body (R : Type) : Type :=
  | NoRows
  | Rows (rows : list R).

Arguments NoRows {R}.
Arguments Rows {R} rows.

(** The section loop [ProcedureTables] and [DiagnosisTables] share: [None]
    is the line telling that no tables were found. *)
Definition render_sections {R} (row : value -> outcome R) (normalized : object)
  : outcome (option (list (string * table_body R))) :=
  if Nat.eqb (length normalized) 0 then Ok None
  else
    sections ← map_outcome
      (fun entry : string * value =>
         let safeRows := match snd entry with VArr l => l | _ => [] end in
         if Nat.ltb 0 (length safeRows)
         then rows ← map_outcome row safeRows; Ok (fst entry, Rows rows)
         else Ok (fst entry, NoRows))
      normalized;
    Ok (Some sections).

(** [ProcedureTables({ tables })] *)
Definition ProcedureTables (tables : value)
  : outcome (option (list (string * table_body (string * string * string)))) :=
  render_sections normalizeProcRow (normalizeTables tables).

(** The callback of [safeRows.map] in [DiagnosisTables]: the three cells
    and the flag [isMatch]. *)
Definition diag_row_view (highlightCodes : list string) (r : value)
  : outcome (value * value * value * bool) :=
  row ← normalizeDiagRow r;
  let '(type, code, desc) := row in
  t ← to_text code;
  Ok (type, code, desc, existsb (String.eqb (trim t)) highlightCodes).

(** [DiagnosisTables({ tables, highlightCodes })] *)
Definition DiagnosisTables (tables : value) (highlightCodes : list string)
  : outcome (option (list (string * table_body (value * value * value * bool)))) :=
  render_sections (diag_row_view highlightCodes) (normalizeTables tables).

(** ** PatientBlock *)

(** [Array.isArray(p[k1]) ? p[k1] : Array.isArray(p[k2]) ? p[k2] : []] *)
Definition array_field (patient : value) (k1 k2 : string) : outcome (list value) :=
  a ← get_prop patient k1;
  match a with
  | VArr l => Ok l
  | _ => b ← get_prop patient k2;
         match b with
         | VArr l => Ok l
         | _ => Ok []
         end
  end.

(** [a.concat(x)] on an array [a]: an array argument is spread. *)
Definition array_concat (a : list value) (x : value) : list value :=
  match x with
  | VArr b => a ++ b
  | _ => a ++ [x]
  end.

(** [combined[sec] = (combined[sec] || []).concat(rows || [])] *)
Definition combine_section (combined : object) (entry : string * value) : outcome object :=
  current ← read_computed combined (fst entry);
  match current ?| VArr [] with
  | VArr a =>
      Ok (assign_prop combined (fst entry) (VArr (array_concat a (snd entry ?| VArr []))))
  | _ => Unmodelled
  end.

(** The combined tables of a patient: the rows attached to the patient
    under [label], when there are any, then the sections of the result. *)
Definition combined_tables (label : string) (patientRows : list value) (tables : value)
  : outcome object :=
  fold_outcome combine_section (normalizeTables tables)
    (if Nat.ltb 0 (length patientRows)
     then assign_prop [] label (VArr patientRows) else []).

(** What [PatientBlock] shows. *)
Record patient_view : Type := {
  heading : value;
  fields : option (list (string * meta_cell));
  counts : combined_counts;
  procedures : option (list (string * table_body (string * string * string)));
  diagnoses : option (list (string * table_body (value * value * value * bool)));
  matched_note : option string
}.

(** A parameter with the default [d]. *)
Definition with_default (v d : value) : value :=
  match v with VUndef => d | _ => v end.

(** [PatientBlock({ patient, procedureTables = {}, diagnosisTables = {} })] *)
Definition PatientBlock (patient procedureTables diagnosisTables : value)
  : outcome patient_view :=
  let procedureTables := with_default procedureTables (VObj []) in
  let diagnosisTables := with_default diagnosisTables (VObj []) in
  let highlight := highlightCodes patient in
  patientProcs ← array_field patient "Procedure / Billing (All Tables)" "Procedure / Billing";
  patientDiags ← array_field patient "Diagnosis (All Tables)" "Diagnosis";
  let totalProcsFromGlobal := count_rows (normalizeTables procedureTables) in
  let totalDiagsFromGlobal := count_rows (normalizeTables diagnosisTables) in
  let procs_total := Z.of_nat (length patientProcs) + totalProcsFromGlobal in
  let diags_total := Z.of_nat (length patientDiags) + totalDiagsFromGlobal in
  combinedProcedureTables ← combined_tables "Patient Procedures" patientProcs procedureTables;
  combinedDiagnosisTables ← combined_tables "Patient Diagnosis" patientDiags diagnosisTables;
  name ← probe patient ["Patient Name"; "Patient"] (VStr "Unknown");
  let combinedCounts := {| procsTotal := Some procs_total; diagsTotal := Some diags_total |} in
  rows ← MetadataVertical patient combinedCounts;
  procs ← ProcedureTables (VObj combinedProcedureTables);
  diags ← DiagnosisTables (VObj combinedDiagnosisTables) highlight;
  Ok {| heading := name;
        fields := rows;
        counts := combinedCounts;
        procedures := procs;
        diagnoses := diags;
        matched_note := if Nat.ltb 0 (length highlight)
                        then Some (join_with ", " highlight) else None |}.

(** The patient blocks of a result: [patients.map((p, idx) => <PatientBlock
    patient={p} procedureTables={procTablesMutable}
    diagnosisTables={diagTablesMutable} />)]. *)
Definition patient_blocks (view : result_view) : outcome (list patient_view) :=
  map_outcome (fun p => PatientBlock p (VObj (procedureTables view)) (VObj (diagnosisTables view)))
              (patients view).

(** ** The upload form

    The state of [OCRUpload] that its handlers read and write: the selected
    files, each one by its name, the results shown, the flag [loading], the
    signed-in user and the alerts raised so far.

    [handleUploadAll] is asynchronous: it runs up to a request and goes on
    when the request is answered, and other handlers run in between.  What
    it keeps of its own from one request to the next is the rest of the
    files it was started with and the items pushed so far. *)

Inductive notice : Type :=
  | TooManyFiles
  | SessionExpired
  | UploadFailed.

Record upload_state : Type := {
  files : list string;
  results : list value;
  loading : bool;
  auth : value;
  notices : list notice
}.

(** The answer to one request: a response with its data, or a rejection
    with the status of the response, if there is one. *)
Inductive reply : Type :=
  | Response (data : value)
  | Rejected (status : option Z).

(** [handleFileChange]: a selection of more than ten files is refused with
    an alert; any other replaces the selection and clears the results. *)
Definition handleFileChange (selected : list string) (st : upload_state) : upload_state :=
  if Nat.ltb 10 (length selected)
  then {| files := files st; results := results st; loading := loading st;
          auth := auth st; notices := notices st ++ [TooManyFiles] |}
  else {| files := selected; results := []; loading := loading st;
          auth := auth st; notices := notices st |}.










(** What happens to the form: the user chooses files, the user clicks the
    upload button, the request that is out is answered. *)
Inductive event : Type :=
  | FilesChosen (selected : list string)
  | UploadClicked
  | Answered (r : reply).



(** ** The same code on a store of objects

    Arrays and objects live in a store and are named by their location, so
    that sharing and writes in place can be told apart from copies.  The
    store only grows; a literal, a spread or a [concat] allocates. *)

Module Heap.

Abbreviation loc := nat.

Inductive hvalue : Type :=
  | HUndef
  | HNull
  | HBool (b : bool)
  | HNum (n : Z)
  | HStr (s : string)
  | HRef (l : loc).

(** A cell holds an array, with the properties it was given besides its
    elements, or a plain object. *)
Inductive cell : Type :=
  | CArr (items : list hvalue) (named : list (string * hvalue))
  | CObj (props : list (string * hvalue)).

Abbreviation heap := (list cell).

(** A computation on the store: the store it leaves, and how it ended. *)
Definition M (A : Type) : Type := heap -> heap * outcome A.

Definition ret {A} (a : A) : M A := fun h => (h, Ok a).

Definition hbind {A B} (m : M A) (f : A -> M B) : M B :=
  fun h =>
    match m h with
    | (h', Ok a) => f a h'
    | (h', Throw) => (h', Throw)
    | (h', Unmodelled) => (h', Unmodelled)
    end.

Notation "'do' x <- m ; k" := (hbind m (fun x => k))
  (at level 10, x name, m at level 100, k at level 200).

Definition lift {A} (o : outcome A) : M A := fun h => (h, o).

Definition alloc (c : cell) : M loc :=
  fun h => (h ++ [c], Ok (length h)).

Definition new_array (items : list hvalue) : M hvalue :=
  do l <- alloc (CArr items []); ret (HRef l).

Definition new_object (props : list (string * hvalue)) : M hvalue :=
  do l <- alloc (CObj props); ret (HRef l).

Definition load (l : loc) : M cell :=
  fun h => (h, match h !! l with Some c => Ok c | None => Unmodelled end).

Definition store (l : loc) (c : cell) : M unit :=
  fun h => (<[l := c]> h, Ok tt).

Definition for_each {A} (f : A -> M unit) : list A -> M unit :=
  fix go (l : list A) : M unit :=
    match l with
    | [] => ret tt
    | x :: t => do _ <- f x; go t
    end.

Definition map_m {A B} (f : A -> M B) : list A -> M (list B) :=
  fix go (l : list A) : M (list B) :=
    match l with
    | [] => ret []
    | x :: t => do y <- f x; do ys <- go t; ret (y :: ys)
    end.

(** The JSON value a stored value denotes, to the depth [fuel]; an array
    that was given a property besides its elements denotes none. *)
Fixpoint reify (fuel : nat) (h : heap) (v : hvalue) : option value :=
  match v with
  | HUndef => Some VUndef
  | HNull => Some VNull
  | HBool b => Some (VBool b)
  | HNum n => Some (VNum n)
  | HStr s => Some (VStr s)
  | HRef l =>
      match fuel with
      | O => None
      | S fuel' =>
          match h !! l with
          | Some (CArr items []) =>
              VArr <$> (fix go (l : list hvalue) : option (list value) :=
                          match l with
                          | [] => Some []
                          | x :: t =>
                              match reify fuel' h x, go t with
                              | Some y, Some ys => Some (y :: ys)
                              | _, _ => None
                              end
                          end) items
          | Some (CObj props) =>
              VObj <$> (fix go (l : list (string * hvalue)) : option object :=
                          match l with
                          | [] => Some []
                          | (k, x) :: t =>
                              match reify fuel' h x, go t with
                              | Some y, Some ys => Some ((k, y) :: ys)
                              | _, _ => None
                              end
                          end) props
          | Some (CArr _ (_ :: _)) | None => None
          end
      end
  end.

(** The value read off the store; a store of [n] cells without cycles is
    no deeper than [n]. *)
Definition snapshot (v : hvalue) : M value :=
  fun h => (h, match reify (length h) h v with
               | Some x => Ok x
               | None => Unmodelled
               end).

(** A JSON value laid out in the store, as [JSON.parse] builds it: every
    array and every object gets a cell of its own. *)
Fixpoint store_value (v : value) : M hvalue :=
  match v with
  | VUndef => ret HUndef
  | VNull => ret HNull
  | VBool b => ret (HBool b)
  | VNum n => ret (HNum n)
  | VStr s => ret (HStr s)
  | VArr l =>
      do items <- (fix go (l : list value) : M (list hvalue) :=
                     match l with
                     | [] => ret []
                     | x :: t => do y <- store_value x; do ys <- go t; ret (y :: ys)
                     end) l;
      new_array items
  | VObj o =>
      do props <- (fix go (o : object) : M (list (string * hvalue)) :=
                     match o with
                     | [] => ret []
                     | (k, x) :: t => do y <- store_value x; do ys <- go t; ret ((k, y) :: ys)
                     end) o;
      new_object props
  end.

(** Run [f] on the stored form of [v], from the empty store, and read the
    result back. *)
Definition on_stored (f : hvalue -> M hvalue) (v : value) : outcome value :=
  snd ((do hv <- store_value v; do r <- f hv; snapshot r) []).

Definition truthy (v : hvalue) : bool :=
  match v with
  | HUndef | HNull => false
  | HBool b => b
  | HNum n => negb (n =? 0)
  | HStr s => negb (String.eqb s "")
  | HRef _ => true
  end.

Definition nullish (v : hvalue) : bool :=
  match v with HUndef | HNull => true | _ => false end.

Definition is_placeholder (e : hvalue) : bool :=
  match e with
  | HUndef | HNull => true
  | HStr s => String.eqb s "NIL" || String.eqb s ""
  | _ => false
  end.

(** [Array.isArray(v)], with the elements when it holds. *)
Definition as_array (v : hvalue) : M (option (list hvalue)) :=
  match v with
  | HRef l => do c <- load l;
              ret (match c with CArr items _ => Some items | CObj _ => None end)
  | _ => ret None
  end.

Definition char_values (s : string) : list hvalue :=
  map (fun c => HStr (implode [c])) (explode s).

(** The own enumerable properties of a value other than [null] and
    [undefined]. *)
Definition own_entries (v : hvalue) : M (list (string * hvalue)) :=
  match v with
  | HRef l => do c <- load l;
              ret (match c with
                   | CObj o => o
                   | CArr items named => index_entries 0 items ++ named
                   end)
  | HStr s => ret (index_entries 0 (char_values s))
  | _ => ret []
  end.

(** [v[k]] for a key that is not inherited. *)
Definition get_prop (v : hvalue) (k : string) : M hvalue :=
  match v with
  | HUndef | HNull => lift Throw
  | _ => do o <- own_entries v; ret (default HUndef (lookup_prop o k))
  end.

Fixpoint probe (r : hvalue) (keys : list string) (d : hvalue) : M hvalue :=
  match keys with
  | [] => ret d
  | k :: ks => do v <- get_prop r k; if nullish v then probe r ks d else ret v
  end.

Fixpoint probe_truthy (r : hvalue) (keys : list string) (d : M hvalue) : M hvalue :=
  match keys with
  | [] => d
  | k :: ks => do v <- get_prop r k; if truthy v then ret v else probe_truthy r ks d
  end.

(** The plain object behind a location. *)
Definition load_object (l : loc) : M (list (string * hvalue)) :=
  do c <- load l;
  match c with
  | CObj o => ret o
  | CArr _ _ => lift Unmodelled
  end.

(** [target[k] = v].  On a plain object the own property is assigned.  On
    an array a key that is neither an index nor [length] names a property
    the array is given besides its elements. *)
Definition write_prop (target : loc) (k : string) (v : hvalue) : M unit :=
  do c <- load target;
  match c with
  | CObj o => store target (CObj (assign_prop o k v))
  | CArr items named =>
      match array_index k with
      | Some _ => lift Unmodelled
      | None =>
          if String.eqb k "length" then lift Unmodelled
          else store target (CArr items (assign_prop named k v))
      end
  end.

(** [if (clone[k] && !Array.isArray(clone[k])) clone[k] = [clone[k]]] *)
Definition wrap_rows (clone : loc) (k : string) : M unit :=
  do v <- get_prop (HRef clone) k;
  do arr <- as_array v;
  match arr with
  | None => if truthy v
            then do wrapped <- new_array [v]; write_prop clone k wrapped
            else ret tt
  | Some _ => ret tt
  end.

(** [const clone = { ...p }] and the two wrappings. *)
Definition first_clone (p : hvalue) : M loc :=
  do entries <- own_entries p;
  do clone <- alloc (CObj entries);
  do _ <- wrap_rows clone "Procedure / Billing (All Tables)";
  do _ <- wrap_rows clone "Diagnosis (All Tables)";
  ret clone.

Definition read_computed (existing : loc) (k : string) : M hvalue :=
  do o <- load_object existing;
  match lookup_prop o k with
  | Some v => ret v
  | None => if inherited_name k then lift Unmodelled else ret HUndef
  end.

(** The body of [for (const k of Object.keys(p))]: [concat] and the array
    literals allocate, the assignment writes into [existing]. *)
Definition merge_field (p : hvalue) (existing : loc) (k : string) : M unit :=
  do val <- get_prop p k;
  do e <- read_computed existing k;
  if is_placeholder e && truthy val then write_prop existing k val
  else
    do ea <- as_array e;
    do va <- as_array val;
    match ea, va with
    | Some a, Some b =>
        do joined <- new_array (a ++ b); write_prop existing k joined
    | Some a, None =>
        if truthy val
        then do _ <- new_array [val];
             do joined <- new_array (a ++ [val]);
             write_prop existing k joined
        else ret tt
    | None, Some b =>
        let single := if truthy e then [e] else [] in
        do _ <- new_array single;
        do joined <- new_array (single ++ b);
        write_prop existing k joined
    | None, None => ret tt
    end.

(** The [Map]: identity keys, in first-seen order, to the stored clones. *)
Abbreviation patient_map := (list (string * loc)).

Definition map_get (m : patient_map) (key : string) : option loc := lookup_prop m key.

Definition reconcile_step (m : patient_map) (p : hvalue) : M patient_map :=
  do pv <- snapshot p;
  do key <- lift (identity_key pv);
  match map_get m key with
  | None => do clone <- first_clone p; ret (m ++ [(key, clone)])
  | Some existing =>
      do entries <- own_entries p;
      do _ <- for_each (merge_field p existing) (map fst entries);
      ret m
  end.

Definition fold_m {A S} (f : S -> A -> M S) : list A -> S -> M S :=
  fix go (l : list A) (s : S) : M S :=
    match l with
    | [] => ret s
    | x :: t => do s' <- f s x; go t s'
    end.

(** [dedupeAndMergePatients]; the result is a fresh array of the clones. *)
Definition dedupeAndMergePatients (patients : hvalue) : M hvalue :=
  do arr <- as_array patients;
  match arr with
  | None => new_array []
  | Some ps =>
      do m <- fold_m reconcile_step ps [];
      new_array (map (fun entry => HRef (snd entry)) m)
  end.

Definition array_or_empty (x : hvalue) : M hvalue :=
  do a <- as_array x;
  match a with Some _ => ret x | None => new_array [] end.

Definition legacy_proc_row (r : hvalue) : M hvalue :=
  do a <- as_array r;
  match a with
  | Some _ => ret r
  | None =>
      do c <- probe r ["Code"; "code"] (HStr "");
      do d <- probe r ["Description"; "description"] (HStr "");
      do f <- probe r ["Fee"; "fee"] (HStr "");
      new_array [c; d; f]
  end.

Definition legacy_diag_row (d : hvalue) : M hvalue :=
  do a <- as_array d;
  match a with
  | Some _ => ret d
  | None =>
      do t <- probe d ["Type"; "type"] (HStr "ICD-10");
      do c <- probe d ["Code"; "code"] (HStr "");
      do g <- probe d ["Diagnosis"; "diagnosis"; "Description"; "description"] (HStr "");
      new_array [t; c; g]
  end.

Definition map_rows (f : hvalue -> M hvalue) (x : hvalue) : M hvalue :=
  do a <- as_array x;
  match a with
  | Some l => do rows <- map_m f l; new_array rows
  | None => new_array []
  end.

(** [if (!meta["File Name"]) meta["File Name"] = name]: the write goes to
    the object or the array [meta] names, which is the payload or a part of
    it. *)
Definition stamp_file_name (meta : hvalue) (name : string) : M unit :=
  do f <- get_prop meta "File Name";
  if truthy f then ret tt
  else match meta with
       | HRef l => write_prop l "File Name" (HStr name)
       | _ => lift Throw
       end.

Definition make_item (file_name patients procs diags metadata : hvalue) : M hvalue :=
  new_object [("file_name", file_name); ("patients", patients);
              ("procedure_tables", procs); ("diagnosis_tables", diags);
              ("metadata", metadata)].

(** [buildItemFromResponse(resData, file)] on the store. *)
Definition buildItemFromResponse (resData : hvalue) (name : string) : M hvalue :=
  if negb (truthy resData) then
    do pats <- new_array [];
    do procs <- new_object [];
    do diags <- new_object [];
    do meta <- new_object [];
    make_item (HStr name) pats procs diags meta
  else
    do canonical <- probe_truthy resData ["patients"; "procedure_tables"; "diagnosis_tables"] (ret HUndef);
    if truthy canonical then
      do fname <- probe_truthy resData ["file_name"; "filename"] (ret (HStr name));
      do pats0 <- get_prop resData "patients";
      do pats <- array_or_empty pats0;
      do procs <- probe_truthy resData ["procedure_tables"; "procedureTables"] (new_object []);
      do diags <- probe_truthy resData ["diagnosis_tables"; "diagnosisTables"] (new_object []);
      do meta <- probe_truthy resData ["metadata"] (new_object []);
      make_item fname pats procs diags meta
    else
      do legacy <- probe_truthy resData ["medical_billing_codes"; "diagnosis_codes"] (ret HUndef);
      if truthy legacy then
        do billing <- get_prop resData "medical_billing_codes";
        do prows <- map_rows legacy_proc_row billing;
        do procs <- new_object [("Procedures", prows)];
        do codes <- get_prop resData "diagnosis_codes";
        do drows <- map_rows legacy_diag_row codes;
        do diags <- new_object [("Diagnosis", drows)];
        do fname <- probe_truthy resData ["file_name"; "filename"] (ret (HStr name));
        do pats0 <- get_prop resData "patients";
        do pats <- array_or_empty pats0;
        do meta <- probe_truthy resData ["metadata"] (new_object []);
        make_item fname pats procs diags meta
      else
        do meta <- probe_truthy resData ["metadata"] (ret resData);
        do _ <- stamp_file_name meta name;
        do fname <- get_prop meta "File Name";
        do pats <- new_array [];
        do procs <- new_object [];
        do diags <- new_object [];
        make_item fname pats procs diags meta.

(** The locations a value reaches in the store, to the depth [fuel]. *)
Fixpoint reachable (fuel : nat) (h : heap) (v : hvalue) : list loc :=
  match v, fuel with
  | HRef l, S fuel' =>
      l :: match h !! l with
           | Some (CArr items named) =>
               flat_map (reachable fuel' h) items
               ++ flat_map (fun kv => reachable fuel' h (snd kv)) named
           | Some (CObj props) => flat_map (fun kv => reachable fuel' h (snd kv)) props
           | None => []
           end
  | _, _ => []
  end.

(** No cell of the store [h] differs in [h']. *)
Definition unchanged (h h' : heap) : Prop :=
  forall l, (l < length h)%nat -> h' !! l = h !! l.

(** The result [v] reaches, in [h'], no cell that was there in [h]. *)
Definition disjoint_from (h h' : heap) (v : hvalue) : Prop :=
  forall l, In l (reachable (length h') h' v) -> (length h <= l)%nat.

(** The cells below [n] are the same in [h] and [h']. *)
Definition same_below (n : nat) (h h' : heap) : Prop :=
  forall l, (l < n)%nat -> h' !! l = h !! l.

(** A cell, and the same cell after the assignment of the file name to
    its field ["File Name"]. *)
Definition stamped (name : string) (c c' : cell) : Prop :=
  match c with
  | CObj o => c' = CObj (assign_prop o "File Name" (HStr name))
  | CArr items named => c' = CArr items (assign_prop named "File Name" (HStr name))
  end.

(** Each cell below [n] is the same, or has received the field
    ["File Name"]. *)
Definition stamped_below (name : string) (n : nat) (h h' : heap) : Prop :=
  forall l, (l < n)%nat ->
    h' !! l = h !! l
    \/ exists c c', h !! l = Some c /\ h' !! l = Some c' /\ stamped name c c'.

(** Run from a store of at least [n] cells, [m] leaves a store of at least
    [n] cells related to the first by [R], and a result satisfying [Q]. *)
Definition hoare (n : nat) (R : heap -> heap -> Prop) {A} (m : M A) (Q : A -> Prop) : Prop :=
  forall h, (n <= length h)%nat ->
    (n <= length (fst (m h)))%nat
    /\ R h (fst (m h))
    /\ forall a, snd (m h) = Ok a -> Q a.

Abbreviation frames n m Q := (hoare n (same_below n) m Q).

(** A key that does not begin with a digit is none of the indices. *)
Definition named_key (k : string) : Prop :=
  match explode k with
  | c :: _ => is_digit c = false
  | [] => True
  end.

(** Every clone the map names was allocated after the cells below [n]. *)
Definition fresh_map (n : nat) (m : patient_map) : Prop :=
  Forall (fun entry => (n <= snd entry)%nat) m.

End Heap.

(** ** Keeping a value

    What the merge invariant speaks about: the field [k] of the record [m]
    keeps the value [v] when it is [v], or a sequence with [v] among its
    elements, or a sequence in which the sequence [v] sits as a segment. *)

Definition keeps (current : option value) (v : value) : Prop :=
  match current with
  | Some x =>
      x = v \/
      exists l, x = VArr l /\
        (In v l \/ exists l' a b, v = VArr l' /\ l = a ++ l' ++ b)
  | None => False
  end.

Definition holds (m : object) (k : string) (v : value) : Prop :=
  keeps (lookup_prop m k) v.

(** The field names of [p] are pairwise distinct, and none of them is a
    name plain objects inherit. *)
Fixpoint distinct (l : list string) : bool :=
  match l with
  | [] => true
  | x :: t => negb (existsb (String.eqb x) t) && distinct t
  end.

Definition plain_record (p : value) : bool :=
  distinct (own_keys p) && forallb (fun k => negb (inherited_name k)) (own_keys p).

(** ** Shapes of a repaired fee

    Two shapes [_cleanFeeString] can leave behind and would change on a
    second pass: a text that begins with white space, and two or more zeros
    before a dot and two digits. *)

Definition leading_space (s : string) : bool :=
  match explode s with
  | c :: _ => is_space c
  | [] => false
  end.

Definition surplus_zeros_chars (l : chars) : bool :=
  match l with
  | z1 :: z2 :: _ =>
      is_zero z1 && is_zero z2
      && match skip_while is_zero l with
         | [p; d1; d2] => is_dot p && is_digit d1 && is_digit d2
         | _ => false
         end
  | _ => false
  end.

Definition surplus_zeros (s : string) : bool := surplus_zeros_chars (explode s).

(** White space occurs only as single spaces; [prev] tells that the
    character before [l] is white space. *)
Fixpoint spaced (prev : bool) (l : chars) : bool :=
  match l with
  | [] => true
  | c :: t =>
      if is_space c then negb prev && char_eqb c space && spaced true t
      else spaced false t
  end.

(** The last character of [l] is white space; [prev] stands for the
    character before [l]. *)
Fixpoint ends_in_space (prev : bool) (l : chars) : bool :=
  match l with
  | [] => prev
  | c :: t => ends_in_space (is_space c) t
  end.

(** Only digits and dots. *)
Definition digits_dots (l : chars) : bool :=
  forallb (fun c => is_digit c || is_dot c) l.

(** A payload mapping none of whose table or patient fields is truthy, and
    whose metadata, if any, is a mapping. *)
Definition unrecognised (o : object) : bool :=
  forallb (fun k => negb (truthy (default VUndef (lookup_prop o k))))
          ["patients"; "procedure_tables"; "diagnosis_tables";
           "medical_billing_codes"; "diagnosis_codes"]
  && match lookup_prop o "metadata" with
     | Some (VObj _) | None => true
     | Some v => negb (truthy v)
     end.

(** ** Codes inside a field value

    A text of the shape of a diagnosis code, all of it: an upper-case
    letter, two or three digits, and possibly a dot followed by digits and
    upper-case letters. *)
Definition code_shaped (t : string) : bool :=
  match explode t with
  | u :: rest =>
      let ds := span_while is_digit rest in
      is_upper u
      && (Nat.eqb (length ds) 2 || Nat.eqb (length ds) 3)
      && match skip_while is_digit rest with
         | [] => true
         | p :: run =>
             is_dot p && negb (Nat.eqb (length run) 0) && forallb Icd.is_suffix_char run
         end
  | [] => false
  end.

(** The text [t] is an element of the value, at any depth of nested
    sequences. *)
Inductive element_of (t : string) : value -> Prop :=
  | element_here : element_of t (VStr t)
  | element_inside (l : list value) (x : value) :
      In x l -> element_of t x -> element_of t (VArr l).

(** The exponent of a finite key number is that of a double. *)
Definition in_range (x : Keys.number) : Prop :=
  match x with
  | Keys.Fin _ e => -1074 <= e
  | _ => True
  end.

(** ** Enumeration order

    The order in which the own properties of a plain object are listed:
    array-index keys first, ascending, then the other keys.  An object
    built by assignments has its keys in this order, without repetition,
    and none of them is [__proto__]. *)

Definition precedes (k1 k2 : string) : Prop :=
  match array_index k1, array_index k2 with
  | Some i, Some j => (i < j)%N
  | Some _, None => True
  | None, Some _ => False
  | None, None => True
  end.

Definition enumerable {V} (o : list (string * V)) : Prop :=
  StronglySorted precedes (map fst o)
  /\ distinct (map fst o) = true
  /\ ~ In "__proto__" (map fst o).

(** The key is an array index. *)
Definition is_index (k : string) : bool :=
  match array_index k with Some _ => true | None => false end.

(** The rows a rendered set of tables shows. *)
Definition displayed_rows {R} (tables : option (list (string * table_body R))) : Z :=
  match tables with
  | None => 0
  | Some sections =>
      fold_left (fun s section => s + match snd section with
                                      | NoRows => 0
                                      | Rows rows => Z.of_nat (length rows)
                                      end) sections 0
  end.

(** [String(v)] meets a mapping with an own property [toString]. *)
Fixpoint hides_toString (v : value) : bool :=
  match v with
  | VObj o => has_own o "toString"
  | VArr l => existsb hides_toString l
  | _ => false
  end.

(** The rows of one section, as [(a && a.length) || 0] counts them. *)
Definition row_count (v : value) : Z :=
  match v with
  | VArr l => Z.of_nat (length l)
  | _ => 0
  end.

(** The rows a record holds in the field [k], when the field holds a
    sequence. *)
Definition field_rows (k : string) (p : value) : list value :=
  match lookup_prop (own_entries p) k with
  | Some (VArr rows) => rows
  | _ => []
  end.


(** ** The records of one patient *)

(** The records with the identity key [key], in their order of arrival;
    [keyed] pairs each record with its key. *)
Definition records_of (key : string) (keyed : list (string * value)) : list value :=
  map snd (List.filter (fun kp => String.eqb (fst kp) key) keyed).

(** The record made of the records of one patient: the copy of the first,
    into which the others are merged in turn. *)
Definition merge_group (group : list value) : outcome object :=
  match group with
  | [] => Ok []
  | p :: rest => fold_outcome merge_into rest (first_clone p)
  end.

(** The map of the reconciler after the records [keyed]: its keys are the
    keys met, in first-seen order, each with the record made of its
    records. *)
Definition grouped (m : patient_map) (keyed : list (string * value)) : Prop :=
  map fst m = fold_left set_add (map fst keyed) []
  /\ forall key,
       match map_get m key with
       | Some o => records_of key keyed <> [] /\ merge_group (records_of key keyed) = Ok o
       | None => records_of key keyed = []
       end.

(** ** Runs of an upload *)




(** What the choices of files among the events make of the state. *)
Definition choices (es : list event) (st : upload_state) : upload_state :=
  fold_left (fun s e => match e with
                        | FilesChosen selected => handleFileChange selected s
                        | _ => s
                        end) es st.




(** ** Auxiliary definitions of the proofs *)

(** The field [k] after [merge_field], from the field before and the
    incoming value. *)
Definition merged_lookup (current : option value) (val : value) : option value :=
  let e := default VUndef current in
  if is_placeholder e && truthy val then Some val
  else match e, val with
       | VArr a, VArr b => Some (VArr (a ++ b))
       | VArr a, _ => if truthy val then Some (VArr (a ++ [val])) else current
       | _, VArr b => Some (VArr ((if truthy e then [e] else []) ++ b))
       | _, _ => current
       end.

(** The last steps of [clean_chars], one by one. *)
Definition point_step (e : chars) : chars :=
  if all_digits e && Nat.ltb 2 (length e) then Fee.insert_point e else e.

Definition pad_step (f : chars) : chars :=
  if Fee.is_decimal f && negb (Fee.ends_dot_2digits f) then Fee.pad_decimals f else f.

Definition finish (d : chars) : chars := pad_step (point_step (Fee.collapse_zeros d)).

Definition is_comma (c : ascii) : bool := (code c =? 44)%N.

(** The characters a match is made of. *)
Definition is_code_char (c : ascii) : bool := Icd.is_suffix_char c || is_dot c.

(** What an attempt consumes: a prefix of the text, made of code
    characters. *)
Definition consumes (taken taken' l rest : chars) : Prop :=
  exists x, rev taken' = rev taken ++ x /\ l = x ++ rest /\ forallb is_code_char x = true.

(** Nothing of a code follows: the text ends, or a comma comes. *)
Definition closed_after (post : chars) : Prop :=
  match post with [] => True | c :: _ => is_comma c = true end.

Definition closed_before (prev : option ascii) : Prop :=
  match prev with None => True | Some c => is_comma c = true end.

(** The text before a code ends with a comma, or is empty. *)
Definition closed_pre (pre : chars) : Prop :=
  pre = [] \/ exists pre' c, pre = pre' ++ [c] /\ is_comma c = true.

(** A numeral without a leading zero. *)
Definition plain_numeral (l : chars) : Prop :=
  forallb is_digit l = true /\ (length l = 1%nat \/ is_zero (hd zero l) = false).

(** * Properties *)

(** ** Worked examples *)

Example clean_text_examples :
  map Fee.clean_text
      ["2 00.00"; "000.00"; "12345"; "10.5"; "7"; "  | [ 12 "; "N/A"; "1.234"; "| 45.00"; " 45.00";
       "0000"; "00.00"; "00012"; "000.12"]
  = ["200.00"; "0.00"; "123.45"; "10.50"; "7.00"; " [ 12"; "N/A"; "1.234"; " 45.00"; "45.00";
     "00.00"; "0.00"; "000.12"; "0.12"].
Proof. vm_compute. reflexivity. Qed.

Example to_text_nested :
  to_text (VArr [VArr [VStr "J20"; VNull]; VNum 7; VObj [("a", VNum 1)]])
  = Ok "J20,,7,[object Object]".
Proof. vm_compute. reflexivity. Qed.

Example json_text_sample :
  json_text (VObj [("a", VArr [VNum 1; VNull]); ("b", VStr "x")])
  = Some (implode (explode "{" ++ [dquote] ++ explode "a" ++ [dquote] ++ explode ":[1,null],"
                   ++ [dquote] ++ explode "b" ++ [dquote] ++ explode ":" ++ [dquote]
                   ++ explode "x" ++ [dquote] ++ explode "}")).
Proof. vm_compute. reflexivity. Qed.

Example normalizeProcRow_mapping :
  normalizeProcRow (VObj [("code", VStr "J20"); ("Amount", VStr "5000")])
  = Ok ("J20", "", "50.00").
Proof. vm_compute. reflexivity. Qed.

Example to_number_samples :
  map Keys.to_number ["0"; " 12 "; "-3.50"; "1e3"; "0x1F"; ""; "abc"; "1.5.2"; "-Infinity"; "."; "5.";
                      "0.1"; "9007199254740993"; "1e400"]
  = [Keys.Fin 0 0; Keys.Fin 6755399441055744 (-49); Keys.Fin (-7881299347898368) (-51);
     Keys.Fin 8796093022208000 (-43); Keys.Fin 8725724278030336 (-48);
     Keys.Fin 0 0; Keys.NaN; Keys.NaN; Keys.Inf true; Keys.NaN; Keys.Fin 5629499534213120 (-50);
     Keys.Fin 7205759403792794 (-56); Keys.Fin 4503599627370496 1; Keys.Inf false].
Proof. vm_compute. reflexivity. Qed.

Example key_order_samples :
  map (fun ab => Keys.key_order (fst ab) (snd ab))
      [("9", "10"); ("10", "9"); ("2.5", "-1"); ("1e3", "1000");
       ("9007199254740993", "9007199254740992"); ("Infinity", "1e400")]
  = [-1; 1; 1; 0; 0; 0].
Proof. vm_compute. reflexivity. Qed.

Example icd_matches_samples :
  map Icd.matches ["J20"; "dx: E11.9, I10;A1234 B12.x45 C123.4B."; "AJ20 J20A _K50 K50-"; "[object Object]"]
  = [["J20"]; ["E11.9"; "I10"; "B12"; "C123.4B"]; ["K50"]; []].
Proof. vm_compute. reflexivity. Qed.

Example reconcile_spec_example :
  dedupeAndMergePatients
    (VArr [VObj [("Patient Name", VStr "A"); ("Diagnosis", VArr [VStr "x"])];
           VObj [("Patient Name", VStr "A"); ("Diagnosis", VArr [VStr "y"])]])
  = Ok [VObj [("Patient Name", VStr "A"); ("Diagnosis", VArr [VStr "x"; VStr "y"])]].
Proof. vm_compute. reflexivity. Qed.

Example assemble_canonical :
  assemble
    (VObj [("patients", VArr [VObj [("Patient Name", VStr " A ")]; VObj [("Patient", VStr "A"); ("Age", VNum 7)]]);
           ("procedure_tables", VObj [("S", VArr [VStr "a"; VStr "b"]); ("T", VNull)])])
    "scan.pdf"
  = Ok {| title := VStr "scan.pdf";
          patients := [VObj [("Patient Name", VStr " A "); ("Patient", VStr "A"); ("Age", VNum 7)]];
          procedureTables := [("S", VArr [VStr "a"; VStr "b"]); ("T", VArr [])];
          diagnosisTables := [];
          totalProcRows := 2;
          totalDiagRows := 0 |}.
Proof. vm_compute. reflexivity. Qed.

Example store_agrees_on_reconciliation :
  map (Heap.on_stored Heap.dedupeAndMergePatients)
      [VArr [VObj [("Patient Name", VStr "A"); ("Diagnosis", VArr [VStr "x"]); ("Phone", VStr "NIL")];
             VObj [("Patient Name", VStr " A"); ("Diagnosis", VStr "y"); ("Phone", VStr "111");
                   ("Procedure / Billing (All Tables)", VArr [VArr [VStr "99213"]])];
             VObj [("Subscriber ID", VNum 7); ("Diagnosis (All Tables)", VStr "J20")];
             VObj [("Patient", VStr "A"); ("Procedure / Billing (All Tables)", VStr "99214");
                   ("Phone", VArr [VStr "222"])]];
       VArr [VNull];
       VArr [VObj [("Patient Name", VStr "A")]; VObj [("Patient Name", VStr "A"); ("toString", VNum 1)]];
       VStr "none"]
  = map (fun ps => rows ← dedupeAndMergePatients ps; Ok (VArr rows))
      [VArr [VObj [("Patient Name", VStr "A"); ("Diagnosis", VArr [VStr "x"]); ("Phone", VStr "NIL")];
             VObj [("Patient Name", VStr " A"); ("Diagnosis", VStr "y"); ("Phone", VStr "111");
                   ("Procedure / Billing (All Tables)", VArr [VArr [VStr "99213"]])];
             VObj [("Subscriber ID", VNum 7); ("Diagnosis (All Tables)", VStr "J20")];
             VObj [("Patient", VStr "A"); ("Procedure / Billing (All Tables)", VStr "99214");
                   ("Phone", VArr [VStr "222"])]];
       VArr [VNull];
       VArr [VObj [("Patient Name", VStr "A")]; VObj [("Patient Name", VStr "A"); ("toString", VNum 1)]];
       VStr "none"].
Proof. vm_compute. reflexivity. Qed.

Example store_agrees_on_assembly :
  map (fun payload => Heap.on_stored (fun v => Heap.buildItemFromResponse v "scan.pdf") payload)
      [VObj []; VNull;
       VObj [("patients", VArr [VObj [("Patient Name", VStr "A")]]); ("filename", VStr "f.pdf")];
       VObj [("medical_billing_codes", VArr [VArr [VStr "99213"]; VObj [("code", VStr "J20")]]);
             ("diagnosis_codes", VStr "none")];
       VObj [("medical_billing_codes", VArr [VNull])];
       VObj [("metadata", VObj [("pages", VNum 2)])];
       VObj [("metadata", VStr "page 1")]]
  = map (fun payload => buildItemFromResponse payload "scan.pdf")
      [VObj []; VNull;
       VObj [("patients", VArr [VObj [("Patient Name", VStr "A")]]); ("filename", VStr "f.pdf")];
       VObj [("medical_billing_codes", VArr [VArr [VStr "99213"]; VObj [("code", VStr "J20")]]);
             ("diagnosis_codes", VStr "none")];
       VObj [("medical_billing_codes", VArr [VNull])];
       VObj [("metadata", VObj [("pages", VNum 2)])];
       VObj [("metadata", VStr "page 1")]].
Proof. vm_compute. reflexivity. Qed.

(** ** Own properties *)

Section PropertyLemmas.
Context {V : Type}.
Implicit Types (o : list (string * V)) (k : string) (v : V).

Lemma eqb_string_spec k k' : reflect (k = k') (String.eqb k k').
Proof. apply String.eqb_spec. Qed.

Lemma keys_replace_prop o k v : map fst (replace_prop o k v) = map fst o.
Proof.
  induction o as [|[k0 v0] t IH]; simpl; [reflexivity|].
  destruct (String.eqb k0 k); simpl; [reflexivity|]. rewrite IH. reflexivity.
Qed.

Lemma lookup_replace_prop o k v k' :
  lookup_prop (replace_prop o k v) k'
  = if String.eqb k k' then (if has_own o k then Some v else None) else lookup_prop o k'.
Proof.
  unfold has_own. induction o as [|[k0 v0] t IH]; simpl.
  - destruct (String.eqb k k'); reflexivity.
  - destruct (eqb_string_spec k0 k) as [->|Hne]; simpl.
    + destruct (eqb_string_spec k k') as [->|Hne']; [reflexivity|].
      reflexivity.
    + destruct (eqb_string_spec k0 k') as [->|Hne'].
      * destruct (eqb_string_spec k k') as [->|_]; [congruence|reflexivity].
      * exact IH.
Qed.

Lemma lookup_insert_index o i k v k' :
  lookup_prop o k = None ->
  lookup_prop (insert_index o i k v) k'
  = if String.eqb k k' then Some v else lookup_prop o k'.
Proof.
  induction o as [|[k0 v0] t IH]; simpl; intros Hnone.
  - reflexivity.
  - destruct (eqb_string_spec k0 k) as [->|Hne]; [discriminate|].
    destruct (array_index k0) as [j|]; [destruct (j <? i)%N|]; simpl;
      try reflexivity.
    destruct (eqb_string_spec k0 k') as [->|Hne'].
    + destruct (eqb_string_spec k k') as [->|_]; [congruence|reflexivity].
    + auto.
Qed.

Lemma lookup_prop_app o o' k :
  lookup_prop (o ++ o') k
  = match lookup_prop o k with Some v => Some v | None => lookup_prop o' k end.
Proof.
  induction o as [|[k0 v0] t IH]; simpl; [reflexivity|].
  destruct (String.eqb k0 k); auto.
Qed.

Lemma lookup_define_prop o k v k' :
  lookup_prop (define_prop o k v) k'
  = if String.eqb k k' then Some v else lookup_prop o k'.
Proof.
  unfold define_prop, has_own.
  destruct (lookup_prop o k) as [x|] eqn:Hk.
  - rewrite lookup_replace_prop. unfold has_own. rewrite Hk. reflexivity.
  - destruct (array_index k) as [i|].
    + apply lookup_insert_index. exact Hk.
    + rewrite lookup_prop_app. simpl.
      destruct (eqb_string_spec k k') as [->|Hne].
      * rewrite Hk. reflexivity.
      * destruct (lookup_prop o k'); reflexivity.
Qed.

Lemma lookup_prop_In o k v : lookup_prop o k = Some v -> In (k, v) o.
Proof.
  induction o as [|[k0 v0] t IH]; simpl; [discriminate|].
  destruct (eqb_string_spec k0 k) as [->|Hne]; intros H.
  - injection H as ->. left. reflexivity.
  - right. auto.
Qed.

(** Every value of [define_prop o k v] is [v] or a value of [o]. *)
Lemma Forall_replace_prop (P : V -> Prop) o k v :
  Forall (fun e => P (snd e)) o -> P v ->
  Forall (fun e => P (snd e)) (replace_prop o k v).
Proof.
  intros Ho Hv. induction Ho as [|[k0 v0] t H0 Ht IH]; simpl; [constructor|].
  destruct (String.eqb k0 k); constructor; auto.
Qed.

Lemma Forall_insert_index (P : V -> Prop) o i k v :
  Forall (fun e => P (snd e)) o -> P v ->
  Forall (fun e => P (snd e)) (insert_index o i k v).
Proof.
  intros Ho Hv. induction Ho as [|[k0 v0] t H0 Ht IH]; simpl.
  - constructor; [exact Hv|constructor].
  - destruct (array_index k0) as [j|]; [destruct (j <? i)%N|];
      repeat constructor; auto.
Qed.

Lemma Forall_assign_prop (P : V -> Prop) o k v :
  Forall (fun e => P (snd e)) o -> P v ->
  Forall (fun e => P (snd e)) (assign_prop o k v).
Proof.
  intros Ho Hv. unfold assign_prop, define_prop.
  destruct (negb (has_own o k) && String.eqb k "__proto__"); [exact Ho|].
  destruct (has_own o k).
  - apply Forall_replace_prop; assumption.
  - destruct (array_index k).
    + apply Forall_insert_index; assumption.
    + apply Forall_app. split; [exact Ho|]. constructor; [exact Hv|constructor].
Qed.

End PropertyLemmas.

(** ** FeeStringRepair *)

(** C9: the three repairs the specification lists as examples come out as
    stated: ["2 00.00"] gives ["200.00"], ["000.00"] gives ["0.00"] and
    ["12345"] gives ["123.45"]. *)
Theorem cleanFeeString_listed_examples :
  _cleanFeeString (VStr "2 00.00") = Ok "200.00" /\
  _cleanFeeString (VStr "000.00") = Ok "0.00" /\
  _cleanFeeString (VStr "12345") = Ok "123.45".
Proof. repeat split; vm_compute; reflexivity. Qed.

(** ** TableShapeNormalizer *)

Lemma normalize_section_arrays out entry :
  Forall (fun e => is_array (snd e) = true) out ->
  Forall (fun e => is_array (snd e) = true) (normalize_section out entry).
Proof.
  intros Hout. destruct entry as [sec rows]. unfold normalize_section.
  destruct rows; apply (Forall_assign_prop (fun v => is_array v = true)); auto.
Qed.

Lemma fold_normalize_section_arrays entries out :
  Forall (fun e => is_array (snd e) = true) out ->
  Forall (fun e => is_array (snd e) = true) (fold_left normalize_section entries out).
Proof.
  revert out. induction entries as [|entry t IH]; simpl; intros out Hout.
  - exact Hout.
  - apply IH. apply normalize_section_arrays. exact Hout.
Qed.

(** C10: whatever the input (missing, sequence, mapping or scalar), every
    section of the mapping [normalizeTables] returns holds a sequence. *)
Theorem normalizeTables_sections_are_sequences (tables : value) :
  Forall (fun section => is_array (snd section) = true) (normalizeTables tables).
Proof.
  unfold normalizeTables.
  destruct (truthy tables); simpl; [|constructor].
  destruct (is_array tables) eqn:Harr.
  - apply (Forall_assign_prop (fun v => is_array v = true)); [constructor|exact Harr].
  - apply fold_normalize_section_arrays. constructor.
Qed.

Lemma nearest_double_in_range n d : in_range (Keys.nearest_double n d).
Proof.
  unfold Keys.nearest_double.
  destruct (2 ^ 1024 <=? _); simpl; [exact I|]. apply Z.le_max_r.
Qed.

Lemma negate_in_range x : in_range x -> in_range (Keys.negate x).
Proof. destruct x; simpl; auto. Qed.

Lemma of_decimal_in_range m e : in_range (Keys.of_decimal m e).
Proof.
  unfold Keys.of_decimal. destruct (m =? 0); [simpl; lia|].
  destruct (m <? 0); [apply negate_in_range|];
    destruct (0 <=? e); apply nearest_double_in_range.
Qed.

Lemma unsigned_literal_in_range l : in_range (Keys.unsigned_literal l).
Proof.
  unfold Keys.unsigned_literal. destruct (bool_decide _); [exact I|].
  unfold Keys.unsigned_decimal.
  destruct (skip_while is_digit l) as [|p after]; [|destruct (is_dot p)];
    (destruct (_ ++ _); [exact I|]);
    (destruct (Keys.Z_of_digits _ _ _); [|exact I]);
    (destruct (Keys.exponent _); [|exact I]);
    apply of_decimal_in_range.
Qed.

Lemma radix_literal_in_range l n : Keys.radix_literal l = Some n -> in_range n.
Proof.
  unfold Keys.radix_literal.
  destruct l as [|z [|x ds]]; try discriminate.
  destruct (is_zero z); [|discriminate].
  repeat match goal with
         | |- context [if ?c then _ else _] => destruct c
         end;
    try discriminate;
    intros H; injection H as <-;
    (destruct (Keys.Z_of_digits _ _ _); [apply of_decimal_in_range|exact I]).
Qed.

Lemma to_number_in_range k : in_range (Keys.to_number k).
Proof.
  unfold Keys.to_number.
  destruct (trim_chars (explode k)) as [|s rest]; [simpl; lia|].
  destruct (Keys.radix_literal (s :: rest)) as [n|] eqn:Hr.
  - eapply radix_literal_in_range, Hr.
  - destruct (code s =? 43)%N; [apply unsigned_literal_in_range|].
    destruct (code s =? 45)%N; [apply negate_in_range|]; apply unsigned_literal_in_range.
Qed.

Lemma difference_sign_units x y :
  in_range x -> in_range y ->
  Keys.is_finite x = true -> Keys.is_finite y = true ->
  Keys.difference_sign x y = Z.sgn (Keys.units x - Keys.units y).
Proof.
  destruct x as [| |m1 e1], y as [| |m2 e2]; try discriminate.
  simpl. intros H1 H2 _ _.
  set (e := Z.min e1 e2).
  assert (He : -1074 <= e /\ e <= e1 /\ e <= e2) by (unfold e; lia).
  destruct He as [HE [He1 He2]].
  replace (e1 + 1074) with ((e1 - e) + (e + 1074)) by lia.
  replace (e2 + 1074) with ((e2 - e) + (e + 1074)) by lia.
  rewrite (Z.pow_add_r 2 (e1 - e) (e + 1074)), (Z.pow_add_r 2 (e2 - e) (e + 1074)) by lia.
  replace (m1 * (2 ^ (e1 - e) * 2 ^ (e + 1074)) - m2 * (2 ^ (e2 - e) * 2 ^ (e + 1074)))
    with ((m1 * 2 ^ (e1 - e) - m2 * 2 ^ (e2 - e)) * 2 ^ (e + 1074)) by ring.
  rewrite Z.sgn_mul.
  assert (Hpos : 0 < 2 ^ (e + 1074)) by (apply Z.pow_pos_nonneg; lia).
  rewrite (Z.sgn_pos _ Hpos). ring.
Qed.

(** Where both keys read as finite numbers the comparator is the sign of
    the difference of their values. *)
Lemma key_order_units a b :
  Keys.is_finite (Keys.to_number a) = true ->
  Keys.is_finite (Keys.to_number b) = true ->
  Keys.key_order a b
  = Z.sgn (Keys.units (Keys.to_number a) - Keys.units (Keys.to_number b)).
Proof.
  intros Ha Hb. unfold Keys.key_order.
  pose proof (to_number_in_range a) as Ra. pose proof (to_number_in_range b) as Rb.
  rewrite <- (difference_sign_units _ _ Ra Rb Ha Hb).
  destruct (Keys.to_number a); try discriminate Ha.
  destruct (Keys.to_number b); try discriminate Hb.
  reflexivity.
Qed.

Lemma round_half_even_whole n : Keys.round_half_even n 1 = n.
Proof.
  unfold Keys.round_half_even. rewrite Z.div_1_r, Z.mod_1_r. reflexivity.
Qed.

Lemma binade_whole n : 0 < n -> Keys.binade n 1 = Z.log2 n.
Proof.
  intros Hn. unfold Keys.binade. change (Z.log2 1) with 0. rewrite Z.sub_0_r.
  pose proof (Z.log2_nonneg n) as Hk. pose proof (Z.log2_spec n Hn) as [Hlo _].
  destruct (Z.leb_spec 0 (Z.log2 n)) as [_|]; [|lia].
  rewrite Z.mul_1_l. destruct (Z.leb_spec (2 ^ Z.log2 n) n); [reflexivity|lia].
Qed.

(** An integer below [2^53] is a double. *)
Lemma nearest_double_whole n :
  0 < n < 2 ^ 53 ->
  Keys.is_finite (Keys.nearest_double n 1) = true
  /\ Keys.units (Keys.nearest_double n 1) = n * 2 ^ 1074.
Proof.
  intros [Hpos Hlt]. unfold Keys.nearest_double. rewrite (binade_whole n Hpos).
  pose proof (Z.log2_nonneg n) as Hk.
  assert (Hk53 : Z.log2 n < 53) by (apply Z.log2_lt_pow2; assumption).
  assert (Hbig : 2 ^ 53 <= 2 ^ 1024) by (apply Z.pow_le_mono_r; lia).
  rewrite Z.max_l by lia. rewrite Z.mul_1_l.
  destruct (Z.leb_spec 0 (Z.log2 n - 52)) as [He|He].
  - assert (Hz : Z.log2 n - 52 = 0) by lia. rewrite Hz.
    change (2 ^ 0) with 1. rewrite round_half_even_whole, Z.mul_1_r.
    destruct (Z.leb_spec (2 ^ 1024) n) as [|_]; [lia|].
    simpl Keys.is_finite. split; [reflexivity|]. unfold Keys.units.
    rewrite Z.add_0_l. reflexivity.
  - rewrite round_half_even_whole.
    rewrite (Z.pow_neg_r 2 (Z.log2 n - 52)) by lia. rewrite Z.mul_0_r.
    assert (H0 : 0 < 2 ^ 1024) by (apply Z.pow_pos_nonneg; lia).
    destruct (Z.leb_spec (2 ^ 1024) 0) as [|_]; [lia|].
    split; [reflexivity|]. unfold Keys.units.
    rewrite <- Z.mul_assoc, <- Z.pow_add_r by lia. f_equal. f_equal. lia.
Qed.

Lemma of_decimal_whole n :
  0 <= n < 2 ^ 53 ->
  Keys.is_finite (Keys.of_decimal n 0) = true
  /\ Keys.units (Keys.of_decimal n 0) = n * 2 ^ 1074.
Proof.
  intros [Hlo Hhi]. unfold Keys.of_decimal.
  destruct (Z.eqb_spec n 0) as [->|Hne]; [split; reflexivity|].
  destruct (Z.ltb_spec n 0) as [|_]; [lia|].
  change (0 <=? 0) with true. cbv iota. change (10 ^ 0) with 1.
  rewrite Z.mul_1_r, Z.abs_eq by lia.
  apply nearest_double_whole. lia.
Qed.

Lemma insert_sorted_perm cmp x l : Engine.insert_sorted cmp x l ≡ₚ x :: l.
Proof.
  induction l as [|y t IH]; simpl; [reflexivity|].
  destruct (0 <? cmp x y); [|reflexivity].
  rewrite IH. apply Permutation_swap.
Qed.

Lemma stable_sort_perm cmp l : Engine.stable_sort cmp l ≡ₚ l.
Proof.
  induction l as [|x t IH]; simpl; [reflexivity|].
  rewrite insert_sorted_perm, IH. reflexivity.
Qed.

Lemma sort_keys_perm cmp l : Keys.sort_keys cmp l ≡ₚ l.
Proof. apply Engine.sort_permutes. Qed.

Lemma sort_keys_ranked cmp l :
  Engine.ranked cmp l -> Keys.sort_keys cmp l = Engine.stable_sort cmp l.
Proof. apply Engine.sort_ranked. Qed.

Lemma sort_keys_single cmp k : Keys.sort_keys cmp [k] = [k].
Proof. apply Permutation_singleton_r. apply sort_keys_perm. Qed.

Section SortedByValue.
Variable cmp : string -> string -> Z.
Variable f : string -> Z.

Lemma insert_sorted_by_value x l :
  Forall (fun y => cmp x y = Z.sgn (f x - f y)) l ->
  StronglySorted (fun a b => f a <= f b) l ->
  StronglySorted (fun a b => f a <= f b) (Engine.insert_sorted cmp x l).
Proof.
  induction l as [|y t IH]; simpl; intros Hcmp Hs.
  - constructor; constructor.
  - inversion Hcmp as [|? ? Hxy Hcmp']; subst.
    inversion Hs as [|? ? Hs' Hy]; subst.
    destruct (Z.ltb_spec 0 (cmp x y)) as [Hlt|Hge].
    + constructor; [auto|].
      rewrite insert_sorted_perm. constructor; [|exact Hy].
      rewrite Hxy in Hlt. destruct (Z.sgn_spec (f x - f y)) as [[? ?]|[[? ?]|[? ?]]]; lia.
    + constructor; [exact Hs|].
      assert (Hle : f x <= f y).
      { rewrite Hxy in Hge.
        destruct (Z.sgn_spec (f x - f y)) as [[? ?]|[[? ?]|[? ?]]]; lia. }
      constructor; [exact Hle|].
      eapply Forall_impl; [exact Hy|]. simpl. intros; lia.
Qed.

Lemma stable_sort_by_value l :
  (forall x y, In x l -> In y l -> cmp x y = Z.sgn (f x - f y)) ->
  StronglySorted (fun a b => f a <= f b) (Engine.stable_sort cmp l).
Proof.
  induction l as [|x t IH]; simpl; intros Hcmp; [constructor|].
  apply insert_sorted_by_value.
  - rewrite stable_sort_perm. apply Forall_forall. intros y Hy.
    apply Hcmp; [left; reflexivity|right; apply list_elem_of_In; exact Hy].
  - apply IH. intros; apply Hcmp; right; assumption.
Qed.

Lemma ranked_by_value l :
  (forall x y, In x l -> In y l -> cmp x y = Z.sgn (f x - f y)) ->
  Engine.ranked cmp l.
Proof.
  intros Hcmp. exists f. intros a b Ha Hb. rewrite (Hcmp a b Ha Hb).
  destruct (Z.sgn_spec (f a - f b)) as [[_ ->]|[[_ ->]|[_ ->]]]; reflexivity.
Qed.

End SortedByValue.

Lemma key_order_finite (l : list string) :
  forallb (fun k => Keys.is_finite (Keys.to_number k)) l = true ->
  forall x y, In x l -> In y l ->
    Keys.key_order x y
    = Z.sgn (Keys.units (Keys.to_number x) - Keys.units (Keys.to_number y)).
Proof.
  intros Hnum x y Hx Hy. rewrite forallb_forall in Hnum.
  apply key_order_units; apply Hnum; assumption.
Qed.

(** Keys that all read as finite numbers are sorted by the stable sort. *)
Lemma sort_keys_finite (l : list string) :
  forallb (fun k => Keys.is_finite (Keys.to_number k)) l = true ->
  Keys.sort_keys Keys.key_order l = Engine.stable_sort Keys.key_order l.
Proof.
  intros Hnum. apply sort_keys_ranked.
  apply (ranked_by_value _ (fun k => Keys.units (Keys.to_number k))).
  apply key_order_finite, Hnum.
Qed.

Lemma rows_of_keyed_finite (o : object) :
  forallb (fun k => Keys.is_finite (Keys.to_number k)) (map fst o) = true ->
  rows_of_keyed o
  = map (fun k => default VUndef (lookup_prop o k))
        (Engine.stable_sort Keys.key_order (map fst o)).
Proof. intros H. unfold rows_of_keyed. rewrite (sort_keys_finite _ H). reflexivity. Qed.

Lemma rows_of_keyed_single k v : rows_of_keyed [(k, v)] = [v].
Proof.
  unfold rows_of_keyed. change (map fst [(k, v)]) with [k].
  rewrite sort_keys_single. simpl. rewrite String.eqb_refl. reflexivity.
Qed.

Lemma normalize_section_keyed out sec (o : object) :
  normalize_section out (sec, VObj o) = assign_prop out sec (VArr (rows_of_keyed o)).
Proof. reflexivity. Qed.

Lemma normalizeTables_one_section sec (rows : object) :
  sec <> "__proto__" ->
  normalizeTables (VObj [(sec, VObj rows)]) = [(sec, VArr (rows_of_keyed rows))].
Proof.
  intros Hsec.
  change (normalizeTables (VObj [(sec, VObj rows)]))
    with (normalize_section [] (sec, VObj rows)).
  rewrite normalize_section_keyed.
  generalize (VArr (rows_of_keyed rows)). intros v.
  unfold assign_prop, define_prop. simpl.
  destruct (eqb_string_spec sec "__proto__") as [->|_]; [congruence|].
  simpl. destruct (array_index sec); reflexivity.
Qed.

(** The claim C3 at its input: one section, under the default name. *)
Lemma normalizeTables_index_pair_not_one_section :
  ~ exists rows,
      normalizeTables (VObj [("0", VObj [("Code", VStr "99213")]);
                             ("1", VObj [("Code", VStr "99214")])])
      = [("Procedures", VArr rows)].
Proof.
  intros [rows H].
  change (normalizeTables _)
    with (normalize_section (normalize_section [] ("0", VObj [("Code", VStr "99213")]))
                            ("1", VObj [("Code", VStr "99214")])) in H.
  rewrite !normalize_section_keyed, !rows_of_keyed_single in H.
  vm_compute in H. discriminate H.
Qed.

(** C3, amended: each entry of the mapping handed to [normalizeTables] is a
    section of its own, so the two entries ["0"] and ["1"] give two
    sections, with the rows [["99213"]] and [["99214"]].  The projection of
    an index-keyed mapping is what happens to the value of one section: its
    values are rearranged in the order the sort gives its keys, whatever the
    order of the members in the text.  The comparator decides two keys at a
    time, by value when both read as numbers and by [localeCompare]
    otherwise; when all the keys read as finite numbers the rows come in
    ascending order of these numbers. *)
Theorem normalizeTables_index_keyed_sections :
  normalizeTables (VObj [("0", VObj [("Code", VStr "99213")]);
                         ("1", VObj [("Code", VStr "99214")])])
  = [("0", VArr [VStr "99213"]); ("1", VArr [VStr "99214"])]
  /\ normalizeTables
       (VObj (obj_of_entries
                [("Procedures",
                  VObj (obj_of_entries [("1", VObj [("Code", VStr "99214")]);
                                        ("0", VObj [("Code", VStr "99213")])]))]))
     = [("Procedures", VArr [VObj [("Code", VStr "99213")]; VObj [("Code", VStr "99214")]])]
  /\ (forall (sec : string) (o : object),
        sec <> "__proto__" ->
        exists ks,
          ks = Keys.sort_keys Keys.key_order (map fst o)
          /\ normalizeTables (VObj [(sec, VObj o)])
             = [(sec, VArr (map (fun k => default VUndef (lookup_prop o k)) ks))]
          /\ ks ≡ₚ map fst o
          /\ (forallb (fun k => Keys.is_finite (Keys.to_number k)) (map fst o) = true ->
              StronglySorted
                (fun a b => Keys.units (Keys.to_number a) <= Keys.units (Keys.to_number b)) ks))
  /\ (forall a b : string,
        Keys.key_order a b
        = if negb (Keys.is_nan (Keys.to_number a)) && negb (Keys.is_nan (Keys.to_number b))
          then Keys.difference_sign (Keys.to_number a) (Keys.to_number b)
          else Keys.localeCompare a b).
Proof.
  split; [|split; [|split; [|reflexivity]]].
  - change (normalizeTables _)
      with (normalize_section (normalize_section [] ("0", VObj [("Code", VStr "99213")]))
                              ("1", VObj [("Code", VStr "99214")])).
    rewrite !normalize_section_keyed, !rows_of_keyed_single.
    vm_compute. reflexivity.
  - assert (Hinner : obj_of_entries [("1", VObj [("Code", VStr "99214")]);
                                     ("0", VObj [("Code", VStr "99213")])]
                     = [("0", VObj [("Code", VStr "99213")]); ("1", VObj [("Code", VStr "99214")])])
      by (vm_compute; reflexivity).
    rewrite Hinner.
    assert (Houter : forall v : value, obj_of_entries [("Procedures", v)] = [("Procedures", v)])
      by (intros v; vm_compute; reflexivity).
    rewrite Houter, normalizeTables_one_section by discriminate.
    rewrite rows_of_keyed_finite by (vm_compute; reflexivity).
    vm_compute. reflexivity.
  - intros sec o Hsec.
    exists (Keys.sort_keys Keys.key_order (map fst o)).
    split; [reflexivity|]. split; [|split].
    + apply normalizeTables_one_section, Hsec.
    + apply sort_keys_perm.
    + intros Hnum. rewrite (sort_keys_finite _ Hnum).
      apply (stable_sort_by_value Keys.key_order (fun k => Keys.units (Keys.to_number k))).
      apply key_order_finite, Hnum.
Qed.

Lemma normalizeTables_index_keyed_sections_witness :
  exists ks,
    ks = Keys.sort_keys Keys.key_order ["10"; "2.5"; "-1"]
    /\ normalizeTables (VObj [("rows", VObj [("10", VStr "c"); ("2.5", VStr "b"); ("-1", VStr "a")])])
       = [("rows", VArr (map (fun k => default VUndef
                                         (lookup_prop [("10", VStr "c"); ("2.5", VStr "b");
                                                       ("-1", VStr "a")] k)) ks))]
    /\ ks ≡ₚ ["10"; "2.5"; "-1"]
    /\ (forallb (fun k => Keys.is_finite (Keys.to_number k)) ["10"; "2.5"; "-1"] = true ->
        StronglySorted
          (fun a b => Keys.units (Keys.to_number a) <= Keys.units (Keys.to_number b)) ks).
Proof.
  apply (proj1 (proj2 (proj2 normalizeTables_index_keyed_sections))
           "rows" [("10", VStr "c"); ("2.5", VStr "b"); ("-1", VStr "a")]).
  discriminate.
Defined.

(** ** RowNormalizer *)

(** C8, at a sequence row with padded fields: [normalizeDiagRow] hands the
    elements back as they are, white space included, while the same fields
    in a mapping row are converted to text and trimmed, as
    [normalizeProcRow] does for a sequence row. *)
Theorem normalizeDiagRow_sequence_not_trimmed :
  normalizeDiagRow (VArr [VStr "ICD-10"; VStr " J20 "; VStr " Acute bronchitis "])
  = Ok (VStr "ICD-10", VStr " J20 ", VStr " Acute bronchitis ")
  /\ normalizeDiagRow (VArr [VNull; VNum 20; VNull])
     = Ok (VStr "ICD-10", VNum 20, VStr "")
  /\ normalizeDiagRow (VObj [("Type", VStr "ICD-10"); ("Code", VStr " J20 ");
                             ("Diagnosis", VStr " Acute bronchitis ")])
     = Ok (VStr "ICD-10", VStr "J20", VStr "Acute bronchitis")
  /\ normalizeProcRow (VArr [VStr " 99213 "; VStr " Office visit "; VStr "5000"])
     = Ok ("99213", "Office visit", "50.00").
Proof. repeat split; vm_compute; reflexivity. Qed.

(** ** ResultAssembler *)

(** C4, at payloads that are mappings: a [null] row in a legacy array, a
    [null] entry among the patients, or a metadata field that is a text
    makes the assembly raise, where [normalizeProcRow] and
    [normalizeDiagRow] answer a missing row with the default tuple.  The
    empty payload gives the empty result. *)
Theorem assemble_raises_on_null_row :
  buildItemFromResponse (VObj [("medical_billing_codes", VArr [VNull])]) "scan.pdf" = Throw
  /\ assemble (VObj [("medical_billing_codes", VArr [VNull])]) "scan.pdf" = Throw
  /\ assemble (VObj [("patients", VArr [VNull])]) "scan.pdf" = Throw
  /\ assemble (VObj [("metadata", VStr "page 1")]) "scan.pdf" = Throw
  /\ normalizeProcRow VNull = Ok ("", "", "")
  /\ normalizeDiagRow VNull = Ok (VStr "ICD-10", VStr "", VStr "")
  /\ assemble (VObj []) "scan.pdf"
     = Ok {| title := VStr "scan.pdf"; patients := [];
             procedureTables := []; diagnosisTables := [];
             totalProcRows := 0; totalDiagRows := 0 |}.
Proof. repeat split; vm_compute; reflexivity. Qed.

Lemma probe_truthy_all_falsy (o : object) keys d :
  forallb (fun k => negb (truthy (default VUndef (lookup_prop o k)))) keys = true ->
  probe_truthy (VObj o) keys d = Ok d.
Proof.
  induction keys as [|k ks IH]; simpl; [reflexivity|].
  intros H. apply andb_true_iff in H. destruct H as [Hk Hks].
  apply negb_true_iff in Hk. rewrite Hk. apply IH, Hks.
Qed.

Lemma stamp_file_name_object (o : object) name :
  exists o', stamp_file_name (VObj o) name = Ok (VObj o').
Proof.
  unfold stamp_file_name. simpl.
  destruct (truthy (default VUndef (lookup_prop o "File Name"))); eexists; reflexivity.
Qed.

Lemma ResultBlock_empty_item (fname meta : value) :
  exists view,
    ResultBlock (make_item fname (VArr []) (VObj []) (VObj []) meta) = Ok view
    /\ patients view = [] /\ procedureTables view = [] /\ diagnosisTables view = [].
Proof.
  unfold ResultBlock. simpl.
  destruct (truthy fname); simpl; eexists; (split; [reflexivity|]); repeat split.
Qed.

(** The second half of C4 holds: a payload the assembler does not recognise
    gives a result without patients and without tables. *)
Lemma assemble_unrecognised_is_empty (o : object) (name : string) :
  unrecognised o = true ->
  exists view,
    assemble (VObj o) name = Ok view
    /\ patients view = [] /\ procedureTables view = [] /\ diagnosisTables view = [].
Proof.
  unfold unrecognised. intros H. apply andb_true_iff in H. destruct H as [Hkeys Hmeta].
  assert (Hcanonical : forallb (fun k => negb (truthy (default VUndef (lookup_prop o k))))
                               ["patients"; "procedure_tables"; "diagnosis_tables"] = true).
  { simpl in *. repeat (apply andb_true_iff in Hkeys; destruct Hkeys as [? Hkeys]).
    repeat (apply andb_true_iff; split); auto. }
  assert (Hlegacy : forallb (fun k => negb (truthy (default VUndef (lookup_prop o k))))
                            ["medical_billing_codes"; "diagnosis_codes"] = true).
  { simpl in *. repeat (apply andb_true_iff in Hkeys; destruct Hkeys as [? Hkeys]).
    repeat (apply andb_true_iff; split); auto. }
  assert (Hm : exists m, probe_truthy (VObj o) ["metadata"] (VObj o) = Ok (VObj m)).
  { simpl. destruct (lookup_prop o "metadata") as [[| | | | | |m]|]; simpl in *;
      try discriminate Hmeta;
      try (apply negb_true_iff in Hmeta; simpl in Hmeta; rewrite ?Hmeta);
      eexists; reflexivity. }
  destruct Hm as [m Hm].
  destruct (stamp_file_name_object m name) as [m' Hstamp].
  unfold assemble, buildItemFromResponse.
  change (negb (truthy (VObj o))) with false. cbv iota.
  rewrite (probe_truthy_all_falsy o _ VUndef Hcanonical).
  change (Ok VUndef ≫= ?f) with (f VUndef). cbv beta.
  change (truthy VUndef) with false. cbv iota.
  rewrite (probe_truthy_all_falsy o _ VUndef Hlegacy).
  change (Ok VUndef ≫= ?f) with (f VUndef). cbv beta.
  change (truthy VUndef) with false. cbv iota.
  rewrite Hm. change (Ok (VObj m) ≫= ?f) with (f (VObj m)). cbv beta.
  rewrite Hstamp. change (Ok (VObj m') ≫= ?f) with (f (VObj m')). cbv beta.
  change (get_prop (VObj m') "File Name")
    with (Ok (default VUndef (lookup_prop m' "File Name")) : outcome value).
  apply ResultBlock_empty_item.
Qed.

(** ** CodeHighlighter *)

Lemma In_set_add set x y : In y (set_add set x) <-> In y set \/ y = x.
Proof.
  unfold set_add. destruct (existsb (String.eqb x) set) eqn:Hex.
  - apply existsb_exists in Hex. destruct Hex as [z [Hz Heq]].
    apply String.eqb_eq in Heq. subst z. split; [auto|].
    intros [H| ->]; assumption.
  - rewrite in_app_iff. simpl. intuition (subst; auto).
Qed.

Lemma In_fold_set_add l set y :
  In y (fold_left set_add l set) <-> In y set \/ In y l.
Proof.
  revert set. induction l as [|x t IH]; simpl; intros set.
  - tauto.
  - rewrite IH, In_set_add. split; intros H; intuition (subst; auto).
Qed.

Lemma In_highlight_field set v y :
  In y (highlight_field set v)
  <-> In y set \/ exists s, to_text (v ?| VStr "") = Ok s /\ In y (map trim (Icd.matches s)).
Proof.
  unfold highlight_field. destruct (to_text (v ?| VStr "")) as [s| |].
  - rewrite In_fold_set_add. split; intros [H|H]; auto.
    + right. exists s. auto.
    + destruct H as [s' [Heq H]]. injection Heq as ->. auto.
  - split; [auto|]. intros [H|[s [Heq _]]]; [assumption|discriminate].
  - split; [auto|]. intros [H|[s [Heq _]]]; [assumption|discriminate].
Qed.

Lemma In_fold_highlight_field vs set y :
  In y (fold_left highlight_field vs set)
  <-> In y set \/ exists v s, In v vs /\ to_text (v ?| VStr "") = Ok s
                              /\ In y (map trim (Icd.matches s)).
Proof.
  revert set. induction vs as [|v t IH]; simpl; intros set.
  - split; [auto|]. intros [H|[v [s [[] _]]]]. assumption.
  - rewrite IH, In_highlight_field. split.
    + intros [[H|[s [Hs Hy]]]|[v' [s [Hin [Hs Hy]]]]]; eauto 8.
    + intros [H|[v' [s [[<-|Hin] [Hs Hy]]]]]; eauto 8.
Qed.

(** ** PatientReconciler: the first sight of a key *)

Lemma lookup_assign_prop {V} (o : list (string * V)) k v k' :
  (has_own o k = true \/ k <> "__proto__") ->
  lookup_prop (assign_prop o k v) k'
  = if String.eqb k k' then Some v else lookup_prop o k'.
Proof.
  intros H. unfold assign_prop.
  destruct (negb (has_own o k) && String.eqb k "__proto__") eqn:Hskip.
  - apply andb_true_iff in Hskip. destruct Hskip as [Hown Hproto].
    apply negb_true_iff in Hown. apply String.eqb_eq in Hproto.
    destruct H; congruence.
  - apply lookup_define_prop.
Qed.

Lemma lookup_wrap_rows (o : object) k k' :
  lookup_prop (wrap_rows o k) k'
  = if String.eqb k k'
    then match lookup_prop o k with
         | Some v => Some (if truthy v && negb (is_array v) then VArr [v] else v)
         | None => None
         end
    else lookup_prop o k'.
Proof.
  unfold wrap_rows. destruct (lookup_prop o k) as [v|] eqn:Hk; simpl.
  - destruct (truthy v && negb (is_array v)).
    + apply lookup_assign_prop. left. unfold has_own. rewrite Hk. reflexivity.
    + destruct (eqb_string_spec k k') as [<-|_]; [exact Hk|reflexivity].
  - destruct (eqb_string_spec k k') as [<-|_]; [exact Hk|reflexivity].
Qed.

Lemma map_set_fresh (m : patient_map) key (o : object) :
  map_get m key = None -> map_set m key o = m ++ [(key, o)].
Proof.
  induction m as [|[k0 o0] t IH]; simpl; [reflexivity|].
  destruct (String.eqb k0 key); [discriminate|].
  intros H. rewrite IH by exact H. reflexivity.
Qed.





(** ** PatientReconciler: merging a second record *)

Lemma inherited_name_proto k : inherited_name k = false -> k <> "__proto__".
Proof. intros H ->. vm_compute in H. discriminate H. Qed.

Lemma get_prop_ok p k :
  nullish p = false ->
  get_prop p k = Ok (default VUndef (lookup_prop (own_entries p) k)).
Proof. destruct p; simpl; intros H; try discriminate H; reflexivity. Qed.

Lemma identity_key_not_nullish p key : identity_key p = Ok key -> nullish p = false.
Proof. destruct p; simpl; intros H; try discriminate H; reflexivity. Qed.

Lemma merge_field_lookup p existing k :
  nullish p = false -> inherited_name k = false ->
  exists o',
    merge_field p existing k = Ok o'
    /\ forall k',
         lookup_prop o' k'
         = if String.eqb k k'
           then merged_lookup (lookup_prop existing k)
                              (default VUndef (lookup_prop (own_entries p) k))
           else lookup_prop existing k'.
Proof.
  intros Hp Hk. unfold merge_field. rewrite (get_prop_ok p k Hp). simpl.
  set (val := default VUndef (lookup_prop (own_entries p) k)).
  assert (Hassign : forall v k',
             lookup_prop (assign_prop existing k v) k'
             = if String.eqb k k' then Some v else lookup_prop existing k').
  { intros v k'. apply lookup_assign_prop. right. apply inherited_name_proto, Hk. }
  assert (Hsame : forall k',
             lookup_prop existing k'
             = if String.eqb k k' then lookup_prop existing k else lookup_prop existing k').
  { intros k'. destruct (eqb_string_spec k k') as [->|_]; reflexivity. }
  unfold read_computed, merged_lookup.
  destruct (lookup_prop existing k) as [e|] eqn:He; simpl.
  - destruct (is_placeholder e && truthy val) eqn:Hadopt.
    + eexists. split; [reflexivity|]. intros k'. rewrite Hassign.
      destruct (String.eqb k k'); reflexivity.
    + destruct e, val; simpl in *;
        try (eexists; split; [reflexivity|]; intros k'; rewrite Hassign;
             destruct (String.eqb k k'); reflexivity);
        try (eexists; split; [reflexivity|]; intros k';
             rewrite (Hsame k'); destruct (String.eqb k k'); reflexivity);
        try discriminate Hadopt;
        match goal with
        | |- context [if ?c then Ok _ else Ok _] =>
            destruct c; eexists; (split; [reflexivity|]); intros k';
            [rewrite Hassign|rewrite (Hsame k')];
            destruct (String.eqb k k'); reflexivity
        end.
  - rewrite Hk. simpl. destruct (truthy val) eqn:Htruthy.
    + eexists. split; [reflexivity|]. intros k'. rewrite Hassign.
      destruct (String.eqb k k'); reflexivity.
    + destruct val; simpl in *;
        try (eexists; split; [reflexivity|]; exact Hsame);
        try discriminate Htruthy.
Qed.

Lemma truthy_not_placeholder v :
  truthy v = true -> v <> VStr "NIL" -> is_placeholder v = false.
Proof.
  destruct v; simpl; try reflexivity; try discriminate.
  intros Hne Hnil. destruct (eqb_string_spec s "NIL") as [->|_]; [congruence|].
  destruct (String.eqb s ""); [discriminate Hne|reflexivity].
Qed.

(** Closes [keeps (Some x) v] where [x] is [v], holds [v] as its first
    element, or starts with the sequence [v]. *)
Ltac keeps_here :=
  simpl;
  first
    [ left; reflexivity
    | right; eexists; split; [reflexivity|]; left; left; reflexivity
    | right; eexists; split; [reflexivity|]; right;
      eexists _, [], _; split; reflexivity ].

Lemma keeps_merged current val v :
  keeps current v -> truthy v = true -> v <> VStr "NIL" ->
  keeps (merged_lookup current val) v.
Proof.
  intros Hkeep Ht Hnil. destruct current as [x|]; [|contradiction].
  unfold merged_lookup. simpl in *.
  destruct Hkeep as [->|[l [-> Hl]]].
  - rewrite (truthy_not_placeholder v Ht Hnil). simpl.
    destruct v, val; simpl in *; try discriminate Ht; rewrite ?Ht;
      repeat match goal with
             | |- context [if ?c then _ else _] => destruct c
             end;
      keeps_here.
  - simpl.
    assert (Hgrow : forall b,
               In v (l ++ b) \/ exists l' a c, v = VArr l' /\ l ++ b = a ++ l' ++ c).
    { intros b. destruct Hl as [Hin|[l' [a [c [-> ->]]]]].
      - left. apply in_or_app. left. exact Hin.
      - right. exists l', a, (c ++ b). split; [reflexivity|].
        rewrite <- !app_assoc. reflexivity. }
    destruct val; simpl;
      repeat match goal with
             | |- context [if ?c then _ else _] => destruct c
             end;
      simpl; right;
      first [ exists l; split; [reflexivity|exact Hl]
            | eexists; split; [reflexivity|apply Hgrow] ].
Qed.

Lemma merge_fold_lookup p keys :
  nullish p = false ->
  forall existing,
    forallb (fun k => negb (inherited_name k)) keys = true ->
    exists m,
      fold_outcome (merge_field p) keys existing = Ok m
      /\ (forall k v, keeps (lookup_prop existing k) v -> truthy v = true ->
                      v <> VStr "NIL" -> keeps (lookup_prop m k) v)
      /\ (forall k, existsb (String.eqb k) keys = false ->
                    lookup_prop m k = lookup_prop existing k)
      /\ (distinct keys = true ->
          forall k, existsb (String.eqb k) keys = true ->
                    lookup_prop m k
                    = merged_lookup (lookup_prop existing k)
                                    (default VUndef (lookup_prop (own_entries p) k))).
Proof.
  intros Hp. induction keys as [|k0 t IH]; intros existing Hnames.
  - exists existing. simpl. repeat split; auto. intros _ k H. discriminate H.
  - simpl in Hnames. apply andb_true_iff in Hnames. destruct Hnames as [Hk0 Hnames].
    apply negb_true_iff in Hk0.
    destruct (merge_field_lookup p existing k0 Hp Hk0) as [o' [Hstep Hlook]].
    destruct (IH o' Hnames) as [m [Hfold [Hkeep [Hout Hin]]]].
    exists m. simpl. rewrite Hstep. simpl. split; [exact Hfold|].
    split; [|split].
    + intros k v Hv Ht Hnil. apply Hkeep; [|exact Ht|exact Hnil].
      rewrite Hlook. destruct (eqb_string_spec k0 k) as [->|_]; [|exact Hv].
      apply keeps_merged; assumption.
    + intros k Hk. apply orb_false_iff in Hk. destruct Hk as [Hk Hkt].
      rewrite (Hout k Hkt), Hlook. rewrite String.eqb_sym, Hk. reflexivity.
    + intros Hd k Hk. apply andb_true_iff in Hd. destruct Hd as [Hfresh Hd].
      apply negb_true_iff in Hfresh. simpl in Hk.
      destruct (eqb_string_spec k k0) as [Heq|Hne].
      * subst k. rewrite (Hout k0 Hfresh), Hlook, String.eqb_refl. reflexivity.
      * simpl in Hk. rewrite (Hin Hd k Hk), Hlook.
        destruct (eqb_string_spec k0 k) as [->|_]; [congruence|reflexivity].
Qed.

Lemma fold_outcome_cons {A S} (f : S -> A -> outcome S) x t s :
  fold_outcome f (x :: t) s = (s' ← f s x; fold_outcome f t s').
Proof. reflexivity. Qed.

Lemma lookup_prop_keys {V} (o : list (string * V)) k v :
  lookup_prop o k = Some v -> existsb (String.eqb k) (map fst o) = true.
Proof.
  induction o as [|[k0 v0] t IH]; simpl; [discriminate|].
  rewrite (String.eqb_sym k k0). destruct (String.eqb k0 k); simpl; auto.
Qed.

Lemma keeps_first_clone p k v :
  lookup_prop (spread p) k = Some v -> keeps (lookup_prop (first_clone p) k) v.
Proof.
  intros Hv. unfold first_clone. rewrite !lookup_wrap_rows.
  assert (Hwrapped : forall c : bool, keeps (Some (if c then VArr [v] else v)) v).
  { intros [|]; simpl; [|left; reflexivity].
    right. eexists. split; [reflexivity|]. left. left. reflexivity. }
  destruct (String.eqb "Diagnosis (All Tables)" k) eqn:Hd.
  - apply String.eqb_eq in Hd. subst k. simpl. rewrite Hv. apply Hwrapped.
  - destruct (String.eqb "Procedure / Billing (All Tables)" k) eqn:Hpb.
    + apply String.eqb_eq in Hpb. subst k. rewrite Hv. apply Hwrapped.
    + rewrite Hv. simpl. left. reflexivity.
Qed.

(** The claim C1 at two records of one patient, the second with a copay of
    zero: the merged record has no copay at all, and nothing took its
    place. *)
Lemma merge_drops_zero_copay :
  dedupeAndMergePatients
    (VArr [VObj [("Patient Name", VStr "A")];
           VObj [("Patient Name", VStr "A"); ("Copay", VNum 0)]])
  = Ok [VObj [("Patient Name", VStr "A")]]
  /\ ~ holds [("Patient Name", VStr "A")] "Copay" (VNum 0).
Proof. split; [vm_compute; reflexivity|]. vm_compute. intros H. exact H. Qed.

Lemma lookup_prop_own {V} (o : list (string * V)) k :
  existsb (String.eqb k) (map fst o) = true -> exists v, lookup_prop o k = Some v.
Proof.
  induction o as [|[k0 v0] t IH]; simpl; [discriminate|].
  rewrite (String.eqb_sym k k0). destruct (String.eqb k0 k); simpl; eauto.
Qed.

Lemma merged_lookup_falsy current val :
  truthy val = false -> merged_lookup current val = current.
Proof.
  intros Hval. unfold merged_lookup. rewrite Hval, andb_false_r.
  destruct (default VUndef current), val; try reflexivity; discriminate Hval.
Qed.

(** A value that is neither truthy nor a placeholder, [0] or [false],
    stays where it is unless a sequence arrives. *)
Lemma merged_lookup_kept_falsy v val :
  is_placeholder v = false -> truthy v = false ->
  merged_lookup (Some v) val
  = match val with
    | VArr rows => Some (VArr rows)
    | _ => Some v
    end.
Proof.
  intros Hph Ht. unfold merged_lookup. simpl default. rewrite Hph. simpl andb.
  destruct v, val; try reflexivity; try discriminate Hph; try discriminate Ht;
    rewrite Ht; reflexivity.
Qed.

Lemma lookup_first_clone_falsy p k v :
  lookup_prop (spread p) k = Some v -> truthy v = false ->
  lookup_prop (first_clone p) k = Some v.
Proof.
  intros Hv Ht. unfold first_clone. rewrite !lookup_wrap_rows.
  change (String.eqb "Procedure / Billing (All Tables)" "Diagnosis (All Tables)") with false.
  cbv iota.
  destruct (eqb_string_spec "Diagnosis (All Tables)" k) as [<-|_].
  - rewrite Hv, Ht. reflexivity.
  - destruct (eqb_string_spec "Procedure / Billing (All Tables)" k) as [<-|_].
    + rewrite Hv, Ht. reflexivity.
    + exact Hv.
Qed.

(** C1, amended: for two raw records with the same identity key, the
    second with distinct field names none of which plain objects inherit,
    the reconciler returns one record.  It keeps every value of the first
    record that is not a placeholder, as the field itself, as an element of
    the field or as a segment of it; only a [0] or a [false] gives way,
    when the second record holds a sequence in the same field.  It keeps
    every truthy value of the second record in the same way, except a
    value that is not a sequence and arrives at a field where the first
    record holds a value that is neither a placeholder nor a sequence:
    there the first value stays.  A falsy value of the second record
    changes nothing: the field is as the copy of the first record had
    it. *)
Theorem merge_keeps_truthy_values (p1 p2 : value) (key : string) :
  identity_key p1 = Ok key ->
  identity_key p2 = Ok key ->
  plain_record p2 = true ->
  exists m,
    dedupeAndMergePatients (VArr [p1; p2]) = Ok [VObj m]
    /\ (forall k v,
          lookup_prop (spread p1) k = Some v ->
          is_placeholder v = false ->
          holds m k v
          \/ (truthy v = false
              /\ exists rows, lookup_prop (own_entries p2) k = Some (VArr rows)
                              /\ lookup_prop m k = Some (VArr rows)))
    /\ (forall k v,
          lookup_prop (own_entries p2) k = Some v ->
          truthy v = true ->
          holds m k v
          \/ (is_array v = false
              /\ exists e, lookup_prop (first_clone p1) k = Some e
                           /\ lookup_prop m k = Some e
                           /\ is_placeholder e = false /\ is_array e = false))
    /\ (forall k v,
          lookup_prop (own_entries p2) k = Some v ->
          truthy v = false ->
          lookup_prop m k = lookup_prop (first_clone p1) k).
Proof.
  intros Hk1 Hk2 Hplain.
  apply andb_true_iff in Hplain. destruct Hplain as [Hdistinct Hnames].
  pose proof (identity_key_not_nullish p2 key Hk2) as Hp2.
  destruct (merge_fold_lookup p2 (own_keys p2) Hp2 (first_clone p1) Hnames)
    as [m [Hfold [Hkeep [Hout Hin]]]].
  exists m. split; [|split; [|split]].
  - assert (Hstep1 : reconcile_step [] p1 = Ok [(key, first_clone p1)]).
    { unfold reconcile_step. rewrite Hk1. reflexivity. }
    assert (Hstep2 : reconcile_step [(key, first_clone p1)] p2 = Ok [(key, m)]).
    { unfold reconcile_step, merge_into. rewrite Hk2. simpl.
      rewrite String.eqb_refl, Hfold. reflexivity. }
    unfold dedupeAndMergePatients. rewrite !fold_outcome_cons, Hstep1. simpl.
    rewrite Hstep2. reflexivity.
  - intros k v Hv Hph. destruct (truthy v) eqn:Ht.
    + left. apply Hkeep; [|exact Ht|].
      * apply keeps_first_clone. exact Hv.
      * intros ->. discriminate Hph.
    + pose proof (lookup_first_clone_falsy p1 k v Hv Ht) as Hfc.
      unfold holds.
      destruct (existsb (String.eqb k) (own_keys p2)) eqn:Hk.
      * rewrite (Hin Hdistinct k Hk), Hfc.
        rewrite (merged_lookup_kept_falsy v _ Hph Ht).
        destruct (lookup_prop_own (own_entries p2) k Hk) as [val Hval].
        rewrite Hval. simpl default.
        destruct val; try (left; simpl; left; reflexivity).
        right. split; [reflexivity|]. eexists. split; reflexivity.
      * rewrite (Hout k Hk), Hfc. left. simpl. left. reflexivity.
  - intros k v Hv Ht. unfold holds.
    rewrite (Hin Hdistinct k (lookup_prop_keys _ k v Hv)). rewrite Hv. simpl.
    unfold merged_lookup.
    destruct (lookup_prop (first_clone p1) k) as [e|] eqn:He; simpl.
    + destruct (is_placeholder e) eqn:Hph; simpl.
      * rewrite Ht. left. simpl. left. reflexivity.
      * destruct e, v; simpl in *; try discriminate Hph; try discriminate Ht;
          try (right; split; [reflexivity|]; eexists; repeat split;
               first [reflexivity|exact Hph]);
          try (left; simpl; right; eexists; split; [reflexivity|];
               right; eexists items, _, []; split;
               [reflexivity|rewrite app_nil_r; reflexivity]);
          try (left; simpl; right; eexists; split; [reflexivity|]; right;
               eexists items0, items, []; split;
               [reflexivity|rewrite app_nil_r; reflexivity]);
          try (left; simpl; right; eexists; split; [reflexivity|]; right;
               eexists items, [_], []; split;
               [reflexivity|rewrite app_nil_r; reflexivity]);
          try (rewrite ?Ht; left; simpl; right; eexists; split; [reflexivity|];
               left; apply in_or_app; right; left; reflexivity).
    + rewrite Ht. left. simpl. left. reflexivity.
  - intros k v Hv Ht.
    rewrite (Hin Hdistinct k (lookup_prop_keys _ k v Hv)). rewrite Hv. simpl default.
    apply merged_lookup_falsy, Ht.
Qed.

Lemma merge_keeps_truthy_values_witness :
  exists m,
    dedupeAndMergePatients
      (VArr [VObj [("Patient Name", VStr "A"); ("Phone", VStr "111"); ("Copay", VNum 0);
                   ("Diagnosis", VArr [VStr "x"])];
             VObj [("Patient Name", VStr "A"); ("Phone", VStr "222"); ("Diagnosis", VArr [VStr "y"]);
                   ("Age", VNum 7); ("Paid", VBool false)]])
    = Ok [VObj m]
    /\ (forall k v,
          lookup_prop (spread (VObj [("Patient Name", VStr "A"); ("Phone", VStr "111");
                                     ("Copay", VNum 0); ("Diagnosis", VArr [VStr "x"])])) k = Some v ->
          is_placeholder v = false ->
          holds m k v
          \/ (truthy v = false
              /\ exists rows,
                   lookup_prop (own_entries (VObj [("Patient Name", VStr "A"); ("Phone", VStr "222");
                                                   ("Diagnosis", VArr [VStr "y"]); ("Age", VNum 7);
                                                   ("Paid", VBool false)])) k = Some (VArr rows)
                   /\ lookup_prop m k = Some (VArr rows)))
    /\ (forall k v,
          lookup_prop (own_entries (VObj [("Patient Name", VStr "A"); ("Phone", VStr "222");
                                          ("Diagnosis", VArr [VStr "y"]); ("Age", VNum 7);
                                          ("Paid", VBool false)])) k = Some v ->
          truthy v = true ->
          holds m k v
          \/ (is_array v = false
              /\ exists e,
                   lookup_prop (first_clone (VObj [("Patient Name", VStr "A"); ("Phone", VStr "111");
                                                   ("Copay", VNum 0);
                                                   ("Diagnosis", VArr [VStr "x"])])) k = Some e
                   /\ lookup_prop m k = Some e
                   /\ is_placeholder e = false /\ is_array e = false))
    /\ (forall k v,
          lookup_prop (own_entries (VObj [("Patient Name", VStr "A"); ("Phone", VStr "222");
                                          ("Diagnosis", VArr [VStr "y"]); ("Age", VNum 7);
                                          ("Paid", VBool false)])) k = Some v ->
          truthy v = false ->
          lookup_prop m k
          = lookup_prop (first_clone (VObj [("Patient Name", VStr "A"); ("Phone", VStr "111");
                                            ("Copay", VNum 0);
                                            ("Diagnosis", VArr [VStr "x"])])) k).
Proof.
  apply (merge_keeps_truthy_values
           (VObj [("Patient Name", VStr "A"); ("Phone", VStr "111"); ("Copay", VNum 0);
                  ("Diagnosis", VArr [VStr "x"])])
           (VObj [("Patient Name", VStr "A"); ("Phone", VStr "222"); ("Diagnosis", VArr [VStr "y"]);
                  ("Age", VNum 7); ("Paid", VBool false)])
           "A"); reflexivity.
Defined.

(** ** FeeStringRepair: a second pass *)

Section CharacterClasses.

Ltac by_cases c := destruct c as [[] [] [] [] [] [] [] []]; vm_compute; congruence.

Lemma digit_not_space c : is_digit c = true -> is_space c = false.
Proof. by_cases c. Qed.

Lemma dot_not_space c : is_dot c = true -> is_space c = false.
Proof. by_cases c. Qed.

Lemma digit_not_bracket c : is_digit c = true -> is_open_bracket c = false.
Proof. by_cases c. Qed.

Lemma dot_not_bracket c : is_dot c = true -> is_open_bracket c = false.
Proof. by_cases c. Qed.

Lemma dot_not_digit c : is_dot c = true -> is_digit c = false.
Proof. by_cases c. Qed.

Lemma is_zero_eq c : is_zero c = true -> c = zero.
Proof. by_cases c. Qed.

End CharacterClasses.

Section Scanning.
Context {A : Type} (f : A -> bool).

Lemma span_skip_while (l : list A) : span_while f l ++ skip_while f l = l.
Proof.
  induction l as [|x t IH]; simpl; [reflexivity|].
  destruct (f x); simpl; [rewrite IH|]; reflexivity.
Qed.

Lemma span_while_all (l : list A) : forallb f (span_while f l) = true.
Proof.
  induction l as [|x t IH]; simpl; [reflexivity|].
  destruct (f x) eqn:Hx; simpl; [rewrite Hx; exact IH|reflexivity].
Qed.

Lemma skip_while_head (l : list A) :
  match skip_while f l with x :: _ => f x = false | [] => True end.
Proof.
  induction l as [|x t IH]; simpl; [exact I|].
  destruct (f x) eqn:Hx; [exact IH|exact Hx].
Qed.

Lemma skip_while_fixed (l : list A) :
  match l with x :: _ => f x = false | [] => True end -> skip_while f l = l.
Proof. destruct l as [|x t]; simpl; [reflexivity|]. intros ->. reflexivity. Qed.

End Scanning.

Lemma ends_in_space_app r x y :
  ends_in_space r (x ++ y) = ends_in_space (ends_in_space r x) y.
Proof. revert r. induction x as [|c t IH]; simpl; intros r; [reflexivity|apply IH]. Qed.

Lemma ends_in_space_rev r l :
  ends_in_space r l = match rev l with c :: _ => is_space c | [] => r end.
Proof.
  revert r. induction l as [|c t IH]; simpl; intros r; [reflexivity|].
  rewrite IH. destruct (rev t); reflexivity.
Qed.

Lemma ends_in_space_weaken r l :
  ends_in_space r l = false -> ends_in_space false l = false.
Proof. destruct l; simpl; [reflexivity|auto]. Qed.

Lemma trim_end_fixed l : ends_in_space false l = false -> trim_end l = l.
Proof.
  unfold trim_end. rewrite ends_in_space_rev. intros H.
  rewrite skip_while_fixed; [apply rev_involutive|].
  destruct (rev l); [exact I|exact H].
Qed.

Lemma trim_end_ends l : ends_in_space false (trim_end l) = false.
Proof.
  unfold trim_end. rewrite ends_in_space_rev, rev_involutive.
  pose proof (skip_while_head is_space (rev l)) as H.
  destruct (skip_while is_space (rev l)); [reflexivity|exact H].
Qed.

Lemma trim_chars_fixed l :
  match l with c :: _ => is_space c = false | [] => True end ->
  ends_in_space false l = false -> trim_chars l = l.
Proof.
  intros Hhead Hend. unfold trim_chars, trim_start.
  rewrite (skip_while_fixed is_space l Hhead). apply trim_end_fixed, Hend.
Qed.

Lemma spaced_collapse r l : spaced r (Fee.collapse_from r l) = true.
Proof.
  revert r. induction l as [|c t IH]; simpl; intros r; [reflexivity|].
  destruct (is_space c) eqn:Hc.
  - destruct r; [apply IH|]. simpl. rewrite IH. reflexivity.
  - simpl. rewrite Hc. apply IH.
Qed.

Lemma collapse_fixed r l : spaced r l = true -> Fee.collapse_from r l = l.
Proof.
  revert r. induction l as [|c t IH]; simpl; intros r; [reflexivity|].
  destruct (is_space c) eqn:Hc.
  - intros H. apply andb_true_iff in H. destruct H as [H Ht].
    apply andb_true_iff in H. destruct H as [Hr Heq].
    apply negb_true_iff in Hr. subst r.
    apply Ascii.eqb_eq in Heq. subst c. rewrite (IH true Ht). reflexivity.
  - intros H. rewrite (IH false H). reflexivity.
Qed.

Lemma spaced_app r x y :
  spaced r (x ++ y) = spaced r x && spaced (ends_in_space r x) y.
Proof.
  revert r. induction x as [|c t IH]; simpl; intros r; [reflexivity|].
  destruct (is_space c); rewrite IH; [rewrite !andb_assoc|]; reflexivity.
Qed.

Lemma spaced_weaken r l : spaced r l = true -> spaced false l = true.
Proof.
  destruct l as [|c t]; simpl; [reflexivity|].
  destruct (is_space c); [|auto].
  intros H. apply andb_true_iff in H. destruct H as [H Ht].
  apply andb_true_iff in H. destruct H as [_ Heq]. rewrite Heq, Ht. reflexivity.
Qed.

Lemma ends_collapse r l :
  ends_in_space r (Fee.collapse_from r l) = ends_in_space r l.
Proof.
  revert r. induction l as [|c t IH]; simpl; intros r; [reflexivity|].
  destruct (is_space c) eqn:Hc.
  - destruct r; [apply IH|]. simpl. apply IH.
  - simpl. rewrite Hc. apply IH.
Qed.

Lemma digits_dots_no_space l :
  digits_dots l = true -> forallb (fun c => negb (is_space c)) l = true.
Proof.
  unfold digits_dots. induction l as [|c t IH]; simpl; [reflexivity|].
  intros H. apply andb_true_iff in H. destruct H as [Hc Ht].
  rewrite (IH Ht), andb_true_r. apply orb_true_iff in Hc.
  destruct Hc as [Hc|Hc]; [rewrite (digit_not_space c Hc)|rewrite (dot_not_space c Hc)];
    reflexivity.
Qed.

Lemma no_space_spaced r l :
  forallb (fun c => negb (is_space c)) l = true -> spaced r l = true.
Proof.
  revert r. induction l as [|c t IH]; simpl; intros r; [reflexivity|].
  intros H. apply andb_true_iff in H. destruct H as [Hc Ht].
  apply negb_true_iff in Hc. rewrite Hc. apply IH, Ht.
Qed.

Lemma no_space_ends l :
  forallb (fun c => negb (is_space c)) l = true -> ends_in_space false l = false.
Proof.
  assert (H : forall r, forallb (fun c => negb (is_space c)) l = true ->
                        ends_in_space r l = false \/ l = []).
  { induction l as [|c t IH]; simpl; intros r; [auto|].
    intros H. apply andb_true_iff in H. destruct H as [Hc Ht].
    apply negb_true_iff in Hc. left. rewrite Hc.
    destruct (IH false Ht) as [H| ->]; [exact H|reflexivity]. }
  intros Hl. destruct (H false Hl) as [Hf| ->]; [exact Hf|reflexivity].
Qed.

(** What [join_split_amount] does when it fires: the white space between
    the digit [g] and the amount is removed. *)
Lemma join_split_amount_cases c :
  Fee.join_split_amount c = c
  \/ exists front sp w d1 d2 p d3 d4 g,
       c = front ++ g :: sp ++ w :: [d1; d2; p; d3; d4]
       /\ Fee.join_split_amount c = front ++ g :: [d1; d2; p; d3; d4]
       /\ is_digit g = true /\ is_digit d1 = true /\ is_digit d2 = true
       /\ is_dot p = true /\ is_digit d3 = true /\ is_digit d4 = true.
Proof.
  unfold Fee.join_split_amount.
  destruct (rev c) as [|d4 [|d3 [|p [|d2 [|d1 [|w before]]]]]] eqn:Hrev;
    try (left; reflexivity).
  destruct (is_digit d4) eqn:H4; [|left; reflexivity].
  destruct (is_digit d3) eqn:H3; [|left; reflexivity].
  destruct (is_dot p) eqn:Hp; [|left; reflexivity].
  destruct (is_digit d2) eqn:H2; [|left; reflexivity].
  destruct (is_digit d1) eqn:H1; [|left; reflexivity].
  destruct (is_space w) eqn:Hw; [|left; reflexivity].
  simpl.
  destruct (skip_while is_space before) as [|g rest] eqn:Hskip; [left; reflexivity|].
  destruct (is_digit g) eqn:Hg; [|left; reflexivity].
  right. exists (rev rest), (rev (span_while is_space before)), w, d1, d2, p, d3, d4, g.
  split; [|split].
  - rewrite <- (rev_involutive c), Hrev.
    rewrite <- (span_skip_while is_space before) at 1. rewrite Hskip.
    simpl. rewrite rev_app_distr. simpl. rewrite <- !app_assoc. reflexivity.
  - simpl. rewrite <- !app_assoc. reflexivity.
  - repeat split; assumption.
Qed.

Lemma join_split_amount_idempotent c :
  Fee.join_split_amount (Fee.join_split_amount c) = Fee.join_split_amount c.
Proof.
  destruct (join_split_amount_cases c) as [Heq|Hfire]; [rewrite Heq; exact Heq|].
  destruct Hfire as (front & sp & w & d1 & d2 & p & d3 & d4 & g & Hc & Hj
                     & Hg & H1 & H2 & Hp & H3 & H4).
  - rewrite Hj. unfold Fee.join_split_amount.
    rewrite rev_app_distr. simpl. rewrite (digit_not_space g Hg), !andb_false_r.
    reflexivity.
Qed.

Lemma join_split_amount_spaced c :
  spaced false c = true -> spaced false (Fee.join_split_amount c) = true.
Proof.
  destruct (join_split_amount_cases c) as [Heq|Hfire]; [rewrite Heq; auto|].
  destruct Hfire as (front & sp & w & d1 & d2 & p & d3 & d4 & g & Hc & Hj
                     & Hg & H1 & H2 & Hp & H3 & H4).
  rewrite Hj.
  subst c. rewrite !spaced_app. simpl.
  rewrite (digit_not_space g Hg), (digit_not_space d1 H1), (digit_not_space d2 H2),
    (dot_not_space p Hp), (digit_not_space d3 H3), (digit_not_space d4 H4).
  intros H. apply andb_true_iff in H. destruct H as [-> _]. reflexivity.
Qed.

Lemma join_split_amount_ends c :
  ends_in_space false c = false ->
  ends_in_space false (Fee.join_split_amount c) = false.
Proof.
  destruct (join_split_amount_cases c) as [Heq|Hfire]; [rewrite Heq; auto|].
  destruct Hfire as (front & sp & w & d1 & d2 & p & d3 & d4 & g & Hc & Hj
                     & Hg & H1 & H2 & Hp & H3 & H4).
  rewrite Hj.
  intros _. rewrite ends_in_space_app. simpl. apply digit_not_space, H4.
Qed.

Lemma join_split_amount_head (P : ascii -> Prop) c :
  match c with x :: _ => P x | [] => True end ->
  match Fee.join_split_amount c with x :: _ => P x | [] => True end.
Proof.
  destruct (join_split_amount_cases c) as [Heq|Hfire]; [rewrite Heq; auto|].
  destruct Hfire as (front & sp & w & d1 & d2 & p & d3 & d4 & g & Hc & Hj
                     & Hg & H1 & H2 & Hp & H3 & H4).
  rewrite Hj.
  subst c. destruct front; simpl; auto.
Qed.

Lemma join_split_amount_no_space l :
  forallb (fun c => negb (is_space c)) l = true -> Fee.join_split_amount l = l.
Proof.
  intros Hl. unfold Fee.join_split_amount.
  destruct (rev l) as [|d4 [|d3 [|p [|d2 [|d1 [|w before]]]]]] eqn:Hrev; try reflexivity.
  assert (Hw : is_space w = false).
  { rewrite forallb_forall in Hl. apply negb_true_iff, Hl.
    apply in_rev. rewrite Hrev. simpl. auto 10. }
  rewrite Hw, andb_false_r. reflexivity.
Qed.

Lemma clean_chars_unfold s :
  Fee.clean_chars s
  = match trim_chars s with
    | [] => []
    | _ :: _ =>
        finish (Fee.join_split_amount
                  (Fee.strip_open_brackets (Fee.collapse_spaces (trim_chars s))))
    end.
Proof. unfold Fee.clean_chars. destruct (trim_chars s); reflexivity. Qed.

Lemma collapse_zeros_fixed l :
  surplus_zeros_chars l = false -> Fee.collapse_zeros l = l.
Proof.
  unfold surplus_zeros_chars, Fee.collapse_zeros.
  destruct l as [|z1 [|z2 t]]; [reflexivity| |].
  - simpl. destruct (is_zero z1); reflexivity.
  - destruct (is_zero z1) eqn:H1; [|reflexivity].
    destruct (is_zero z2) eqn:H2.
    + simpl. rewrite H1, H2. simpl.
      destruct (skip_while is_zero t) as [|p [|d1 [|d2 [|]]]]; try reflexivity.
      intros ->. reflexivity.
    + intros _. simpl. rewrite H1, H2.
      destruct t as [|d1 [|d2 [|]]]; try reflexivity.
      destruct (is_dot z2 && is_digit d1 && is_digit d2); [|reflexivity].
      rewrite (is_zero_eq z1 H1). reflexivity.
Qed.

Lemma collapse_zeros_cases d :
  Fee.collapse_zeros d = d \/ digits_dots (Fee.collapse_zeros d) = true.
Proof.
  unfold Fee.collapse_zeros. destruct d as [|z t]; [left; reflexivity|].
  destruct (is_zero z); [|left; reflexivity].
  destruct (skip_while is_zero (z :: t)) as [|p [|d1 [|d2 [|]]]]; try (left; reflexivity).
  destruct (is_dot p) eqn:Hp; [|left; reflexivity].
  destruct (is_digit d1) eqn:H1; [|left; reflexivity].
  destruct (is_digit d2) eqn:H2; [|left; reflexivity].
  right. simpl. rewrite Hp, H1, H2, !orb_true_r. reflexivity.
Qed.

Lemma all_digits_digits_dots l : forallb is_digit l = true -> digits_dots l = true.
Proof.
  unfold digits_dots. induction l as [|c t IH]; simpl; [reflexivity|].
  intros H. apply andb_true_iff in H. destruct H as [-> Ht]. simpl. auto.
Qed.

Lemma digits_dots_app x y : digits_dots (x ++ y) = digits_dots x && digits_dots y.
Proof. apply forallb_app. Qed.

Lemma insert_point_digits_dots e :
  forallb is_digit e = true -> digits_dots (Fee.insert_point e) = true.
Proof.
  intros He. apply all_digits_digits_dots in He. unfold Fee.insert_point.
  rewrite <- (take_drop (length e - 2) e) in He. rewrite digits_dots_app in He.
  apply andb_true_iff in He. destruct He as [Ha Hb].
  rewrite digits_dots_app, Ha. simpl. exact Hb.
Qed.

Lemma insert_point_not_digits e : forallb is_digit (Fee.insert_point e) = false.
Proof.
  unfold Fee.insert_point. rewrite forallb_app. simpl. apply andb_false_r.
Qed.

Lemma point_step_not_digits e :
  all_digits (point_step e) && Nat.ltb 2 (length (point_step e)) = false.
Proof.
  unfold point_step. destruct (all_digits e && Nat.ltb 2 (length e)) eqn:C; [|exact C].
  unfold all_digits. rewrite insert_point_not_digits, andb_false_r. reflexivity.
Qed.

Lemma point_step_cases e :
  point_step e = e \/ digits_dots (point_step e) = true.
Proof.
  unfold point_step.
  destruct (all_digits e && Nat.ltb 2 (length e)) eqn:C; [|left; reflexivity].
  right. apply insert_point_digits_dots.
  apply andb_true_iff in C. destruct C as [C _]. unfold all_digits in C.
  apply andb_true_iff in C. destruct C as [_ C]. exact C.
Qed.

Lemma point_step_digits_dots e : digits_dots e = true -> digits_dots (point_step e) = true.
Proof. intros He. destruct (point_step_cases e) as [->|H]; assumption. Qed.

Lemma split_dot_from_no_dot acc l :
  forallb (fun c => negb (is_dot c)) l = true ->
  Fee.split_dot_from acc l = [rev acc ++ l].
Proof.
  revert acc. induction l as [|c t IH]; simpl; intros acc Hl.
  - rewrite app_nil_r. reflexivity.
  - apply andb_true_iff in Hl. destruct Hl as [Hc Ht]. apply negb_true_iff in Hc.
    rewrite Hc, (IH _ Ht). simpl. rewrite <- app_assoc. reflexivity.
Qed.

Lemma split_dot_from_at_dot acc ds p rest :
  forallb (fun c => negb (is_dot c)) ds = true -> is_dot p = true ->
  Fee.split_dot_from acc (ds ++ p :: rest)
  = (rev acc ++ ds) :: Fee.split_dot_from [] rest.
Proof.
  revert acc. induction ds as [|c t IH]; simpl; intros acc Hds Hp.
  - rewrite Hp, app_nil_r. reflexivity.
  - apply andb_true_iff in Hds. destruct Hds as [Hc Ht]. apply negb_true_iff in Hc.
    rewrite Hc, (IH _ Ht Hp). simpl. rewrite <- app_assoc. reflexivity.
Qed.

Lemma digits_no_dot l :
  forallb is_digit l = true -> forallb (fun c => negb (is_dot c)) l = true.
Proof.
  induction l as [|c t IH]; simpl; [reflexivity|].
  intros H. apply andb_true_iff in H. destruct H as [Hc Ht].
  rewrite (IH Ht), andb_true_r.
  destruct (is_dot c) eqn:Hd; [|reflexivity].
  rewrite (dot_not_digit c Hd) in Hc. discriminate Hc.
Qed.

(** The two shapes of a text that passes [is_decimal]. *)
Lemma is_decimal_cases f :
  Fee.is_decimal f = true ->
  (forallb is_digit f = true /\ f <> [])
  \/ exists int p frac,
       f = int ++ p :: frac /\ forallb is_digit int = true /\ is_dot p = true
       /\ forallb is_digit frac = true /\ frac <> [].
Proof.
  unfold Fee.is_decimal, all_digits. intros H.
  pose proof (span_skip_while is_digit f) as Hsplit.
  pose proof (span_while_all is_digit f) as Hint.
  destruct (skip_while is_digit f) as [|p frac] eqn:Hskip.
  - left. apply andb_true_iff in H. destruct H as [Hlen Hall]. split; [exact Hall|].
    intros ->. discriminate Hlen.
  - right. exists (span_while is_digit f), p, frac.
    apply andb_true_iff in H. destruct H as [H Hfrac].
    apply andb_true_iff in H. destruct H as [Hp _].
    apply andb_true_iff in Hfrac. destruct Hfrac as [Hlen Hfrac].
    repeat split; auto. intros ->. discriminate Hlen.
Qed.

Lemma is_decimal_digits_dots f : Fee.is_decimal f = true -> digits_dots f = true.
Proof.
  intros H. destruct (is_decimal_cases f H)
    as [[Hall _]|(int & p & frac & -> & Hint & Hp & Hfrac & _)].
  - apply all_digits_digits_dots, Hall.
  - rewrite digits_dots_app. simpl.
    rewrite (all_digits_digits_dots int Hint), (all_digits_digits_dots frac Hfrac), Hp,
      orb_true_r. reflexivity.
Qed.

(** Padding a decimal either leaves it or gives it two decimals. *)
Lemma pad_decimals_cases f :
  Fee.is_decimal f = true ->
  (Fee.pad_decimals f = f /\ forallb is_digit f = false)
  \/ (Fee.ends_dot_2digits (Fee.pad_decimals f) = true
      /\ forallb is_digit (Fee.pad_decimals f) = false
      /\ digits_dots (Fee.pad_decimals f) = true).
Proof.
  intros H. pose proof (is_decimal_digits_dots f H) as Hdd.
  destruct (is_decimal_cases f H)
    as [[Hall _]|(int & p & frac & -> & Hint & Hp & Hfrac & Hne)].
  - right. unfold Fee.pad_decimals, Fee.split_dot.
    rewrite (split_dot_from_no_dot [] f (digits_no_dot f Hall)). simpl.
    unfold Fee.ends_dot_2digits. rewrite rev_app_distr, forallb_app, digits_dots_app, Hdd.
    simpl. rewrite andb_false_r. repeat split; reflexivity.
  - assert (Hnd : forallb is_digit (int ++ p :: frac) = false).
    { rewrite forallb_app. simpl. rewrite (dot_not_digit p Hp), andb_false_r. reflexivity. }
    unfold Fee.pad_decimals, Fee.split_dot.
    rewrite (split_dot_from_at_dot [] int p frac (digits_no_dot int Hint) Hp).
    rewrite (split_dot_from_no_dot [] frac (digits_no_dot frac Hfrac)). simpl.
    destruct (Nat.eqb (length frac) 1) eqn:Hlen; [|left; split; [reflexivity|exact Hnd]].
    right. destruct frac as [|x [|]]; try discriminate Hlen.
    simpl in Hfrac. rewrite andb_true_r in Hfrac.
    unfold Fee.ends_dot_2digits. rewrite <- app_assoc. simpl.
    rewrite rev_app_distr, forallb_app, digits_dots_app. simpl.
    rewrite Hfrac, Hp, (dot_not_digit p Hp), (all_digits_digits_dots int Hint), !orb_true_r,
      !andb_false_r.
    repeat split; reflexivity.
Qed.

Lemma pad_step_idempotent f : pad_step (pad_step f) = pad_step f.
Proof.
  destruct (Fee.is_decimal f && negb (Fee.ends_dot_2digits f)) eqn:C.
  - assert (Hps : pad_step f = Fee.pad_decimals f).
    { unfold pad_step. rewrite C. reflexivity. }
    rewrite Hps. apply andb_true_iff in C. destruct C as [Hdec Hends].
    destruct (pad_decimals_cases f Hdec) as [[Heq _]|[Hends' _]].
    + replace (pad_step (Fee.pad_decimals f)) with (pad_step f)
        by (rewrite Heq; reflexivity).
      exact Hps.
    + unfold pad_step. rewrite Hends', andb_false_r. reflexivity.
  - assert (Hps : pad_step f = f).
    { unfold pad_step. rewrite C. reflexivity. }
    rewrite Hps. exact Hps.
Qed.

Lemma pad_step_not_digits f :
  all_digits f && Nat.ltb 2 (length f) = false ->
  all_digits (pad_step f) && Nat.ltb 2 (length (pad_step f)) = false.
Proof.
  intros Hf. unfold pad_step.
  destruct (Fee.is_decimal f && negb (Fee.ends_dot_2digits f)) eqn:C; [|exact Hf].
  apply andb_true_iff in C. destruct C as [Hdec _].
  destruct (pad_decimals_cases f Hdec) as [[Heq _]|[_ [Hnd _]]].
  - rewrite Heq. exact Hf.
  - unfold all_digits. rewrite Hnd, andb_false_r. reflexivity.
Qed.

Lemma pad_step_cases f : pad_step f = f \/ digits_dots (pad_step f) = true.
Proof.
  unfold pad_step.
  destruct (Fee.is_decimal f && negb (Fee.ends_dot_2digits f)) eqn:C; [|left; reflexivity].
  apply andb_true_iff in C. destruct C as [Hdec _].
  destruct (pad_decimals_cases f Hdec) as [[Heq _]|[_ [_ Hdd]]]; auto.
Qed.

Lemma pad_step_digits_dots f : digits_dots f = true -> digits_dots (pad_step f) = true.
Proof. intros Hf. destruct (pad_step_cases f) as [->|H]; assumption. Qed.

Lemma finish_cases d : finish d = d \/ digits_dots (finish d) = true.
Proof.
  unfold finish.
  destruct (collapse_zeros_cases d) as [->|He].
  - destruct (point_step_cases d) as [->|Hf].
    + apply pad_step_cases.
    + right. apply pad_step_digits_dots, Hf.
  - right. apply pad_step_digits_dots, point_step_digits_dots, He.
Qed.

Lemma finish_stable d :
  surplus_zeros_chars (finish d) = false -> finish (finish d) = finish d.
Proof.
  intros Hz. unfold finish at 1. rewrite (collapse_zeros_fixed _ Hz).
  assert (Hnd : all_digits (finish d) && Nat.ltb 2 (length (finish d)) = false).
  { unfold finish. apply pad_step_not_digits, point_step_not_digits. }
  unfold point_step. rewrite Hnd. unfold finish. apply pad_step_idempotent.
Qed.

Lemma explode_implode l : explode (implode l) = l.
Proof. apply String.list_ascii_of_string_of_list_ascii. Qed.

Lemma suffix_spaced pre c :
  spaced false (pre ++ c) = true -> spaced false c = true.
Proof.
  rewrite spaced_app. intros H. apply andb_true_iff in H. destruct H as [_ H].
  eapply spaced_weaken, H.
Qed.

Lemma suffix_ends pre c :
  ends_in_space false (pre ++ c) = false -> ends_in_space false c = false.
Proof. rewrite ends_in_space_app. apply ends_in_space_weaken. Qed.

(** A second pass over a repaired text that neither begins with white space
    nor carries surplus zeros changes nothing. *)
Lemma clean_chars_second_pass s :
  match Fee.clean_chars s with c :: _ => is_space c = false | [] => True end ->
  surplus_zeros_chars (Fee.clean_chars s) = false ->
  Fee.clean_chars (Fee.clean_chars s) = Fee.clean_chars s.
Proof.
  rewrite (clean_chars_unfold s).
  pose proof (trim_end_ends (trim_start s)) as Htrim. fold (trim_chars s) in Htrim.
  destruct (trim_chars s) as [|c0 t0] eqn:Ht; [reflexivity|].
  set (b := Fee.collapse_spaces (c0 :: t0)).
  set (c := Fee.strip_open_brackets b).
  set (d := Fee.join_split_amount c).
  assert (Hb : spaced false b = true /\ ends_in_space false b = false).
  { split; [apply spaced_collapse|].
    unfold b, Fee.collapse_spaces. rewrite ends_collapse. exact Htrim. }
  assert (Hc : spaced false c = true /\ ends_in_space false c = false
               /\ match c with x :: _ => is_open_bracket x = false | [] => True end).
  { destruct Hb as [Hs He].
    pose proof (span_skip_while is_open_bracket b) as Hsplit. fold c in Hsplit.
    fold (Fee.strip_open_brackets b) in Hsplit. fold c in Hsplit.
    rewrite <- Hsplit in Hs, He.
    split; [eapply suffix_spaced, Hs|]. split; [eapply suffix_ends, He|].
    apply skip_while_head. }
  assert (Hd : spaced false d = true /\ ends_in_space false d = false
               /\ match d with x :: _ => is_open_bracket x = false | [] => True end
               /\ Fee.join_split_amount d = d).
  { destruct Hc as [Hs [He Hh]]. unfold d.
    split; [apply join_split_amount_spaced, Hs|].
    split; [apply join_split_amount_ends, He|].
    split; [apply (join_split_amount_head (fun x => is_open_bracket x = false)), Hh|].
    apply join_split_amount_idempotent. }
  assert (HR : spaced false (finish d) = true /\ ends_in_space false (finish d) = false
               /\ match finish d with x :: _ => is_open_bracket x = false | [] => True end
               /\ Fee.join_split_amount (finish d) = finish d).
  { destruct (finish_cases d) as [->|Hdd]; [exact Hd|].
    pose proof (digits_dots_no_space _ Hdd) as Hns.
    split; [apply no_space_spaced, Hns|]. split; [apply no_space_ends, Hns|].
    split; [|apply join_split_amount_no_space, Hns].
    destruct (finish d) as [|x t]; [exact I|].
    unfold digits_dots in Hdd. simpl in Hdd. apply andb_true_iff in Hdd.
    destruct Hdd as [Hx _]. apply orb_true_iff in Hx.
    destruct Hx as [Hx|Hx]; [apply digit_not_bracket|apply dot_not_bracket]; exact Hx. }
  clearbody d. clear b c Hb Hc Hd.
  destruct HR as [Hs [He [Hh Hj]]]. intros Hlead Hzeros.
  rewrite (clean_chars_unfold (finish d)).
  rewrite (trim_chars_fixed _ Hlead He).
  destruct (finish d) as [|x t] eqn:HR; [reflexivity|].
  unfold Fee.collapse_spaces. rewrite (collapse_fixed false (x :: t) Hs).
  unfold Fee.strip_open_brackets. rewrite (skip_while_fixed is_open_bracket (x :: t) Hh).
  rewrite Hj, <- HR. apply finish_stable. rewrite HR. exact Hzeros.
Qed.

(** C2: the repair is not idempotent.  The leading brackets are stripped
    after the text was trimmed, so ["| 45.00"] and ["[ 12.5"] come out with
    a space in front, the second without the two decimals the last step is
    there to ensure; a run of zeros is collapsed before the decimal point
    is inserted, so ["0000"] comes out as ["00.00"], which the rule for
    ["000.00"] would make ["0.00"].  A second pass repairs all three. *)
Theorem cleanFeeString_second_pass_differs :
  _cleanFeeString (VStr "| 45.00") = Ok " 45.00"
  /\ _cleanFeeString (VStr " 45.00") = Ok "45.00"
  /\ _cleanFeeString (VStr "[ 12.5") = Ok " 12.5"
  /\ _cleanFeeString (VStr " 12.5") = Ok "12.50"
  /\ _cleanFeeString (VStr "0000") = Ok "00.00"
  /\ _cleanFeeString (VStr "00.00") = Ok "0.00".
Proof. repeat split; vm_compute; reflexivity. Qed.

(** X23: a repaired fee is left as it is by a second repair, unless it
    begins with white space (left when leading brackets are stripped) or
    is a run of two or more zeros before a dot and two digits (left when a
    decimal point is inserted into, or appended to, a run of zeros): for
    every input [s] that [_cleanFeeString] turns into a text [r] of neither
    kind, repairing [r] returns [r]. *)
Theorem cleanFeeString_idempotent_when_settled (s : value) (r : string) :
  _cleanFeeString s = Ok r ->
  leading_space r = false ->
  surplus_zeros r = false ->
  _cleanFeeString (VStr r) = Ok r.
Proof.
  unfold _cleanFeeString, leading_space, surplus_zeros.
  destruct (nullish s).
  - intros H _ _. injection H as <-. reflexivity.
  - destruct (to_text s) as [t| |]; simpl; try discriminate.
    intros H. injection H as <-. unfold Fee.clean_text.
    rewrite !explode_implode. intros Hlead Hzeros.
    rewrite clean_chars_second_pass; [reflexivity| |exact Hzeros].
    destruct (Fee.clean_chars (explode t)); [exact I|exact Hlead].
Qed.

Lemma cleanFeeString_idempotent_when_settled_witness :
  _cleanFeeString (VStr "123.45") = Ok "123.45"
  /\ _cleanFeeString (VStr "n/a 7") = Ok "n/a 7".
Proof.
  split.
  - apply (cleanFeeString_idempotent_when_settled (VStr "|12345") "123.45"); reflexivity.
  - apply (cleanFeeString_idempotent_when_settled (VStr " [n/a   7 ") "n/a 7"); reflexivity.
Defined.

(** ** CodeHighlighter: codes in nested sequences *)

Section TokenCharacters.

Ltac by_cases c := destruct c as [[] [] [] [] [] [] [] []]; vm_compute; congruence.

Lemma upper_is_word c : is_upper c = true -> is_word c = true.
Proof. by_cases c. Qed.

Lemma digit_is_word c : is_digit c = true -> is_word c = true.
Proof. by_cases c. Qed.

Lemma upper_not_comma c : is_upper c = true -> is_comma c = false.
Proof. by_cases c. Qed.

Lemma digit_not_comma c : is_digit c = true -> is_comma c = false.
Proof. by_cases c. Qed.

Lemma dot_not_comma c : is_dot c = true -> is_comma c = false.
Proof. by_cases c. Qed.

Lemma comma_not_word c : is_comma c = true -> is_word c = false.
Proof. by_cases c. Qed.

Lemma comma_not_upper c : is_comma c = true -> is_upper c = false.
Proof. by_cases c. Qed.

Lemma comma_not_digit c : is_comma c = true -> is_digit c = false.
Proof. by_cases c. Qed.

Lemma comma_not_dot c : is_comma c = true -> is_dot c = false.
Proof. by_cases c. Qed.

Lemma upper_not_space c : is_upper c = true -> is_space c = false.
Proof. by_cases c. Qed.

End TokenCharacters.

Lemma suffix_char_is_word c : Icd.is_suffix_char c = true -> is_word c = true.
Proof.
  unfold Icd.is_suffix_char. intros H. apply orb_true_iff in H.
  destruct H; [apply digit_is_word|apply upper_is_word]; assumption.
Qed.

Lemma suffix_char_not_comma c : Icd.is_suffix_char c = true -> is_comma c = false.
Proof.
  unfold Icd.is_suffix_char. intros H. apply orb_true_iff in H.
  destruct H; [apply digit_not_comma|apply upper_not_comma]; assumption.
Qed.

Lemma code_char_not_comma c : is_code_char c = true -> is_comma c = false.
Proof.
  unfold is_code_char. intros H. apply orb_true_iff in H.
  destruct H; [apply suffix_char_not_comma|apply dot_not_comma]; assumption.
Qed.

Lemma code_char_not_space c : is_code_char c = true -> is_space c = false.
Proof.
  unfold is_code_char, Icd.is_suffix_char. intros H.
  apply orb_true_iff in H. destruct H as [H|H]; [|apply dot_not_space, H].
  apply orb_true_iff in H. destruct H; [apply digit_not_space|apply upper_not_space];
    assumption.
Qed.

Lemma consumes_refl taken l : consumes taken taken l l.
Proof. exists []. rewrite app_nil_r. auto. Qed.

Lemma consumes_step taken taken' c l rest :
  is_code_char c = true -> consumes (c :: taken) taken' l rest ->
  consumes taken taken' (c :: l) rest.
Proof.
  intros Hc (x & Hrev & Hl & Hx). exists (c :: x). simpl in *.
  rewrite Hrev, <- app_assoc, Hl, Hc, Hx. auto.
Qed.

Lemma digits_exactly_consumes n taken l taken' rest :
  Icd.digits_exactly n taken l = Some (taken', rest) -> consumes taken taken' l rest.
Proof.
  revert taken l. induction n as [|n IH]; simpl; intros taken l H.
  - injection H as <- <-. apply consumes_refl.
  - destruct l as [|c t]; [discriminate|].
    destruct (is_digit c) eqn:Hc; [|discriminate].
    apply consumes_step; [|apply IH, H].
    unfold is_code_char, Icd.is_suffix_char. rewrite Hc. reflexivity.
Qed.

Lemma suffix_runs_consume taken l cand :
  In cand (Icd.suffix_runs taken l) -> consumes taken (fst cand) l (snd cand).
Proof.
  revert taken. induction l as [|c t IH]; simpl; intros taken H; [contradiction|].
  destruct (Icd.is_suffix_char c) eqn:Hc; [|contradiction].
  assert (Hcode : is_code_char c = true) by (unfold is_code_char; rewrite Hc; reflexivity).
  apply in_app_or in H. destruct H as [H|[<-|[]]].
  - apply consumes_step; [exact Hcode|apply IH, H].
  - apply consumes_step; [exact Hcode|apply consumes_refl].
Qed.

Lemma match_tail_consumes taken l taken' rest :
  Icd.match_tail taken l = Some (taken', rest) -> consumes taken taken' l rest.
Proof.
  unfold Icd.match_tail.
  set (cands := _ ++ [(taken, l)]).
  destruct (filter _ cands) as [|cand others] eqn:Hf; [discriminate|].
  assert (Hcons : consumes taken (fst cand) l (snd cand)).
  { assert (Hin : cand ∈ cands).
    { eapply list_elem_of_filter. rewrite Hf. left. }
    apply list_elem_of_In in Hin. unfold cands in Hin.
    apply in_app_or in Hin. destruct Hin as [Hin|[<-|[]]]; [|apply consumes_refl].
    destruct l as [|p t]; [contradiction|].
    destruct (is_dot p) eqn:Hp; [|contradiction].
    apply (consumes_step taken (fst cand) p t (snd cand)).
    - unfold is_code_char. rewrite Hp. apply orb_true_r.
    - apply suffix_runs_consume in Hin. exact Hin. }
  intros H. injection H as Heq. rewrite Heq in Hcons. exact Hcons.
Qed.

(** A match is a prefix of the text it was tried on, is not empty and has
    no comma. *)
Lemma match_at_prefix prev l m :
  Icd.match_at prev l = Some m ->
  exists rest, l = m ++ rest /\ m <> [] /\ forallb is_code_char m = true.
Proof.
  unfold Icd.match_at. destruct l as [|a t]; [discriminate|].
  destruct (Icd.boundary prev (Some a) && is_upper a) eqn:Hstart; [|discriminate].
  apply andb_true_iff in Hstart. destruct Hstart as [_ Ha].
  assert (Hattempt : forall n taken rest,
             match Icd.digits_exactly n [a] t with
             | Some (taken0, rest0) => Icd.match_tail taken0 rest0
             | None => None
             end = Some (taken, rest) ->
             exists rest', a :: t = rev taken ++ rest' /\ rev taken <> []
                           /\ forallb is_code_char (rev taken) = true).
  { intros n taken rest H.
    destruct (Icd.digits_exactly n [a] t) as [[taken0 rest0]|] eqn:Hd; [|discriminate].
    apply digits_exactly_consumes in Hd. apply match_tail_consumes in H.
    destruct Hd as (x & Hrev & Hl & Hx). destruct H as (y & Hrev' & Hl' & Hy).
    exists rest. rewrite Hrev', Hrev. simpl. rewrite <- !app_assoc. simpl.
    split; [rewrite Hl, Hl'; reflexivity|]. split; [discriminate|].
    rewrite !forallb_app, Hx, Hy. simpl.
    unfold is_code_char, Icd.is_suffix_char. rewrite Ha, orb_true_r. reflexivity. }
  destruct (match Icd.digits_exactly 3 [a] t with
            | Some (taken0, rest0) => Icd.match_tail taken0 rest0
            | None => None
            end) as [[taken rest]|] eqn:H3.
  - intros H. injection H as <-. eapply Hattempt, H3.
  - destruct (match Icd.digits_exactly 2 [a] t with
              | Some (taken0, rest0) => Icd.match_tail taken0 rest0
              | None => None
              end) as [[taken rest]|] eqn:H2; [|discriminate].
    intros H. injection H as <-. eapply Hattempt, H2.
Qed.

Lemma scan_cons prev skip c t :
  Icd.scan prev skip (c :: t)
  = match skip with
    | S n => Icd.scan (Some c) n t
    | O =>
        match Icd.match_at prev (c :: t) with
        | Some m => m :: Icd.scan (Some c) (length m - 1) t
        | None => Icd.scan (Some c) 0 t
        end
    end.
Proof. reflexivity. Qed.

(** Whatever came before a comma, the scan finds the matches after it. *)
Lemma scan_after_comma x y c m :
  is_comma c = true ->
  In m (Icd.scan (Some c) 0 y) ->
  forall prev skip,
    forallb (fun c => negb (is_comma c)) (take skip (x ++ c :: y)) = true ->
    In m (Icd.scan prev skip (x ++ c :: y)).
Proof.
  intros Hc Hm. induction x as [|a t IH]; intros prev skip Hskip.
  - change ([] ++ c :: y) with (c :: y) in *. rewrite scan_cons.
    destruct skip as [|n]; simpl in Hskip.
    + unfold Icd.match_at. rewrite (comma_not_upper c Hc), andb_false_r. exact Hm.
    + rewrite Hc in Hskip. discriminate Hskip.
  - change ((a :: t) ++ c :: y) with (a :: (t ++ c :: y)) in *. rewrite scan_cons.
    destruct skip as [|n]; simpl in Hskip.
    + destruct (Icd.match_at prev (a :: t ++ c :: y)) as [m'|] eqn:Hmatch.
      * right. apply IH.
        destruct (match_at_prefix _ _ _ Hmatch) as (rest & Hl & Hne & Hcode).
        destruct m' as [|a' m'']; [congruence|]. simpl in Hl. injection Hl as -> Ht.
        simpl. rewrite Nat.sub_0_r, Ht, take_app_length.
        simpl in Hcode. apply andb_true_iff in Hcode. destruct Hcode as [_ Hcode].
        rewrite forallb_forall in Hcode. apply forallb_forall. intros z Hz.
        rewrite (code_char_not_comma z (Hcode z Hz)). reflexivity.
      * apply IH. reflexivity.
    + apply andb_true_iff in Hskip. destruct Hskip as [_ Hskip]. apply IH, Hskip.
Qed.

Lemma closed_after_not_word post :
  closed_after post -> Icd.is_word_opt (head post) = false.
Proof. destruct post as [|c t]; simpl; [reflexivity|apply comma_not_word]. Qed.

Lemma suffix_runs_stop taken post :
  closed_after post -> Icd.suffix_runs taken post = [].
Proof.
  destruct post as [|c t]; simpl; [reflexivity|]. intros Hc.
  unfold Icd.is_suffix_char.
  rewrite (comma_not_digit c Hc), (comma_not_upper c Hc). reflexivity.
Qed.

Lemma suffix_runs_longest run taken post :
  run <> [] -> forallb Icd.is_suffix_char run = true -> closed_after post ->
  exists others, Icd.suffix_runs taken (run ++ post) = (rev run ++ taken, post) :: others.
Proof.
  intros Hne Hrun Hpost. revert taken.
  induction run as [|c r IH]; [congruence|]. intros taken.
  simpl in Hrun. apply andb_true_iff in Hrun. destruct Hrun as [Hc Hr].
  simpl. rewrite Hc. destruct r as [|c' r'].
  - simpl. rewrite (suffix_runs_stop _ post Hpost). exists []. reflexivity.
  - destruct (IH ltac:(discriminate) Hr (c :: taken)) as [others Hothers].
    rewrite Hothers. eexists. simpl. rewrite <- !app_assoc. reflexivity.
Qed.

Lemma match_tail_token d taken tail post :
  is_word d = true ->
  (tail = []
   \/ exists p run, tail = p :: run /\ is_dot p = true /\ run <> []
                    /\ forallb Icd.is_suffix_char run = true) ->
  closed_after post ->
  Icd.match_tail (d :: taken) (tail ++ post) = Some (rev tail ++ d :: taken, post).
Proof.
  intros Hd Htail Hpost. unfold Icd.match_tail.
  pose proof (closed_after_not_word post Hpost) as Hnw.
  destruct Htail as [->|(p & run & -> & Hp & Hne & Hrun)].
  - simpl.
    assert (Hnone : match post with
                    | [] => []
                    | p :: t => if is_dot p then Icd.suffix_runs (p :: d :: taken) t else []
                    end = []).
    { destruct post as [|c t]; [reflexivity|]. simpl in Hpost.
      rewrite (comma_not_dot c Hpost). reflexivity. }
    rewrite Hnone. simpl. rewrite filter_cons_True.
    + reflexivity.
    + simpl. unfold Icd.boundary. simpl. rewrite Hd, Hnw. exact I.
  - simpl. rewrite Hp.
    destruct (suffix_runs_longest run (p :: d :: taken) post Hne Hrun Hpost)
      as [others Hothers].
    rewrite Hothers. simpl. rewrite filter_cons_True.
    + rewrite <- !app_assoc. reflexivity.
    + simpl. unfold Icd.boundary. rewrite Hnw.
      destruct (rev run) as [|z zs] eqn:Hrev.
      * exfalso. apply Hne. rewrite <- (rev_involutive run), Hrev. reflexivity.
      * simpl. rewrite suffix_char_is_word; [exact I|].
        rewrite forallb_forall in Hrun. apply Hrun. apply in_rev. rewrite Hrev. left.
        reflexivity.
Qed.

(** A code between the start of the text, or a comma, and the end of the
    text, or a comma, is matched whole. *)
Lemma match_at_token prev u ds tail post :
  closed_before prev -> is_upper u = true ->
  forallb is_digit ds = true -> (length ds = 2 \/ length ds = 3)%nat ->
  (tail = []
   \/ exists p run, tail = p :: run /\ is_dot p = true /\ run <> []
                    /\ forallb Icd.is_suffix_char run = true) ->
  closed_after post ->
  Icd.match_at prev (u :: ds ++ tail ++ post) = Some (u :: ds ++ tail).
Proof.
  intros Hprev Hu Hds Hlen Htail Hpost. unfold Icd.match_at.
  assert (Hb : Icd.boundary prev (Some u) = true).
  { unfold Icd.boundary. simpl. rewrite (upper_is_word u Hu).
    destruct prev as [c|]; simpl; [|reflexivity].
    rewrite (comma_not_word c Hprev). reflexivity. }
  rewrite Hb, Hu. simpl andb. cbv iota.
  assert (Hnext : match tail ++ post with c :: _ => is_digit c = false | [] => True end).
  { destruct Htail as [->|(p & run & -> & Hp & _)]; simpl.
    - destruct post as [|c t]; [exact I|]. apply comma_not_digit, Hpost.
    - apply dot_not_digit, Hp. }
  destruct Hlen as [Hlen|Hlen].
  - destruct ds as [|a [|b [|]]]; try discriminate Hlen.
    simpl in Hds. apply andb_true_iff in Hds. destruct Hds as [Ha Hds].
    apply andb_true_iff in Hds. destruct Hds as [Hb' _].
    assert (H3 : Icd.digits_exactly 3 [u] ([a; b] ++ tail ++ post) = None).
    { simpl. rewrite Ha, Hb'. destruct (tail ++ post) as [|c t]; [reflexivity|].
      rewrite Hnext. reflexivity. }
    rewrite H3.
    assert (H2 : Icd.digits_exactly 2 [u] ([a; b] ++ tail ++ post)
                 = Some ([b; a; u], tail ++ post)).
    { simpl. rewrite Ha, Hb'. reflexivity. }
    rewrite H2, (match_tail_token b [a; u] tail post (digit_is_word b Hb') Htail Hpost).
    rewrite rev_app_distr, rev_involutive. reflexivity.
  - destruct ds as [|a [|b [|c [|]]]]; try discriminate Hlen.
    simpl in Hds. apply andb_true_iff in Hds. destruct Hds as [Ha Hds].
    apply andb_true_iff in Hds. destruct Hds as [Hb' Hds].
    apply andb_true_iff in Hds. destruct Hds as [Hc _].
    assert (H3 : Icd.digits_exactly 3 [u] ([a; b; c] ++ tail ++ post)
                 = Some ([c; b; a; u], tail ++ post)).
    { simpl. rewrite Ha, Hb', Hc. reflexivity. }
    rewrite H3, (match_tail_token c [b; a; u] tail post (digit_is_word c Hc) Htail Hpost).
    rewrite rev_app_distr, rev_involutive. reflexivity.
Qed.

Lemma implode_explode s : implode (explode s) = s.
Proof. apply String.string_of_list_ascii_of_string. Qed.

Lemma explode_append a b : explode (a +:+ b) = explode a ++ explode b.
Proof. induction a as [|c a IH]; simpl; [reflexivity|]. unfold explode in *. simpl. rewrite IH. reflexivity. Qed.

(** The pieces of a code-shaped text. *)
Lemma code_shaped_parts t :
  code_shaped t = true ->
  exists u ds tail,
    explode t = u :: ds ++ tail
    /\ is_upper u = true /\ forallb is_digit ds = true
    /\ (length ds = 2 \/ length ds = 3)%nat
    /\ (tail = []
        \/ exists p run, tail = p :: run /\ is_dot p = true /\ run <> []
                         /\ forallb Icd.is_suffix_char run = true).
Proof.
  unfold code_shaped. destruct (explode t) as [|u rest]; [discriminate|].
  intros H. apply andb_true_iff in H. destruct H as [H Htail].
  apply andb_true_iff in H. destruct H as [Hu Hlen].
  exists u, (span_while is_digit rest), (skip_while is_digit rest).
  rewrite span_skip_while. split; [reflexivity|]. split; [exact Hu|].
  split; [apply span_while_all|]. split.
  - apply orb_true_iff in Hlen. destruct Hlen as [H|H]; apply Nat.eqb_eq in H; auto.
  - destruct (skip_while is_digit rest) as [|p run]; [left; reflexivity|].
    right. exists p, run.
    apply andb_true_iff in Htail. destruct Htail as [H Hrun].
    apply andb_true_iff in H. destruct H as [Hp Hne].
    repeat split; auto. intros ->. discriminate Hne.
Qed.

Lemma code_shaped_chars t :
  code_shaped t = true -> forallb is_code_char (explode t) = true.
Proof.
  intros H. destruct (code_shaped_parts t H)
    as (u & ds & tail & -> & Hu & Hds & _ & Htail).
  simpl. rewrite forallb_app. unfold is_code_char at 1, Icd.is_suffix_char.
  rewrite Hu, orb_true_r. simpl.
  assert (Hd : forallb is_code_char ds = true).
  { rewrite forallb_forall in *. intros c Hc. unfold is_code_char, Icd.is_suffix_char.
    rewrite (Hds c Hc). reflexivity. }
  rewrite Hd. simpl.
  destruct Htail as [->|(p & run & -> & Hp & _ & Hrun)]; [reflexivity|].
  simpl. unfold is_code_char at 1. rewrite Hp, orb_true_r. simpl.
  rewrite forallb_forall in *. intros c Hc. unfold is_code_char.
  rewrite (Hrun c Hc). reflexivity.
Qed.

Lemma code_shaped_trim t : code_shaped t = true -> trim t = t.
Proof.
  intros H. pose proof (code_shaped_chars t H) as Hchars.
  assert (Hns : forallb (fun c => negb (is_space c)) (explode t) = true).
  { rewrite forallb_forall in *. intros c Hc.
    rewrite (code_char_not_space c (Hchars c Hc)). reflexivity. }
  unfold trim. rewrite trim_chars_fixed; [apply implode_explode| |apply no_space_ends, Hns].
  destruct (explode t) as [|c l]; [exact I|].
  simpl in Hns. apply andb_true_iff in Hns. destruct Hns as [Hc _].
  apply negb_true_iff, Hc.
Qed.

Lemma scan_finds_code t pre post :
  code_shaped t = true -> closed_pre pre -> closed_after post ->
  In (explode t) (Icd.scan None 0 (pre ++ explode t ++ post)).
Proof.
  intros Ht Hpre Hpost.
  destruct (code_shaped_parts t Ht) as (u & ds & tail & Hparts & Hu & Hds & Hlen & Htail).
  assert (Hhere : forall prev, closed_before prev ->
                               In (explode t) (Icd.scan prev 0 (explode t ++ post))).
  { intros prev Hprev. rewrite Hparts at 2.
    change ((u :: ds ++ tail) ++ post) with (u :: (ds ++ tail) ++ post).
    rewrite scan_cons. rewrite <- app_assoc.
    rewrite (match_at_token prev u ds tail post Hprev Hu Hds Hlen Htail Hpost).
    left. symmetry. exact Hparts. }
  destruct Hpre as [->|(pre' & c & -> & Hc)].
  - apply Hhere. exact I.
  - rewrite <- app_assoc. simpl.
    apply (scan_after_comma pre' (explode t ++ post) c (explode t) Hc).
    + apply Hhere. exact Hc.
    + reflexivity.
Qed.

Lemma explode_join_from acc t :
  explode (fold_left (fun acc y => acc +:+ "," +:+ y) t acc)
  = explode acc ++ flat_map (fun y => comma :: explode y) t.
Proof.
  revert acc. induction t as [|y t IH]; simpl; intros acc.
  - rewrite app_nil_r. reflexivity.
  - rewrite IH, !explode_append. simpl. rewrite <- app_assoc. reflexivity.
Qed.

Lemma explode_join_with parts1 x parts2 :
  exists pre post,
    explode (join_with "," (parts1 ++ x :: parts2)) = pre ++ explode x ++ post
    /\ closed_pre pre /\ closed_after post.
Proof.
  assert (Hpost : closed_after (flat_map (fun y => comma :: explode y) parts2)).
  { destruct parts2; simpl; [exact I|reflexivity]. }
  destruct parts1 as [|x0 parts1]; simpl.
  - exists [], (flat_map (fun y => comma :: explode y) parts2).
    rewrite explode_join_from. split; [reflexivity|]. split; [left; reflexivity|exact Hpost].
  - exists ((explode x0 ++ flat_map (fun y => comma :: explode y) parts1) ++ [comma]),
      (flat_map (fun y => comma :: explode y) parts2).
    rewrite explode_join_from, flat_map_app. simpl.
    split; [|split; [|exact Hpost]].
    + rewrite <- app_assoc, <- app_assoc. reflexivity.
    + right. exists (explode x0 ++ flat_map (fun y => comma :: explode y) parts1), comma.
      split; reflexivity.
Qed.

Lemma map_outcome_app {A B} (f : A -> outcome B) l1 x l2 parts :
  map_outcome f (l1 ++ x :: l2) = Ok parts ->
  exists parts1 y parts2, parts = parts1 ++ y :: parts2 /\ f x = Ok y.
Proof.
  revert parts. induction l1 as [|a l1 IH]; simpl; intros parts H.
  - destruct (f x) as [y| |]; simpl in H; try discriminate.
    destruct (map_outcome f l2) as [ys| |]; simpl in H; try discriminate.
    injection H as <-. exists [], y, ys. auto.
  - destruct (f a) as [b| |]; simpl in H; try discriminate.
    destruct (map_outcome f (l1 ++ x :: l2)) as [ys| |] eqn:Hrest; simpl in H;
      try discriminate.
    injection H as <-. destruct (IH ys eq_refl) as (p1 & y & p2 & -> & Hy).
    exists (b :: p1), y, p2. auto.
Qed.

Lemma closed_pre_app pre1 pre2 : closed_pre pre1 -> closed_pre pre2 -> closed_pre (pre1 ++ pre2).
Proof.
  intros H1 [->|(p & c & -> & Hc)].
  - rewrite app_nil_r. exact H1.
  - right. exists (pre1 ++ p), c. rewrite app_assoc. auto.
Qed.

Lemma closed_after_app post1 post2 :
  closed_after post1 -> closed_after post2 -> closed_after (post1 ++ post2).
Proof. destruct post1; simpl; auto. Qed.

(** Where an element of a nested sequence lands in the text of the
    sequence: between commas. *)
Lemma to_text_element t v s :
  element_of t v -> to_text v = Ok s ->
  exists pre post, explode s = pre ++ explode t ++ post /\ closed_pre pre /\ closed_after post.
Proof.
  intros He. revert s. induction He as [|l x Hin He IH]; intros s Hs.
  - simpl in Hs. injection Hs as <-. exists [], []. rewrite app_nil_r.
    split; [reflexivity|]. split; [left; reflexivity|exact I].
  - simpl in Hs.
    destruct (map_outcome (fun x => if nullish x then Ok "" else to_text x) l)
      as [parts| |] eqn:Hparts; simpl in Hs; try discriminate.
    injection Hs as <-.
    destruct (in_split x l Hin) as (l1 & l2 & ->).
    destruct (map_outcome_app _ l1 x l2 parts Hparts) as (p1 & y & p2 & -> & Hy).
    assert (Hx : nullish x = false) by (destruct He; reflexivity).
    rewrite Hx in Hy. destruct (IH y Hy) as (pre & post & Hxy & Hpre & Hpost).
    destruct (explode_join_with p1 y p2) as (pre0 & post0 & Hjoin & Hpre0 & Hpost0).
    exists (pre0 ++ pre), (post ++ post0).
    rewrite Hjoin, Hxy, <- !app_assoc.
    split; [reflexivity|]. split; [apply closed_pre_app|apply closed_after_app]; assumption.
Qed.

Lemma element_truthy t v : element_of t v -> code_shaped t = true -> truthy v = true.
Proof.
  intros He Ht. destruct He; [|reflexivity]. simpl.
  destruct t; [discriminate Ht|reflexivity].
Qed.

(** The claim C5 at a field whose value is a mapping: the code inside it is
    not collected. *)
Lemma highlightCodes_misses_mapping_field :
  ~ In "J20" (highlightCodes (VObj [("Patient Name", VStr "A");
                                    ("Primary", VObj [("code", VStr "J20")])])).
Proof. vm_compute. intros H. exact H. Qed.

(** C5, amended: [highlightCodes] converts every field value with
    [String(v || "")] and collects the trimmed matches of the code pattern
    in those texts, and nothing else; a field whose conversion raises is
    skipped.  A sequence converts to the comma-joined texts of its elements,
    nested sequences included, so a code that is an element of a field
    value, at any depth of nested sequences, is collected; a mapping
    converts to the fixed text ["[object Object]"], in which the pattern
    finds nothing, so a code inside a mapping is not. *)
Theorem highlightCodes_collects_text_matches :
  (forall (patient : value) (code : string),
      In code (highlightCodes patient)
      <-> exists v s, In v (own_values (patient ?| VObj []))
                      /\ to_text (v ?| VStr "") = Ok s
                      /\ In code (map trim (Icd.matches s)))
  /\ (forall (patient v : value) (code s : string),
        In v (own_values (patient ?| VObj [])) ->
        element_of code v -> code_shaped code = true ->
        to_text v = Ok s ->
        In code (highlightCodes patient))
  /\ (forall o : object,
        has_own o "toString" = false ->
        to_text (VObj o ?| VStr "") = Ok "[object Object]")
  /\ Icd.matches "[object Object]" = []
  /\ highlightCodes (VObj [("Patient Name", VStr "A");
                           ("Notes", VArr [VArr [VStr "J20"; VNull]; VStr "see I10.1, J20"])])
     = ["J20"; "I10.1"].
Proof.
  assert (Hiff : forall (patient : value) (code : string),
             In code (highlightCodes patient)
             <-> exists v s, In v (own_values (patient ?| VObj []))
                             /\ to_text (v ?| VStr "") = Ok s
                             /\ In code (map trim (Icd.matches s))).
  { intros patient code. unfold highlightCodes.
    rewrite In_fold_highlight_field. simpl. tauto. }
  split; [exact Hiff|]. split; [|split; [|split]].
  - intros patient v code s Hv He Hcode Hs. apply Hiff. exists v, s.
    split; [exact Hv|]. unfold or_else. rewrite (element_truthy code v He Hcode).
    split; [exact Hs|].
    destruct (to_text_element code v s He Hs) as (pre & post & Hsplit & Hpre & Hpost).
    rewrite <- (code_shaped_trim code Hcode). apply in_map.
    unfold Icd.matches. rewrite <- (implode_explode code). apply in_map.
    rewrite Hsplit. apply scan_finds_code; assumption.
  - intros o Ho. simpl. rewrite Ho. reflexivity.
  - vm_compute. reflexivity.
  - vm_compute. reflexivity.
Qed.

Lemma highlightCodes_collects_text_matches_witness :
  In "E11.9" (highlightCodes (VObj [("Dx", VArr [VStr "E11.9"])]))
  /\ In "I10" (highlightCodes (VObj [("Dx", VArr [VStr "x"; VArr [VNum 4; VStr "I10"]])]))
  /\ to_text (VObj [("code", VStr "J20")] ?| VStr "") = Ok "[object Object]".
Proof.
  split; [|split].
  - apply (proj1 highlightCodes_collects_text_matches).
    exists (VArr [VStr "E11.9"]), "E11.9". vm_compute. auto.
  - apply (proj1 (proj2 highlightCodes_collects_text_matches)
             (VObj [("Dx", VArr [VStr "x"; VArr [VNum 4; VStr "I10"]])])
             (VArr [VStr "x"; VArr [VNum 4; VStr "I10"]]) "I10" "x,4,I10").
    + simpl. auto.
    + apply (element_inside "I10" _ (VArr [VNum 4; VStr "I10"])); [simpl; auto|].
      apply (element_inside "I10" _ (VStr "I10")); [simpl; auto|].
      apply element_here.
    + reflexivity.
    + reflexivity.
  - apply (proj1 (proj2 (proj2 highlightCodes_collects_text_matches))). reflexivity.
Defined.

(** ** Reconciliation and assembly on the store *)

Module HeapFacts.
Import Heap.

Lemma hoare_bind n (R1 R2 R3 : heap -> heap -> Prop) {A B}
    (m : M A) (f : A -> M B) (P : A -> Prop) (Q : B -> Prop) :
  (forall h, R1 h h) ->
  (forall h1 h2 h3, R1 h1 h2 -> R2 h2 h3 -> R3 h1 h3) ->
  (forall h1 h2, R1 h1 h2 -> R3 h1 h2) ->
  hoare n R1 m P ->
  (forall a, P a -> hoare n R2 (f a) Q) ->
  hoare n R3 (hbind m f) Q.
Proof.
  intros Hrefl Hcomp Hweak Hm Hf h Hn. unfold hbind.
  destruct (Hm h Hn) as [Hlen [HR HP]].
  destruct (m h) as [h' [a| |]] eqn:Hrun; simpl in *.
  - destruct (Hf a (HP a eq_refl) h' Hlen) as [Hlen' [HR' HQ]].
    split; [exact Hlen'|]. split; [eapply Hcomp; eassumption|exact HQ].
  - split; [exact Hlen|]. split; [apply Hweak, HR|]. intros a H. discriminate H.
  - split; [exact Hlen|]. split; [apply Hweak, HR|]. intros a H. discriminate H.
Qed.

Lemma same_below_refl n h : same_below n h h.
Proof. intros l _. reflexivity. Qed.

Lemma same_below_trans n h1 h2 h3 :
  same_below n h1 h2 -> same_below n h2 h3 -> same_below n h1 h3.
Proof. intros H12 H23 l Hl. rewrite (H23 l Hl). apply H12, Hl. Qed.

Lemma frames_bind n {A B} (m : M A) (f : A -> M B) (P : A -> Prop) (Q : B -> Prop) :
  frames n m P -> (forall a, P a -> frames n (f a) Q) -> frames n (hbind m f) Q.
Proof.
  apply hoare_bind; auto using same_below_refl.
  apply same_below_trans.
Qed.

Lemma frames_weaken n {A} (m : M A) (P Q : A -> Prop) :
  frames n m P -> (forall a, P a -> Q a) -> frames n m Q.
Proof.
  intros Hm HPQ h Hn. destruct (Hm h Hn) as [Hlen [HR HP]].
  repeat split; auto.
Qed.

Lemma frames_ret n {A} (a : A) (Q : A -> Prop) : Q a -> frames n (ret a) Q.
Proof.
  intros HQ h Hn. simpl. split; [exact Hn|]. split; [apply same_below_refl|].
  intros a' H. injection H as <-. exact HQ.
Qed.

Lemma frames_lift n {A} (o : outcome A) : frames n (lift o) (fun a => o = Ok a).
Proof.
  intros h Hn. simpl. split; [exact Hn|]. split; [apply same_below_refl|]. auto.
Qed.

Lemma frames_load n l : frames n (load l) (fun _ => True).
Proof.
  intros h Hn. simpl. split; [exact Hn|]. split; [apply same_below_refl|]. auto.
Qed.

Lemma frames_snapshot n v : frames n (snapshot v) (fun _ => True).
Proof.
  intros h Hn. simpl. split; [exact Hn|]. split; [apply same_below_refl|]. auto.
Qed.

Lemma frames_alloc n c : frames n (alloc c) (fun l => (n <= l)%nat).
Proof.
  intros h Hn. simpl. rewrite length_app. simpl. split; [lia|]. split.
  - intros l Hl. apply lookup_app_l. lia.
  - intros a H. injection H as <-. exact Hn.
Qed.

Lemma frames_store n l c : (n <= l)%nat -> frames n (store l c) (fun _ => True).
Proof.
  intros Hl h Hn. simpl. rewrite length_insert. split; [exact Hn|]. split; [|auto].
  intros l' Hl'. apply list_lookup_insert_ne. lia.
Qed.

(** Computations that only read, or only allocate. *)
Ltac frame_step :=
  first
    [ apply frames_ret; try exact I
    | eapply frames_bind; [|intros ? ?]
    | eapply frames_weaken; [apply frames_load|auto]
    | eapply frames_weaken; [apply frames_lift|auto]
    | eapply frames_weaken; [apply frames_snapshot|auto]
    | eapply frames_weaken; [apply frames_alloc|auto] ].

Lemma frames_new_array n items : frames n (new_array items) (fun _ => True).
Proof. unfold new_array. eapply frames_bind; [apply frames_alloc|]. intros; frame_step. Qed.

Lemma frames_new_object n props : frames n (new_object props) (fun _ => True).
Proof. unfold new_object. eapply frames_bind; [apply frames_alloc|]. intros; frame_step. Qed.

Lemma frames_as_array n v : frames n (as_array v) (fun _ => True).
Proof.
  destruct v; simpl; try (apply frames_ret; exact I).
  eapply frames_bind; [apply frames_load|]. intros; frame_step.
Qed.

Lemma frames_own_entries n v : frames n (own_entries v) (fun _ => True).
Proof.
  destruct v; simpl; try (apply frames_ret; exact I).
  eapply frames_bind; [apply frames_load|]. intros; frame_step.
Qed.

Lemma frames_get_prop n v k : frames n (get_prop v k) (fun _ => True).
Proof.
  unfold get_prop.
  destruct v;
    first [ eapply frames_weaken; [apply frames_lift|auto]
          | eapply frames_bind; [apply frames_own_entries|intros; frame_step] ].
Qed.

Lemma frames_probe n r keys d : frames n (probe r keys d) (fun _ => True).
Proof.
  induction keys as [|k ks IH]; simpl; [frame_step|].
  eapply frames_bind; [apply frames_get_prop|]. intros v _.
  destruct (nullish v); [exact IH|frame_step].
Qed.

Lemma frames_probe_truthy n r keys d :
  frames n d (fun _ => True) -> frames n (probe_truthy r keys d) (fun _ => True).
Proof.
  intros Hd. induction keys as [|k ks IH]; simpl; [exact Hd|].
  eapply frames_bind; [apply frames_get_prop|]. intros v _.
  destruct (truthy v); [frame_step|exact IH].
Qed.

Lemma frames_load_object n l : frames n (load_object l) (fun _ => True).
Proof.
  unfold load_object. eapply frames_bind; [apply frames_load|]. intros c _.
  destruct c; [eapply frames_weaken; [apply frames_lift|auto]|frame_step].
Qed.

Lemma frames_write_prop n target k v :
  (n <= target)%nat -> frames n (write_prop target k v) (fun _ => True).
Proof.
  intros Ht. unfold write_prop. eapply frames_bind; [apply frames_load|].
  intros c _. destruct c as [items named|o]; [|apply frames_store, Ht].
  destruct (array_index k); [eapply frames_weaken; [apply frames_lift|auto]|].
  destruct (String.eqb k "length"); [eapply frames_weaken; [apply frames_lift|auto]|].
  apply frames_store, Ht.
Qed.

Lemma frames_wrap_rows n clone k :
  (n <= clone)%nat -> frames n (wrap_rows clone k) (fun _ => True).
Proof.
  intros Hc. unfold wrap_rows.
  eapply frames_bind; [apply frames_get_prop|]. intros v _.
  eapply frames_bind; [apply frames_as_array|]. intros arr _.
  destruct arr; [frame_step|]. destruct (truthy v); [|frame_step].
  eapply frames_bind; [apply frames_new_array|]. intros w _.
  apply frames_write_prop, Hc.
Qed.

Lemma frames_first_clone n p : frames n (first_clone p) (fun clone => (n <= clone)%nat).
Proof.
  unfold first_clone.
  eapply frames_bind; [apply frames_own_entries|]. intros entries _.
  eapply frames_bind; [apply frames_alloc|]. intros clone Hc.
  eapply frames_bind; [apply frames_wrap_rows, Hc|]. intros _ _.
  eapply frames_bind; [apply frames_wrap_rows, Hc|]. intros _ _.
  apply frames_ret, Hc.
Qed.

Lemma frames_read_computed n existing k :
  frames n (read_computed existing k) (fun _ => True).
Proof.
  unfold read_computed. eapply frames_bind; [apply frames_load_object|]. intros o _.
  destruct (lookup_prop o k); [frame_step|].
  destruct (inherited_name k); [eapply frames_weaken; [apply frames_lift|auto]|frame_step].
Qed.

Lemma frames_merge_field n p existing k :
  (n <= existing)%nat -> frames n (merge_field p existing k) (fun _ => True).
Proof.
  intros He. unfold merge_field.
  eapply frames_bind; [apply frames_get_prop|]. intros val _.
  eapply frames_bind; [apply frames_read_computed|]. intros e _.
  destruct (is_placeholder e && truthy val); [apply frames_write_prop, He|].
  eapply frames_bind; [apply frames_as_array|]. intros ea _.
  eapply frames_bind; [apply frames_as_array|]. intros va _.
  destruct ea as [a|], va as [b|].
  - eapply frames_bind; [apply frames_new_array|]. intros; apply frames_write_prop, He.
  - destruct (truthy val); [|frame_step].
    eapply frames_bind; [apply frames_new_array|]. intros _ _.
    eapply frames_bind; [apply frames_new_array|]. intros; apply frames_write_prop, He.
  - eapply frames_bind; [apply frames_new_array|]. intros _ _.
    eapply frames_bind; [apply frames_new_array|]. intros; apply frames_write_prop, He.
  - frame_step.
Qed.

Lemma frames_for_each n {A} (f : A -> M unit) l :
  (forall x, frames n (f x) (fun _ => True)) ->
  frames n (for_each f l) (fun _ => True).
Proof.
  intros Hf. induction l as [|x t IH]; simpl; [frame_step|].
  eapply frames_bind; [apply Hf|]. intros _ _. exact IH.
Qed.

Lemma fresh_map_get n m key existing :
  fresh_map n m -> map_get m key = Some existing -> (n <= existing)%nat.
Proof.
  intros Hm Hget. apply lookup_prop_In in Hget.
  unfold fresh_map in Hm. rewrite Forall_forall in Hm.
  apply (Hm (key, existing)), list_elem_of_In, Hget.
Qed.

Lemma frames_reconcile_step n m p :
  fresh_map n m -> frames n (reconcile_step m p) (fresh_map n).
Proof.
  intros Hm. unfold reconcile_step.
  eapply frames_bind; [apply frames_snapshot|]. intros pv _.
  eapply frames_bind; [apply frames_lift|]. intros key _.
  destruct (map_get m key) as [existing|] eqn:Hget.
  - eapply frames_bind; [apply frames_own_entries|]. intros entries _.
    eapply frames_bind.
    + apply frames_for_each. intros k.
      apply frames_merge_field. eapply fresh_map_get; eassumption.
    + intros _ _. apply frames_ret, Hm.
  - eapply frames_bind; [apply frames_first_clone|]. intros clone Hc.
    apply frames_ret. apply Forall_app. split; [exact Hm|].
    constructor; [exact Hc|constructor].
Qed.

Lemma frames_fold_reconcile n ps m :
  fresh_map n m -> frames n (fold_m reconcile_step ps m) (fresh_map n).
Proof.
  revert m. induction ps as [|p t IH]; simpl; intros m Hm.
  - apply frames_ret, Hm.
  - eapply frames_bind; [apply frames_reconcile_step, Hm|]. intros m' Hm'.
    apply IH, Hm'.
Qed.

Lemma frames_dedupeAndMergePatients n patients :
  frames n (dedupeAndMergePatients patients) (fun _ => True).
Proof.
  unfold dedupeAndMergePatients.
  eapply frames_bind; [apply frames_as_array|]. intros arr _.
  destruct arr as [ps|]; [|apply frames_new_array].
  eapply frames_bind; [apply frames_fold_reconcile; constructor|]. intros m _.
  apply frames_new_array.
Qed.

Lemma frames_array_or_empty n x : frames n (array_or_empty x) (fun _ => True).
Proof.
  unfold array_or_empty. eapply frames_bind; [apply frames_as_array|]. intros a _.
  destruct a; [frame_step|apply frames_new_array].
Qed.

Lemma frames_legacy_proc_row n r : frames n (legacy_proc_row r) (fun _ => True).
Proof.
  unfold legacy_proc_row. eapply frames_bind; [apply frames_as_array|]. intros a _.
  destruct a; [frame_step|].
  do 3 (eapply frames_bind; [apply frames_probe|]; intros ? _).
  apply frames_new_array.
Qed.

Lemma frames_legacy_diag_row n r : frames n (legacy_diag_row r) (fun _ => True).
Proof.
  unfold legacy_diag_row. eapply frames_bind; [apply frames_as_array|]. intros a _.
  destruct a; [frame_step|].
  do 3 (eapply frames_bind; [apply frames_probe|]; intros ? _).
  apply frames_new_array.
Qed.

Lemma frames_map_m n {A B} (f : A -> M B) l :
  (forall x, frames n (f x) (fun _ => True)) ->
  frames n (map_m f l) (fun _ => True).
Proof.
  intros Hf. induction l as [|x t IH]; simpl; [frame_step|].
  eapply frames_bind; [apply Hf|]. intros y _.
  eapply frames_bind; [exact IH|]. intros; frame_step.
Qed.

Lemma frames_map_rows n f x :
  (forall r, frames n (f r) (fun _ => True)) ->
  frames n (map_rows f x) (fun _ => True).
Proof.
  intros Hf. unfold map_rows. eapply frames_bind; [apply frames_as_array|]. intros a _.
  destruct a; [|apply frames_new_array].
  eapply frames_bind; [apply frames_map_m, Hf|]. intros; apply frames_new_array.
Qed.

Lemma frames_make_item n a b c d e : frames n (make_item a b c d e) (fun _ => True).
Proof. apply frames_new_object. Qed.

Lemma stamped_of_same name n h h' : same_below n h h' -> stamped_below name n h h'.
Proof. intros H l Hl. left. apply H, Hl. Qed.

Lemma stamped_after_same name n h1 h2 h3 :
  same_below n h1 h2 -> stamped_below name n h2 h3 -> stamped_below name n h1 h3.
Proof.
  intros H12 H23 l Hl. rewrite <- (H12 l Hl). apply H23, Hl.
Qed.

Lemma same_after_stamped name n h1 h2 h3 :
  stamped_below name n h1 h2 -> same_below n h2 h3 -> stamped_below name n h1 h3.
Proof.
  intros H12 H23 l Hl. rewrite (H23 l Hl). apply H12, Hl.
Qed.

Lemma stamped_of_frames name n {A} (m : M A) Q :
  frames n m Q -> hoare n (stamped_below name n) m Q.
Proof.
  intros Hm h Hn. destruct (Hm h Hn) as [Hlen [HR HQ]].
  repeat split; auto. apply stamped_of_same, HR.
Qed.

Lemma stamped_bind_l name n {A B} (m : M A) (f : A -> M B) P Q :
  frames n m P -> (forall a, P a -> hoare n (stamped_below name n) (f a) Q) ->
  hoare n (stamped_below name n) (hbind m f) Q.
Proof.
  apply hoare_bind.
  - apply same_below_refl.
  - apply stamped_after_same.
  - apply stamped_of_same.
Qed.

Lemma stamped_bind_r name n {A B} (m : M A) (f : A -> M B) P Q :
  hoare n (stamped_below name n) m P -> (forall a, P a -> frames n (f a) Q) ->
  hoare n (stamped_below name n) (hbind m f) Q.
Proof.
  apply hoare_bind.
  - intros h. apply stamped_of_same, same_below_refl.
  - apply same_after_stamped.
  - auto.
Qed.

Lemma stamped_write_file_name name n l :
  hoare n (stamped_below name n) (write_prop l "File Name" (HStr name)) (fun _ => True).
Proof.
  intros h Hn. unfold write_prop, hbind, load, store, lift, ret.
  destruct (h !! l) as [c|] eqn:Hl; simpl;
    [|split; [exact Hn|]; split; [apply stamped_of_same, same_below_refl|auto]].
  assert (Hwrite : forall c',
             stamped name c c' ->
             (n <= length (<[l := c']> h))%nat
             /\ stamped_below name n h (<[l := c']> h)
             /\ forall a : unit, Ok tt = Ok a -> True).
  { intros c' Hc'. rewrite length_insert. split; [exact Hn|]. split; [|auto].
    intros l' _. destruct (Nat.eq_dec l l') as [<-|Hne].
    - right. exists c, c'. split; [exact Hl|]. split; [|exact Hc'].
      apply list_lookup_insert_eq. eapply lookup_lt_Some, Hl.
    - left. apply list_lookup_insert_ne, Hne. }
  destruct c as [items named|o]; simpl; apply Hwrite; reflexivity.
Qed.

Lemma stamped_stamp_file_name name n meta :
  hoare n (stamped_below name n) (stamp_file_name meta name) (fun _ => True).
Proof.
  unfold stamp_file_name.
  eapply stamped_bind_l; [apply frames_get_prop|]. intros f _.
  destruct (truthy f); [apply stamped_of_frames, frames_ret; exact I|].
  destruct meta; try (apply stamped_of_frames; eapply frames_weaken;
                      [apply frames_lift|auto]).
  apply stamped_write_file_name.
Qed.

Lemma stamped_buildItemFromResponse name n resData :
  hoare n (stamped_below name n) (buildItemFromResponse resData name) (fun _ => True).
Proof.
  unfold buildItemFromResponse.
  destruct (negb (truthy resData)).
  { apply stamped_of_frames.
    eapply frames_bind; [apply frames_new_array|]. intros pats _.
    do 3 (eapply frames_bind; [apply frames_new_object|]; intros ? _).
    apply frames_make_item. }
  eapply stamped_bind_l; [apply frames_probe_truthy; frame_step|]. intros canonical _.
  destruct (truthy canonical).
  { apply stamped_of_frames.
    eapply frames_bind; [apply frames_probe_truthy; frame_step|]. intros fname _.
    eapply frames_bind; [apply frames_get_prop|]. intros pats0 _.
    eapply frames_bind; [apply frames_array_or_empty|]. intros pats _.
    do 3 (eapply frames_bind;
          [apply frames_probe_truthy, frames_new_object|]; intros ? _).
    apply frames_make_item. }
  eapply stamped_bind_l; [apply frames_probe_truthy; frame_step|]. intros legacy _.
  destruct (truthy legacy).
  { apply stamped_of_frames.
    eapply frames_bind; [apply frames_get_prop|]. intros billing _.
    eapply frames_bind; [apply frames_map_rows, frames_legacy_proc_row|]. intros prows _.
    eapply frames_bind; [apply frames_new_object|]. intros procs _.
    eapply frames_bind; [apply frames_get_prop|]. intros codes _.
    eapply frames_bind; [apply frames_map_rows, frames_legacy_diag_row|]. intros drows _.
    eapply frames_bind; [apply frames_new_object|]. intros diags _.
    eapply frames_bind; [apply frames_probe_truthy; frame_step|]. intros fname _.
    eapply frames_bind; [apply frames_get_prop|]. intros pats0 _.
    eapply frames_bind; [apply frames_array_or_empty|]. intros pats _.
    eapply frames_bind; [apply frames_probe_truthy, frames_new_object|]. intros meta _.
    apply frames_make_item. }
  eapply stamped_bind_l; [apply frames_probe_truthy; frame_step|]. intros meta _.
  eapply stamped_bind_r; [apply stamped_stamp_file_name|]. intros _ _.
  eapply frames_bind; [apply frames_get_prop|]. intros fname _.
  eapply frames_bind; [apply frames_new_array|]. intros pats _.
  do 2 (eapply frames_bind; [apply frames_new_object|]; intros ? _).
  apply frames_make_item.
Qed.

(** What a clone shares with the record it was made from. *)
Lemma wrap_rows_other_fields clone k h props :
  h !! clone = Some (CObj props) ->
  snd (wrap_rows clone k h) = Ok tt ->
  exists props',
    fst (wrap_rows clone k h) !! clone = Some (CObj props')
    /\ forall k', k' <> k -> lookup_prop props' k' = lookup_prop props k'.
Proof.
  intros Hclone. unfold wrap_rows, get_prop, own_entries, hbind, load, ret.
  rewrite Hclone. simpl.
  remember (default HUndef (lookup_prop props k)) as v eqn:Hv.
  assert (Hkeep : exists props',
             h !! clone = Some (CObj props')
             /\ forall k', k' <> k -> lookup_prop props' k' = lookup_prop props k').
  { exists props. split; [exact Hclone|reflexivity]. }
  assert (Hwrite : truthy v = true ->
            exists props',
              fst (write_prop clone k (HRef (length h)) (h ++ [CArr [v] []])) !! clone
              = Some (CObj props')
              /\ forall k', k' <> k -> lookup_prop props' k' = lookup_prop props k').
  { intros Ht. unfold write_prop, hbind, load, store, ret.
    rewrite (lookup_app_l_Some _ _ _ _ Hclone). simpl.
    exists (assign_prop props k (HRef (length h))). split.
    - apply list_lookup_insert_eq. rewrite length_app.
      apply lookup_lt_Some in Hclone. lia.
    - intros k' Hne. rewrite lookup_assign_prop.
      + destruct (eqb_string_spec k k') as [->|_]; [congruence|reflexivity].
      + left. unfold has_own. destruct (lookup_prop props k); [reflexivity|].
        subst v. discriminate Ht. }
  clear Hv. unfold as_array.
  destruct v as [| |b|n|s|l]; simpl; try (intros _; exact Hkeep).
  - destruct b; simpl; [intros _; apply Hwrite; reflexivity|intros _; exact Hkeep].
  - destruct (negb (n =? 0)) eqn:Hn; simpl;
      [intros _; apply Hwrite; exact Hn|intros _; exact Hkeep].
  - destruct (negb (String.eqb s "")) eqn:Hs; simpl;
      [intros _; apply Hwrite; exact Hs|intros _; exact Hkeep].
  - unfold hbind, load, ret. destruct (h !! l) as [[items named|o]|]; simpl;
      try (intros _; exact Hkeep); try discriminate.
    intros _. apply Hwrite. reflexivity.
Qed.

Lemma hbind_run {A B} (m : M A) (f : A -> M B) h :
  hbind m f h
  = match m h with
    | (h', Ok a) => f a h'
    | (h', Throw) => (h', Throw)
    | (h', Unmodelled) => (h', Unmodelled)
    end.
Proof. reflexivity. Qed.

Lemma first_clone_shares_fields h lp props clone :
  h !! lp = Some (CObj props) ->
  snd (first_clone (HRef lp) h) = Ok clone ->
  exists props',
    fst (first_clone (HRef lp) h) !! clone = Some (CObj props')
    /\ forall k,
         k <> "Procedure / Billing (All Tables)" -> k <> "Diagnosis (All Tables)" ->
         lookup_prop props' k = lookup_prop props k.
Proof.
  intros Hp.
  assert (Hentries : own_entries (HRef lp) h = (h, Ok props)).
  { unfold own_entries, hbind, load, ret. rewrite Hp. reflexivity. }
  assert (Hc : (h ++ [CObj props]) !! length h = Some (CObj props)).
  { rewrite lookup_app_r by lia. rewrite Nat.sub_diag. reflexivity. }
  unfold first_clone. rewrite hbind_run, Hentries, hbind_run.
  change (alloc (CObj props) h) with (h ++ [CObj props], Ok (length h)).
  cbv beta iota. rewrite hbind_run.
  pose proof (wrap_rows_other_fields (length h) "Procedure / Billing (All Tables)"
                _ props Hc) as H1.
  destruct (wrap_rows (length h) "Procedure / Billing (All Tables)" (h ++ [CObj props]))
    as [h1 [[]| |]]; simpl in H1; try (simpl; discriminate).
  destruct (H1 eq_refl) as [props1 [Hc1 Hsame1]].
  rewrite hbind_run.
  pose proof (wrap_rows_other_fields (length h) "Diagnosis (All Tables)" _ props1 Hc1) as H2.
  destruct (wrap_rows (length h) "Diagnosis (All Tables)" h1)
    as [h2 [[]| |]]; simpl in H2; try (simpl; discriminate).
  destruct (H2 eq_refl) as [props2 [Hc2 Hsame2]].
  simpl. intros Hclone. injection Hclone as <-.
  exists props2. split; [exact Hc2|].
  intros k Hk1 Hk2. rewrite (Hsame2 k Hk2). apply Hsame1, Hk1.
Qed.

Lemma text_of_nat_head n :
  match explode (text_of_nat n) with
  | c :: _ => is_digit c = true
  | [] => False
  end.
Proof.
  unfold text_of_nat, NilZero.string_of_uint. destruct (Nat.to_uint n); reflexivity.
Qed.

Lemma lookup_index_entries_named {V} (items : list V) n k :
  named_key k -> lookup_prop (index_entries n items) k = None.
Proof.
  intros Hk. revert n. induction items as [|v t IH]; intros n; [reflexivity|].
  simpl. destruct (eqb_string_spec (text_of_nat n) k) as [<-|_]; [|apply IH].
  pose proof (text_of_nat_head n) as Hd. unfold named_key in Hk.
  destruct (explode (text_of_nat n)); [contradiction|congruence].
Qed.

Lemma get_prop_array_named h l items named k :
  h !! l = Some (CArr items named) -> named_key k ->
  get_prop (HRef l) k h = (h, Ok (default HUndef (lookup_prop named k))).
Proof.
  intros Hl Hk. unfold get_prop, own_entries, hbind, load, ret. rewrite Hl. simpl.
  rewrite lookup_prop_app, (lookup_index_entries_named items 0 k Hk). reflexivity.
Qed.

Lemma hbind_ok {A B} (m : M A) (f : A -> M B) h h' a :
  m h = (h', Ok a) -> hbind m f h = f a h'.
Proof. intros H. unfold hbind. rewrite H. reflexivity. Qed.

Lemma probe_truthy_array_named h l items keys d :
  h !! l = Some (CArr items []) -> Forall named_key keys ->
  probe_truthy (HRef l) keys d h = d h.
Proof.
  intros Hl Hkeys. induction Hkeys as [|k ks Hk _ IH]; [reflexivity|].
  simpl. rewrite (hbind_ok _ _ h h HUndef); [exact IH|].
  apply (get_prop_array_named h l items [] k Hl Hk).
Qed.

Lemma alloc_run c h : alloc c h = (h ++ [c], Ok (length h)).
Proof. reflexivity. Qed.

Lemma new_array_run items h : new_array items h = (h ++ [CArr items []], Ok (HRef (length h))).
Proof. reflexivity. Qed.

Lemma new_object_run props h : new_object props h = (h ++ [CObj props], Ok (HRef (length h))).
Proof. reflexivity. Qed.

(** The payload is an array, as the unrecognised payload [[]] is: the
    file name becomes a property of the array. *)
Lemma buildItemFromResponse_stamps_array h items l name :
  h !! l = Some (CArr items []) ->
  buildItemFromResponse (HRef l) name h
  = (<[l := CArr items [("File Name", HStr name)]]> h
       ++ [CArr [] []; CObj []; CObj [];
           CObj [("file_name", HStr name); ("patients", HRef (length h));
                 ("procedure_tables", HRef (S (length h)));
                 ("diagnosis_tables", HRef (S (S (length h))));
                 ("metadata", HRef l)]],
     Ok (HRef (S (S (S (length h)))))).
Proof.
  intros Hl.
  set (h1 := <[l := CArr items [("File Name", HStr name)]]> h).
  assert (Hl1 : h1 !! l = Some (CArr items [("File Name", HStr name)])).
  { apply list_lookup_insert_eq. eapply lookup_lt_Some, Hl. }
  assert (Hlen : length h1 = length h) by apply length_insert.
  assert (Hstamp : stamp_file_name (HRef l) name h = (h1, Ok tt)).
  { unfold stamp_file_name.
    rewrite (hbind_ok _ _ h h HUndef)
      by (apply (get_prop_array_named h l items [] "File Name" Hl); reflexivity).
    change (truthy HUndef) with false. cbv iota.
    unfold write_prop. rewrite (hbind_ok _ _ h h (CArr items []))
      by (unfold load; rewrite Hl; reflexivity).
    reflexivity. }
  unfold buildItemFromResponse. change (negb (truthy (HRef l))) with false. cbv iota.
  rewrite (hbind_ok _ _ h h HUndef)
    by (rewrite (probe_truthy_array_named h l items _ _ Hl); [reflexivity|];
        repeat constructor).
  change (truthy HUndef) with false. cbv iota.
  rewrite (hbind_ok _ _ h h HUndef)
    by (rewrite (probe_truthy_array_named h l items _ _ Hl); [reflexivity|];
        repeat constructor).
  change (truthy HUndef) with false. cbv iota.
  rewrite (hbind_ok _ _ h h (HRef l))
    by (rewrite (probe_truthy_array_named h l items _ _ Hl); [reflexivity|];
        repeat constructor).
  rewrite (hbind_ok _ _ h h1 tt Hstamp).
  rewrite (hbind_ok _ _ h1 h1 (HStr name))
    by (apply (get_prop_array_named h1 l items [("File Name", HStr name)] "File Name" Hl1);
        reflexivity).
  rewrite (hbind_ok _ _ _ _ _ (new_array_run _ _)).
  rewrite (hbind_ok _ _ _ _ _ (new_object_run _ _)).
  rewrite (hbind_ok _ _ _ _ _ (new_object_run _ _)).
  unfold make_item. rewrite new_object_run.
  rewrite !length_app, Hlen. simpl length.
  replace (length h + 1)%nat with (S (length h)) by lia.
  replace (S (length h) + 1)%nat with (S (S (length h))) by lia.
  replace (S (S (length h)) + 1)%nat with (S (S (S (length h)))) by lia.
  rewrite <- !app_assoc. reflexivity.
Qed.

End HeapFacts.

(** The claim C6 at an empty payload, and at a payload with one patient who
    carries a list of diagnoses: assembly writes into the payload, and the
    reconciled patient shares the list with the raw record. *)
Lemma transform_writes_and_shares :
  ~ Heap.unchanged [Heap.CObj []]
      (fst (Heap.buildItemFromResponse (Heap.HRef 0) "scan.pdf" [Heap.CObj []]))
  /\ match Heap.dedupeAndMergePatients (Heap.HRef 2)
             [Heap.CArr [Heap.HStr "x"] [];
              Heap.CObj [("Patient Name", Heap.HStr "A"); ("Diagnosis", Heap.HRef 0)];
              Heap.CArr [Heap.HRef 1] [];
              Heap.CObj [("patients", Heap.HRef 2)]]
     with
     | (h', Ok result) =>
         ~ Heap.disjoint_from
             [Heap.CArr [Heap.HStr "x"] [];
              Heap.CObj [("Patient Name", Heap.HStr "A"); ("Diagnosis", Heap.HRef 0)];
              Heap.CArr [Heap.HRef 1] [];
              Heap.CObj [("patients", Heap.HRef 2)]]
             h' result
     | _ => False
     end.
Proof.
  split.
  - intros H. specialize (H 0%nat). simpl in H.
    assert (Hlt : (0 < 1)%nat) by lia. specialize (H Hlt).
    vm_compute in H. discriminate H.
  - vm_compute. intros H. specialize (H 0%nat). simpl in H.
    assert (Hin : (4 <= 0)%nat) by (apply H; auto 10). lia.
Qed.

(** C6, amended: the reconciler never writes into a cell that existed
    before it ran: the raw records, the sequences and mappings inside them
    and the payload are as they were, and every write goes to a copy made
    during the run.  The copies are shallow: apart from the two fields it
    may wrap, the copy of a raw record holds the very values of the record,
    so what the record holds by reference is shared.  The assembler changes
    a cell that existed at most by assigning the file name to its field
    ["File Name"], as it does to a payload it does not recognise, or to the
    metadata of such a payload, be it a mapping or a sequence. *)
Theorem reconcile_frames_raw_input :
  (forall (h : Heap.heap) (patients : Heap.hvalue),
      Heap.unchanged h (fst (Heap.dedupeAndMergePatients patients h)))
  /\ (forall (h : Heap.heap) (record : nat) (props : list (string * Heap.hvalue)) (clone : nat),
        h !! record = Some (Heap.CObj props) ->
        snd (Heap.first_clone (Heap.HRef record) h) = Ok clone ->
        (length h <= clone)%nat
        /\ exists props',
             fst (Heap.first_clone (Heap.HRef record) h) !! clone = Some (Heap.CObj props')
             /\ forall k,
                  k <> "Procedure / Billing (All Tables)" -> k <> "Diagnosis (All Tables)" ->
                  lookup_prop props' k = lookup_prop props k)
  /\ (forall (h : Heap.heap) (resData : Heap.hvalue) (name : string) (l : nat),
        (l < length h)%nat ->
        fst (Heap.buildItemFromResponse resData name h) !! l = h !! l
        \/ exists c c',
             h !! l = Some c
             /\ fst (Heap.buildItemFromResponse resData name h) !! l = Some c'
             /\ Heap.stamped name c c')
  /\ (forall (h : Heap.heap) (items : list Heap.hvalue) (l : nat) (name : string),
        h !! l = Some (Heap.CArr items []) ->
        Heap.buildItemFromResponse (Heap.HRef l) name h
        = (<[l := Heap.CArr items [("File Name", Heap.HStr name)]]> h
             ++ [Heap.CArr [] []; Heap.CObj []; Heap.CObj [];
                 Heap.CObj [("file_name", Heap.HStr name);
                            ("patients", Heap.HRef (length h));
                            ("procedure_tables", Heap.HRef (S (length h)));
                            ("diagnosis_tables", Heap.HRef (S (S (length h))));
                            ("metadata", Heap.HRef l)]],
           Ok (Heap.HRef (S (S (S (length h))))))).
Proof.
  split; [|split; [|split]].
  - intros h patients.
    destruct (HeapFacts.frames_dedupeAndMergePatients (length h) patients h (le_n _))
      as [_ [Hsame _]].
    exact Hsame.
  - intros h record props clone Hrecord Hrun. split.
    + destruct (HeapFacts.frames_first_clone (length h) (Heap.HRef record) h (le_n _))
        as [_ [_ Hfresh]].
      apply Hfresh, Hrun.
    + eapply HeapFacts.first_clone_shares_fields; eassumption.
  - intros h resData name l Hl.
    destruct (HeapFacts.stamped_buildItemFromResponse name (length h) resData h (le_n _))
      as [_ [Hstamped _]].
    apply Hstamped, Hl.
  - intros h items l name Hl.
    apply HeapFacts.buildItemFromResponse_stamps_array, Hl.
Qed.

Lemma reconcile_frames_raw_input_witness :
  ((2 <= 2)%nat
   /\ exists props',
        fst (Heap.first_clone (Heap.HRef 1)
               [Heap.CArr [Heap.HStr "x"] []; Heap.CObj [("Diagnosis", Heap.HRef 0)]]) !! 2%nat
        = Some (Heap.CObj props')
        /\ forall k,
             k <> "Procedure / Billing (All Tables)" -> k <> "Diagnosis (All Tables)" ->
             lookup_prop props' k = lookup_prop [("Diagnosis", Heap.HRef 0)] k)
  /\ (fst (Heap.buildItemFromResponse (Heap.HRef 0) "scan.pdf"
              [Heap.CObj [("note", Heap.HStr "n")]]) !! 0%nat
      = [Heap.CObj [("note", Heap.HStr "n")]] !! 0%nat
      \/ exists c c',
           [Heap.CObj [("note", Heap.HStr "n")]] !! 0%nat = Some c
           /\ fst (Heap.buildItemFromResponse (Heap.HRef 0) "scan.pdf"
                     [Heap.CObj [("note", Heap.HStr "n")]]) !! 0%nat
              = Some c'
           /\ Heap.stamped "scan.pdf" c c')
  /\ Heap.buildItemFromResponse (Heap.HRef 0) "scan.pdf" [Heap.CArr [Heap.HNum 1] []]
     = (<[0%nat := Heap.CArr [Heap.HNum 1] [("File Name", Heap.HStr "scan.pdf")]]>
          [Heap.CArr [Heap.HNum 1] []]
          ++ [Heap.CArr [] []; Heap.CObj []; Heap.CObj [];
              Heap.CObj [("file_name", Heap.HStr "scan.pdf");
                         ("patients", Heap.HRef 1);
                         ("procedure_tables", Heap.HRef 2);
                         ("diagnosis_tables", Heap.HRef 3);
                         ("metadata", Heap.HRef 0)]],
        Ok (Heap.HRef 4)).
Proof.
  split; [|split].
  - apply (proj1 (proj2 reconcile_frames_raw_input)
             [Heap.CArr [Heap.HStr "x"] []; Heap.CObj [("Diagnosis", Heap.HRef 0)]] 1%nat
             [("Diagnosis", Heap.HRef 0)] 2%nat); reflexivity.
  - apply (proj1 (proj2 (proj2 reconcile_frames_raw_input))
             [Heap.CObj [("note", Heap.HStr "n")]] (Heap.HRef 0) "scan.pdf" 0%nat).
    simpl. lia.
  - apply (proj2 (proj2 (proj2 reconcile_frames_raw_input))
             [Heap.CArr [Heap.HNum 1] []] [Heap.HNum 1] 0%nat "scan.pdf").
    reflexivity.
Defined.

(** * Further properties *)

(** ** Scanning a text *)

Lemma forallb_skip_while {A} (f g : A -> bool) l :
  forallb g l = true -> forallb g (skip_while f l) = true.
Proof.
  intros H. rewrite <- (span_skip_while f l) in H. rewrite forallb_app in H.
  apply andb_true_iff in H. tauto.
Qed.

Lemma skip_while_all_true {A} (f : A -> bool) l : forallb f l = true -> skip_while f l = [].
Proof.
  induction l as [|x t IH]; simpl; [reflexivity|].
  intros H. apply andb_true_iff in H. destruct H as [-> Ht]. auto.
Qed.

Lemma digits_no_space l :
  forallb is_digit l = true -> forallb (fun c => negb (is_space c)) l = true.
Proof. intros H. apply digits_dots_no_space, all_digits_digits_dots, H. Qed.

(** ** Array-index keys *)

Lemma nat_of_digits_snoc l c :
  nat_of_digits (l ++ [c]) = (10 * nat_of_digits l + (code c - 48))%N.
Proof. unfold nat_of_digits. rewrite fold_left_app. reflexivity. Qed.

Lemma fold_digits_ge l a :
  (a <= fold_left (fun acc c => 10 * acc + (code c - 48)) l a)%N.
Proof.
  revert a. induction l as [|c t IH]; intros a; simpl; [lia|].
  etransitivity; [|apply IH]. lia.
Qed.

Lemma is_digit_range c : is_digit c = true -> (48 <= code c <= 57)%N.
Proof.
  unfold is_digit. intros H. apply andb_true_iff in H. destruct H as [H1 H2].
  apply N.leb_le in H1, H2. lia.
Qed.

Lemma nat_of_digits_pos c t :
  is_digit c = true -> is_zero c = false -> (0 < nat_of_digits (c :: t))%N.
Proof.
  intros Hd Hz. apply is_digit_range in Hd.
  unfold is_zero in Hz. apply N.eqb_neq in Hz.
  unfold nat_of_digits. simpl.
  eapply N.lt_le_trans; [|apply fold_digits_ge]. lia.
Qed.

Lemma code_inj c c' : code c = code c' -> c = c'.
Proof.
  unfold code. intros H. rewrite <- (ascii_N_embedding c), <- (ascii_N_embedding c').
  f_equal. exact H.
Qed.

Lemma plain_numeral_init l c :
  l <> [] -> plain_numeral (l ++ [c]) -> plain_numeral l /\ (0 < nat_of_digits l)%N.
Proof.
  intros Hl [Hd Hz]. rewrite forallb_app in Hd. apply andb_true_iff in Hd.
  destruct Hd as [Hd _]. destruct l as [|x t]; [congruence|].
  destruct Hz as [Hlen|Hz].
  - rewrite length_app in Hlen. simpl in Hlen. lia.
  - simpl in Hz. simpl in Hd. apply andb_true_iff in Hd. destruct Hd as [Hx Ht].
    split.
    + split; [simpl; rewrite Hx, Ht; reflexivity|right; exact Hz].
    + apply nat_of_digits_pos; assumption.
Qed.

Lemma plain_numeral_inj l l' :
  l <> [] -> l' <> [] -> plain_numeral l -> plain_numeral l' ->
  nat_of_digits l = nat_of_digits l' -> l = l'.
Proof.
  revert l'. induction l as [|c l0 IH] using rev_ind; intros l' Hl Hl' Hp Hp' Hv;
    [congruence|].
  destruct l' as [|c' l0' _] using rev_ind; [congruence|].
  rewrite !nat_of_digits_snoc in Hv.
  assert (Hc : is_digit c = true).
  { destruct Hp as [Hd _]. rewrite forallb_app in Hd. apply andb_true_iff in Hd.
    destruct Hd as [_ Hd]. simpl in Hd. rewrite andb_true_r in Hd. exact Hd. }
  assert (Hc' : is_digit c' = true).
  { destruct Hp' as [Hd _]. rewrite forallb_app in Hd. apply andb_true_iff in Hd.
    destruct Hd as [_ Hd]. simpl in Hd. rewrite andb_true_r in Hd. exact Hd. }
  apply is_digit_range in Hc, Hc'.
  assert (Hlast : code c = code c') by lia.
  assert (Hinit : nat_of_digits l0 = nat_of_digits l0') by lia.
  apply code_inj in Hlast. subst c'. f_equal.
  destruct l0 as [|x t].
  - destruct l0' as [|x' t']; [reflexivity|].
    destruct (plain_numeral_init (x' :: t') c) as [_ Hpos]; [discriminate|exact Hp'|].
    rewrite <- Hinit in Hpos. vm_compute in Hpos. discriminate.
  - destruct l0' as [|x' t'].
    + destruct (plain_numeral_init (x :: t) c) as [_ Hpos]; [discriminate|exact Hp|].
      rewrite Hinit in Hpos. vm_compute in Hpos. discriminate.
    + apply IH; try discriminate; try exact Hinit.
      * apply (plain_numeral_init _ c); [discriminate|exact Hp].
      * apply (plain_numeral_init _ c); [discriminate|exact Hp'].
Qed.

Lemma explode_inj a b : explode a = explode b -> a = b.
Proof.
  intros H. rewrite <- (implode_explode a), <- (implode_explode b), H. reflexivity.
Qed.

Lemma array_index_numeral k i :
  array_index k = Some i ->
  explode k <> [] /\ plain_numeral (explode k) /\ nat_of_digits (explode k) = i.
Proof.
  unfold array_index, all_digits.
  destruct (explode k) as [|c t] eqn:Hk; simpl; [discriminate|].
  destruct (is_digit c) eqn:Hc; simpl; [|discriminate].
  destruct (forallb is_digit t) eqn:Ht; simpl; [|discriminate].
  destruct ((length t =? 0)%nat || negb (is_zero c)) eqn:Hz; simpl; [|discriminate].
  destruct ((length t <=? 9)%nat && (nat_of_digits (c :: t) <? 4294967295)%N);
    [|discriminate].
  intros H. injection H as <-. split; [discriminate|]. split; [|reflexivity].
  split; [simpl; rewrite Hc, Ht; reflexivity|].
  apply orb_true_iff in Hz. destruct Hz as [Hz|Hz].
  - left. apply Nat.eqb_eq in Hz. simpl. lia.
  - right. simpl. apply negb_true_iff in Hz. exact Hz.
Qed.

(** Two keys that are the same array index are the same key. *)
Lemma array_index_inj k k' i :
  array_index k = Some i -> array_index k' = Some i -> k = k'.
Proof.
  intros H H'. apply array_index_numeral in H, H'.
  destruct H as [Hne [Hp Hv]], H' as [Hne' [Hp' Hv']].
  apply explode_inj. apply plain_numeral_inj; try assumption. congruence.
Qed.

(** ** Objects built by assignments *)

Section EnumerationOrder.
Context {V : Type}.
Implicit Types (o : list (string * V)) (k : string) (v : V).

Lemma existsb_eqb_In k (l : list string) : existsb (String.eqb k) l = true <-> In k l.
Proof.
  rewrite existsb_exists. split.
  - intros [x [Hin Heq]]. apply String.eqb_eq in Heq. subst x. exact Hin.
  - intros Hin. exists k. split; [exact Hin|apply String.eqb_refl].
Qed.

Lemma existsb_eqb_not_In k (l : list string) : existsb (String.eqb k) l = false <-> ~ In k l.
Proof.
  rewrite <- existsb_eqb_In. destruct (existsb (String.eqb k) l); split; congruence.
Qed.

Lemma has_own_In o k : has_own o k = true <-> In k (map fst o).
Proof.
  unfold has_own. induction o as [|[k0 v0] t IH]; simpl.
  - split; [discriminate|tauto].
  - destruct (eqb_string_spec k0 k) as [->|Hne].
    + split; auto.
    + rewrite IH. split; [auto|]. intros [H|H]; [congruence|exact H].
Qed.

Lemma has_own_not_In o k : has_own o k = false <-> ~ In k (map fst o).
Proof.
  rewrite <- has_own_In. destruct (has_own o k); split; congruence.
Qed.

Lemma keys_insert_index o i k v k' :
  In k' (map fst (insert_index o i k v)) <-> k' = k \/ In k' (map fst o).
Proof.
  induction o as [|[k0 v0] t IH]; simpl.
  - split; intros [H|H]; auto.
  - destruct (array_index k0) as [j|]; [destruct (j <? i)%N|]; simpl;
      rewrite ?IH; split; intros H; intuition auto.
Qed.

Lemma distinct_cons k (l : list string) :
  distinct (k :: l) = true <-> ~ In k l /\ distinct l = true.
Proof.
  simpl. rewrite andb_true_iff, negb_true_iff, existsb_eqb_not_In. reflexivity.
Qed.

Lemma distinct_insert_index o i k v :
  ~ In k (map fst o) -> distinct (map fst o) = true ->
  distinct (map fst (insert_index o i k v)) = true.
Proof.
  induction o as [|[k0 v0] t IH]; intros Hk Hd.
  - reflexivity.
  - change (map fst ((k0, v0) :: t)) with (k0 :: map fst t) in Hk, Hd.
    apply distinct_cons in Hd. destruct Hd as [Hk0 Hd].
    assert (Hhere : distinct (map fst ((k, v) :: (k0, v0) :: t)) = true).
    { change (distinct (k :: k0 :: map fst t) = true).
      apply distinct_cons. split; [exact Hk|]. apply distinct_cons. split; assumption. }
    simpl insert_index.
    destruct (array_index k0) as [j|]; [destruct (j <? i)%N|]; try exact Hhere.
    change (distinct (k0 :: map fst (insert_index t i k v)) = true).
    apply distinct_cons. split.
    + rewrite keys_insert_index. intros [->|H]; [|contradiction].
      apply Hk. left. reflexivity.
    + apply IH; [|exact Hd]. intros H. apply Hk. right. exact H.
Qed.

Lemma distinct_snoc k (l : list string) :
  ~ In k l -> distinct l = true -> distinct (l ++ [k]) = true.
Proof.
  induction l as [|x t IH]; intros Hk Hd; [reflexivity|].
  apply distinct_cons in Hd. destruct Hd as [Hx Hd].
  change (distinct (x :: (t ++ [k])) = true). apply distinct_cons. split.
  - rewrite in_app_iff. intros [H|[H|[]]]; [contradiction|].
    apply Hk. left. symmetry. exact H.
  - apply IH; [|exact Hd]. intros H. apply Hk. right. exact H.
Qed.

Lemma precedes_after_index k k0 k' i j :
  array_index k = Some i -> array_index k0 = Some j -> (i < j)%N ->
  precedes k0 k' -> precedes k k'.
Proof.
  unfold precedes. intros -> ->. destruct (array_index k'); [lia|tauto].
Qed.

Lemma precedes_after_name k k0 k' i :
  array_index k = Some i -> array_index k0 = None ->
  precedes k0 k' -> precedes k k'.
Proof.
  unfold precedes. intros -> ->. destruct (array_index k'); tauto.
Qed.

Lemma sorted_insert_index o i k v :
  array_index k = Some i -> ~ In k (map fst o) ->
  StronglySorted precedes (map fst o) ->
  StronglySorted precedes (map fst (insert_index o i k v)).
Proof.
  intros Hi. induction o as [|[k0 v0] t IH]; intros Hk Hs.
  - simpl. constructor; constructor.
  - change (map fst ((k0, v0) :: t)) with (k0 :: map fst t) in Hk, Hs.
    apply StronglySorted_inv in Hs. destruct Hs as [Hs Hall].
    assert (Hne : k0 <> k) by (intros ->; apply Hk; left; reflexivity).
    simpl insert_index. destruct (array_index k0) as [j|] eqn:Hj.
    + destruct (j <? i)%N eqn:Hlt.
      * apply N.ltb_lt in Hlt.
        change (StronglySorted precedes (k0 :: map fst (insert_index t i k v))).
        constructor.
        -- apply IH; [|exact Hs]. intros H. apply Hk. right. exact H.
        -- apply Forall_forall. intros k' Hin. apply list_elem_of_In in Hin.
           apply keys_insert_index in Hin. destruct Hin as [->|Hin].
           ++ unfold precedes. rewrite Hj, Hi. exact Hlt.
           ++ rewrite Forall_forall in Hall. apply Hall. apply list_elem_of_In. exact Hin.
      * apply N.ltb_ge in Hlt.
        assert (Hij : (i < j)%N).
        { destruct (N.eq_dec i j) as [->|Hneq]; [|lia].
          exfalso. apply Hne. eapply array_index_inj; eassumption. }
        change (StronglySorted precedes (k :: k0 :: map fst t)).
        constructor; [constructor; assumption|].
        constructor.
        -- unfold precedes. rewrite Hi, Hj. exact Hij.
        -- eapply Forall_impl; [exact Hall|]. intros k'. simpl.
           eapply precedes_after_index; eassumption.
    + change (StronglySorted precedes (k :: k0 :: map fst t)).
      constructor; [constructor; assumption|].
      constructor.
      * unfold precedes. rewrite Hi, Hj. exact I.
      * eapply Forall_impl; [exact Hall|]. intros k'. simpl.
        eapply precedes_after_name; eassumption.
Qed.

Lemma sorted_snoc (l : list string) k :
  array_index k = None -> StronglySorted precedes l ->
  StronglySorted precedes (l ++ [k]).
Proof.
  intros Hk. induction l as [|x t IH]; intros Hs.
  - simpl. constructor; constructor.
  - apply StronglySorted_inv in Hs. destruct Hs as [Hs Hall].
    change (StronglySorted precedes (x :: (t ++ [k]))). constructor; [auto|].
    apply Forall_app. split; [exact Hall|]. constructor; [|constructor].
    unfold precedes. rewrite Hk. destruct (array_index x); exact I.
Qed.

(** An assignment keeps the enumeration order. *)
Lemma enumerable_assign_prop o k v : enumerable o -> enumerable (assign_prop o k v).
Proof.
  intros [Hs [Hd Hp]]. unfold assign_prop.
  destruct (has_own o k) eqn:Hown; simpl.
  - unfold define_prop. rewrite Hown. unfold enumerable.
    rewrite keys_replace_prop. auto.
  - destruct (eqb_string_spec k "__proto__") as [->|Hne]; [split; auto|].
    apply has_own_not_In in Hown.
    unfold define_prop. rewrite (proj2 (has_own_not_In o k) Hown).
    destruct (array_index k) as [i|] eqn:Hi.
    + split; [|split].
      * apply sorted_insert_index; assumption.
      * apply distinct_insert_index; assumption.
      * rewrite keys_insert_index. intros [H|H]; [congruence|contradiction].
    + unfold enumerable. rewrite map_app. simpl. split; [|split].
      * apply sorted_snoc; assumption.
      * apply distinct_snoc; assumption.
      * rewrite in_app_iff. intros [H|[H|[]]]; [contradiction|congruence].
Qed.

Lemma enumerable_nil : enumerable (@nil (string * V)).
Proof. split; [constructor|]. split; [reflexivity|]. simpl. tauto. Qed.

Lemma insert_index_last o i k v :
  Forall (fun k' => precedes k' k) (map fst o) -> array_index k = Some i ->
  insert_index o i k v = o ++ [(k, v)].
Proof.
  intros Hall Hi. induction o as [|[k0 v0] t IH]; [reflexivity|].
  change (map fst ((k0, v0) :: t)) with (k0 :: map fst t) in Hall.
  apply Forall_cons in Hall. destruct Hall as [H0 Hall].
  unfold precedes in H0. rewrite Hi in H0. simpl.
  destruct (array_index k0) as [j|]; [|contradiction].
  apply N.ltb_lt in H0. rewrite H0. rewrite IH by exact Hall. reflexivity.
Qed.

Lemma distinct_middle (a : list string) k b : distinct (a ++ k :: b) = true -> ~ In k a.
Proof.
  induction a as [|x t IH]; simpl; [tauto|].
  intros H. apply andb_true_iff in H. destruct H as [Hx Hd].
  apply negb_true_iff, existsb_eqb_not_In in Hx.
  intros [->|Hin]; [|exact (IH Hd Hin)].
  apply Hx. apply in_app_iff. right. left. reflexivity.
Qed.

Lemma sorted_middle (a : list string) k b :
  StronglySorted precedes (a ++ k :: b) -> Forall (fun k' => precedes k' k) a.
Proof.
  induction a as [|x t IH]; simpl; intros Hs; [constructor|].
  apply StronglySorted_inv in Hs. destruct Hs as [Hs Hall].
  constructor; [|exact (IH Hs)].
  apply Forall_app in Hall. destruct Hall as [_ Hall].
  apply Forall_cons in Hall. tauto.
Qed.

(** Assigning the next entry of an enumerable object to the entries before
    it appends it. *)
Lemma assign_prop_next a k v b :
  enumerable (a ++ (k, v) :: b) -> assign_prop a k v = a ++ [(k, v)].
Proof.
  intros [Hs [Hd Hp]]. rewrite map_app in Hs, Hd, Hp. simpl in Hs, Hd, Hp.
  assert (Hk : ~ In k (map fst a)) by (eapply distinct_middle; exact Hd).
  assert (Hne : k <> "__proto__").
  { intros ->. apply Hp. apply in_app_iff. right. left. reflexivity. }
  unfold assign_prop, define_prop.
  rewrite (proj2 (has_own_not_In a k) Hk). simpl.
  destruct (eqb_string_spec k "__proto__") as [->|_]; [congruence|].
  destruct (array_index k) as [i|] eqn:Hi; [|reflexivity].
  apply insert_index_last; [|exact Hi]. eapply sorted_middle. exact Hs.
Qed.

End EnumerationOrder.

Lemma normalize_section_array out sec rows :
  is_array rows = true -> normalize_section out (sec, rows) = assign_prop out sec rows.
Proof. destruct rows; simpl; try discriminate. reflexivity. Qed.

Lemma enumerable_normalize_section out entry :
  enumerable out -> enumerable (normalize_section out entry).
Proof.
  intros H. destruct entry as [sec rows]. unfold normalize_section.
  destruct rows; apply enumerable_assign_prop; exact H.
Qed.

Lemma enumerable_fold_normalize entries out :
  enumerable out -> enumerable (fold_left normalize_section entries out).
Proof.
  revert out. induction entries as [|e t IH]; simpl; intros out H; [exact H|].
  apply IH, enumerable_normalize_section, H.
Qed.

Lemma enumerable_normalizeTables tables : enumerable (normalizeTables tables).
Proof.
  unfold normalizeTables. destruct (truthy tables); simpl; [|apply enumerable_nil].
  destruct (is_array tables).
  - apply enumerable_assign_prop, enumerable_nil.
  - apply enumerable_fold_normalize, enumerable_nil.
Qed.

Lemma fold_normalize_rebuild (a b : object) :
  enumerable (a ++ b) -> Forall (fun e => is_array (snd e) = true) b ->
  fold_left normalize_section b a = a ++ b.
Proof.
  revert a. induction b as [|[k v] t IH]; intros a He Harr.
  - simpl. rewrite app_nil_r. reflexivity.
  - apply Forall_cons in Harr. destruct Harr as [Hv Harr]. simpl in Hv.
    change (fold_left normalize_section t (normalize_section a (k, v)) = a ++ (k, v) :: t).
    rewrite (normalize_section_array a k v Hv).
    rewrite (assign_prop_next a k v t He).
    rewrite IH; [|rewrite <- app_assoc; exact He|exact Harr].
    rewrite <- app_assoc. reflexivity.
Qed.

(** A mapping of sequences in enumeration order is its own normal form. *)
Lemma normalizeTables_settled (o : object) :
  enumerable o -> Forall (fun e => is_array (snd e) = true) o ->
  normalizeTables (VObj o) = o.
Proof.
  intros He Harr. unfold normalizeTables. simpl.
  apply (fold_normalize_rebuild [] o); assumption.
Qed.

(** ** Outcomes *)

Lemma bind_ok {A B} (m : outcome A) (f : A -> outcome B) (b : B) :
  m ≫= f = Ok b -> exists a, m = Ok a /\ f a = Ok b.
Proof. destruct m as [a| |]; simpl; try discriminate. intros H. exists a. auto. Qed.

Tactic Notation "bind_inv" hyp(H) "as" ident(a) ident(Ha) :=
  apply bind_ok in H; destruct H as [a [Ha H]].

Lemma map_outcome_cons {A B} (f : A -> outcome B) x t :
  map_outcome f (x :: t) = (y ← f x; ys ← map_outcome f t; Ok (y :: ys)).
Proof. reflexivity. Qed.

Lemma map_outcome_Forall2 {A B} (f : A -> outcome B) l l' :
  map_outcome f l = Ok l' -> Forall2 (fun x y => f x = Ok y) l l'.
Proof.
  revert l'. induction l as [|x t IH]; intros l' H.
  - injection H as <-. constructor.
  - rewrite map_outcome_cons in H. bind_inv H as y Hy. bind_inv H as ys Hys.
    injection H as <-. constructor; auto.
Qed.

Lemma map_outcome_length {A B} (f : A -> outcome B) l l' :
  map_outcome f l = Ok l' -> length l' = length l.
Proof.
  intros H. apply map_outcome_Forall2 in H. symmetry. eapply Forall2_length. exact H.
Qed.

(** ** Counting rows *)

Lemma fold_row_count l acc :
  fold_left (fun s a => s + match a with
                           | VArr l => Z.of_nat (length l)
                           | _ => 0
                           end) l acc
  = acc + fold_left (fun s a => s + match a with
                                    | VArr l => Z.of_nat (length l)
                                    | _ => 0
                                    end) l 0.
Proof.
  revert acc. induction l as [|a t IH]; intros acc; simpl; [lia|].
  rewrite (IH (acc + _)), (IH (0 + _)). lia.
Qed.

Lemma count_rows_cons k v (t : object) :
  count_rows ((k, v) :: t) = row_count v + count_rows t.
Proof. unfold count_rows. simpl. rewrite fold_row_count. reflexivity. Qed.

Lemma count_rows_app (a b : object) : count_rows (a ++ b) = count_rows a + count_rows b.
Proof.
  induction a as [|[k v] t IH]; [reflexivity|].
  change (((k, v) :: t) ++ b) with ((k, v) :: (t ++ b)).
  rewrite !count_rows_cons, IH. lia.
Qed.

Lemma count_rows_replace_prop (o : object) k v :
  count_rows (replace_prop o k v)
  = count_rows o
    + (if has_own o k then row_count v - row_count (default VUndef (lookup_prop o k)) else 0).
Proof.
  unfold has_own. induction o as [|[k0 v0] t IH]; [reflexivity|].
  simpl replace_prop. simpl lookup_prop.
  destruct (String.eqb k0 k).
  - rewrite !count_rows_cons. simpl. lia.
  - rewrite !count_rows_cons, IH. lia.
Qed.

Lemma count_rows_insert_index (o : object) i k v :
  count_rows (insert_index o i k v) = count_rows o + row_count v.
Proof.
  induction o as [|[k0 v0] t IH]; [simpl insert_index; rewrite count_rows_cons; lia|].
  simpl insert_index.
  destruct (array_index k0) as [j|]; [destruct (j <? i)%N|];
    rewrite !count_rows_cons, ?IH; lia.
Qed.

Lemma count_rows_assign_prop (o : object) k v :
  has_own o k = true \/ k <> "__proto__" ->
  count_rows (assign_prop o k v)
  = count_rows o - row_count (default VUndef (lookup_prop o k)) + row_count v.
Proof.
  intros H. unfold assign_prop.
  destruct (negb (has_own o k) && String.eqb k "__proto__") eqn:Hskip.
  - apply andb_true_iff in Hskip. destruct Hskip as [Hown Hproto].
    apply negb_true_iff in Hown. apply String.eqb_eq in Hproto.
    destruct H; congruence.
  - unfold define_prop. destruct (has_own o k) eqn:Hown.
    + rewrite count_rows_replace_prop, Hown. lia.
    + unfold has_own in Hown. destruct (lookup_prop o k); [discriminate|]. simpl.
      destruct (array_index k).
      * rewrite count_rows_insert_index. lia.
      * rewrite count_rows_app, count_rows_cons. unfold count_rows at 2. simpl. lia.
Qed.

(** ** The tables of a patient *)

Lemma fold_displayed {R} (sections : list (string * table_body R)) acc :
  fold_left (fun s section => s + match snd section with
                                  | NoRows => 0
                                  | Rows rows => Z.of_nat (length rows)
                                  end) sections acc
  = acc + fold_left (fun s section => s + match snd section with
                                          | NoRows => 0
                                          | Rows rows => Z.of_nat (length rows)
                                          end) sections 0.
Proof.
  revert acc. induction sections as [|x t IH]; intros acc; simpl; [lia|].
  rewrite (IH (acc + _)), (IH (0 + _)). lia.
Qed.

(** The rendered tables show as many rows as the sections hold. *)
Lemma render_sections_rows {R} (row : value -> outcome R) (normalized : object) rendered :
  render_sections row normalized = Ok rendered ->
  displayed_rows rendered = count_rows normalized.
Proof.
  unfold render_sections. destruct (Nat.eqb (length normalized) 0) eqn:Hlen.
  - intros H. injection H as <-. apply Nat.eqb_eq in Hlen.
    destruct normalized; [reflexivity|discriminate].
  - clear Hlen. intros H. bind_inv H as sections Ha. injection H as <-.
    apply map_outcome_Forall2 in Ha. simpl.
    induction Ha as [|[sec rows] y t t' Hy Ht IH]; [reflexivity|].
    simpl. rewrite fold_displayed, IH, count_rows_cons. f_equal.
    simpl in Hy. destruct rows as [| | | | |l|]; simpl in Hy;
      try (injection Hy as <-; reflexivity).
    destruct l as [|x l]; [injection Hy as <-; reflexivity|].
    change (Nat.ltb 0 (length (x :: l))) with true in Hy. cbv iota in Hy.
    bind_inv Hy as rs Hrs. injection Hy as <-.
    change (0 + Z.of_nat (length rs) = Z.of_nat (length (x :: l))).
    rewrite (map_outcome_length _ _ _ Hrs). reflexivity.
Qed.

Lemma combine_section_step (combined : object) sec rows combined' :
  sec <> "__proto__" -> is_array rows = true ->
  combine_section combined (sec, rows) = Ok combined' ->
  enumerable combined -> Forall (fun e => is_array (snd e) = true) combined ->
  enumerable combined'
  /\ Forall (fun e => is_array (snd e) = true) combined'
  /\ count_rows combined' = count_rows combined + row_count rows.
Proof.
  intros Hsec Hrows H He Harr. unfold combine_section in H. simpl fst in H. simpl snd in H.
  bind_inv H as a Ha. destruct rows as [| | | | |b|]; try discriminate Hrows.
  change (VArr b ?| VArr []) with (VArr b) in H.
  destruct (a ?| VArr []) as [| | | | |l|] eqn:Hbase; try discriminate H.
  injection H as <-. split; [|split].
  - apply enumerable_assign_prop, He.
  - apply (Forall_assign_prop (fun v => is_array v = true)); [exact Harr|reflexivity].
  - rewrite count_rows_assign_prop by (right; exact Hsec).
    simpl array_concat. simpl row_count at 2. rewrite length_app, Nat2Z.inj_add.
    assert (Hold : row_count (default VUndef (lookup_prop combined sec)) = Z.of_nat (length l)).
    { unfold read_computed in Ha.
      destruct (lookup_prop combined sec) as [v|] eqn:Hlook.
      - injection Ha as <-. simpl. destruct v; simpl in Hbase; try discriminate Hbase;
          unfold or_else in Hbase; simpl in Hbase.
        + injection Hbase as <-. reflexivity.
        + injection Hbase as <-. reflexivity.
        + destruct b0; [discriminate|]. injection Hbase as <-. reflexivity.
        + destruct (negb (n =? 0)); [discriminate|]. injection Hbase as <-. reflexivity.
        + destruct (negb (String.eqb s "")); [discriminate|]. injection Hbase as <-. reflexivity.
        + injection Hbase as <-. reflexivity.
      - destruct (inherited_name sec); [discriminate|]. injection Ha as <-.
        unfold or_else in Hbase. simpl in Hbase. injection Hbase as <-. reflexivity. }
    rewrite Hold. simpl row_count. lia.
Qed.

Lemma combine_sections_fold entries (start combined : object) :
  Forall (fun e => is_array (snd e) = true) entries ->
  ~ In "__proto__" (map fst entries) ->
  fold_outcome combine_section entries start = Ok combined ->
  enumerable start -> Forall (fun e => is_array (snd e) = true) start ->
  enumerable combined
  /\ Forall (fun e => is_array (snd e) = true) combined
  /\ count_rows combined = count_rows start + count_rows entries.
Proof.
  revert start. induction entries as [|[sec rows] t IH]; intros start Harr Hproto H He Hs.
  - injection H as <-. unfold count_rows at 3. simpl. split; [|split]; auto. lia.
  - apply Forall_cons in Harr. destruct Harr as [Hrows Harr]. simpl in Hrows.
    change (fold_outcome combine_section ((sec, rows) :: t) start)
      with (combine_section start (sec, rows) ≫= fold_outcome combine_section t) in H.
    bind_inv H as a Ha.
    destruct (combine_section_step start sec rows a) as [He' [Hs' Hc']]; auto.
    { intros ->. apply Hproto. left. reflexivity. }
    destruct (IH a Harr) as [He'' [Hs'' Hc'']]; auto.
    { intros Hin. apply Hproto. right. exact Hin. }
    split; [exact He''|]. split; [exact Hs''|].
    rewrite Hc'', Hc', count_rows_cons. lia.
Qed.

Lemma normalizeTables_arrays tables :
  Forall (fun e => is_array (snd e) = true) (normalizeTables tables).
Proof.
  unfold normalizeTables.
  destruct (truthy tables); simpl; [|constructor].
  destruct (is_array tables) eqn:Harr.
  - apply (Forall_assign_prop (fun v => is_array v = true)); [constructor|exact Harr].
  - apply fold_normalize_section_arrays. constructor.
Qed.

(** The combined tables are in normal form, and hold the rows of the
    patient and the rows of the result. *)
Lemma combined_tables_settled label patientRows tables combined :
  label <> "__proto__" ->
  combined_tables label patientRows tables = Ok combined ->
  normalizeTables (VObj combined) = combined
  /\ count_rows combined
     = Z.of_nat (length patientRows) + count_rows (normalizeTables tables).
Proof.
  intros Hlabel H. unfold combined_tables in H.
  pose proof (enumerable_normalizeTables tables) as [_ [_ Hproto]].
  apply combine_sections_fold in H; auto using normalizeTables_arrays.
  - destruct H as [He [Harr Hc]]. split; [apply normalizeTables_settled; assumption|].
    rewrite Hc. f_equal. destruct patientRows as [|x l]; [reflexivity|].
    change (Nat.ltb 0 (length (x :: l))) with true. cbv iota.
    rewrite count_rows_assign_prop by (right; exact Hlabel).
    unfold count_rows at 1. simpl. lia.
  - destruct (Nat.ltb 0 (length patientRows));
      [apply enumerable_assign_prop|]; apply enumerable_nil.
  - destruct (Nat.ltb 0 (length patientRows)); [|constructor].
    apply (Forall_assign_prop (fun v => is_array v = true)); [constructor|reflexivity].
Qed.

(** ** TableShapeNormalizer: normal forms *)

(** X1: Normalising a normalised set of tables changes nothing: [ResultBlock]
    normalises the tables of the item, [PatientBlock] normalises them again
    and [ProcedureTables] and [DiagnosisTables] once more, all with the same
    result. *)
Theorem normalizeTables_idempotent (tables : value) :
  normalizeTables (VObj (normalizeTables tables)) = normalizeTables tables.
Proof.
  apply normalizeTables_settled.
  - apply enumerable_normalizeTables.
  - apply normalizeTables_arrays.
Qed.






(** ** TableShapeNormalizer: sections keyed by index *)

Lemma Z_of_digits_fold l acc :
  forallb is_digit l = true ->
  fold_left (fun a c => match a, Keys.dec_digit c with
                        | Some x, Some d => Some (10 * x + d)
                        | _, _ => None
                        end) l (Some (Z.of_N acc))
  = Some (Z.of_N (fold_left (fun a c => (10 * a + (code c - 48))%N) l acc)).
Proof.
  revert acc. induction l as [|c t IH]; intros acc H; [reflexivity|].
  simpl in H. apply andb_true_iff in H. destruct H as [Hc Ht].
  simpl. unfold Keys.dec_digit at 2. rewrite Hc.
  pose proof (is_digit_range c Hc) as Hr.
  replace (10 * Z.of_N acc + (Z.of_N (code c) - 48))
    with (Z.of_N (10 * acc + (code c - 48))) by lia.
  apply IH, Ht.
Qed.

Lemma Z_of_digits_numeral l :
  l <> [] -> forallb is_digit l = true ->
  Keys.Z_of_digits 10 Keys.dec_digit l = Some (Z.of_N (nat_of_digits l)).
Proof.
  intros Hne Hd. unfold Keys.Z_of_digits, nat_of_digits.
  destruct l as [|c t]; [congruence|].
  apply (Z_of_digits_fold (c :: t) 0%N Hd).
Qed.

Lemma digit_not_sign c : is_digit c = true -> (code c =? 43)%N = false /\ (code c =? 45)%N = false.
Proof.
  intros H. apply is_digit_range in H. split; apply N.eqb_neq; lia.
Qed.

(** [Number(k)] of an array-index key is the index. *)
Lemma to_number_index k i :
  array_index k = Some i -> Keys.to_number k = Keys.of_decimal (Z.of_N i) 0.
Proof.
  intros H. apply array_index_numeral in H. destruct H as [Hne [[Hd Hz] <-]].
  unfold Keys.to_number.
  pose proof (digits_no_space _ Hd) as Hns.
  assert (Hhead : match explode k with c :: _ => is_space c = false | [] => True end).
  { destruct (explode k) as [|c t]; [exact I|]. simpl in Hns.
    apply andb_true_iff in Hns. destruct Hns as [Hc _]. apply negb_true_iff, Hc. }
  rewrite (trim_chars_fixed _ Hhead (no_space_ends _ Hns)).
  destruct (explode k) as [|c t] eqn:Hk; [congruence|].
  simpl in Hd. apply andb_true_iff in Hd. destruct Hd as [Hc Ht].
  assert (Hradix : Keys.radix_literal (c :: t) = None).
  { unfold Keys.radix_literal. destruct t as [|x ds]; [reflexivity|].
    destruct Hz as [Hlen|Hz]; [simpl in Hlen; lia|]. simpl in Hz. rewrite Hz. reflexivity. }
  rewrite Hradix. destruct (digit_not_sign c Hc) as [-> ->].
  unfold Keys.unsigned_literal.
  assert (Hinf : bool_decide (c :: t = Keys.infinity_text) = false).
  { apply bool_decide_eq_false. intros Heq. injection Heq as -> _. discriminate Hc. }
  rewrite Hinf. unfold Keys.unsigned_decimal.
  assert (Hall : forallb is_digit (c :: t) = true) by (simpl; rewrite Hc, Ht; reflexivity).
  pose proof (span_skip_while is_digit (c :: t)) as Hsplit.
  rewrite (skip_while_all_true is_digit (c :: t) Hall) in *.
  rewrite app_nil_r in Hsplit. rewrite Hsplit, app_nil_r.
  rewrite (Z_of_digits_numeral (c :: t)) by (congruence || exact Hall).
  reflexivity.
Qed.

Lemma array_index_bound k i : array_index k = Some i -> (i < 4294967295)%N.
Proof.
  unfold array_index.
  destruct (all_digits (explode k) && _ && _ && (nat_of_digits (explode k) <? 4294967295)%N)
    eqn:H; [|discriminate].
  intros Hi. injection Hi as <-.
  apply andb_true_iff in H. destruct H as [_ H]. apply N.ltb_lt, H.
Qed.

Lemma to_number_index_value k i :
  array_index k = Some i ->
  Keys.is_finite (Keys.to_number k) = true
  /\ Keys.units (Keys.to_number k) = Z.of_N i * 2 ^ 1074.
Proof.
  intros Hi. rewrite (to_number_index k i Hi). apply of_decimal_whole.
  pose proof (array_index_bound k i Hi) as Hb.
  assert (Hpow : 2 ^ 32 <= 2 ^ 53) by (apply Z.pow_le_mono_r; lia).
  change (2 ^ 32) with 4294967296 in Hpow. lia.
Qed.

Lemma key_order_indices a b i j :
  array_index a = Some i -> array_index b = Some j ->
  Keys.key_order a b = Z.sgn (Z.of_N i - Z.of_N j).
Proof.
  intros Ha Hb.
  destruct (to_number_index_value a i Ha) as [Fa Ua].
  destruct (to_number_index_value b j Hb) as [Fb Ub].
  rewrite (key_order_units a b Fa Fb), Ua, Ub, <- Z.mul_sub_distr_r, Z.sgn_mul.
  assert (Hpos : 0 < 2 ^ 1074) by (apply Z.pow_pos_nonneg; lia).
  rewrite (Z.sgn_pos _ Hpos). ring.
Qed.

Lemma stable_sort_settled cmp l :
  StronglySorted (fun a b => cmp a b <= 0) l -> Engine.stable_sort cmp l = l.
Proof.
  induction 1 as [|x t Ht IH Hall]; [reflexivity|].
  simpl. rewrite IH. destruct t as [|y t']; [reflexivity|].
  apply Forall_cons in Hall. destruct Hall as [Hxy _]. simpl.
  destruct (0 <? cmp x y) eqn:Hc; [apply Z.ltb_lt in Hc; lia|reflexivity].
Qed.

Lemma index_keys_finite (ks : list string) :
  forallb is_index ks = true ->
  forallb (fun k => Keys.is_finite (Keys.to_number k)) ks = true.
Proof.
  intros H. rewrite forallb_forall in *. intros k Hk. specialize (H k Hk).
  unfold is_index in H. destruct (array_index k) as [i|] eqn:Hi; [|discriminate].
  apply (to_number_index_value k i Hi).
Qed.

Lemma sorted_index_keys (ks : list string) :
  forallb is_index ks = true -> StronglySorted precedes ks ->
  StronglySorted (fun a b => Keys.key_order a b <= 0) ks.
Proof.
  intros Hidx Hs. induction Hs as [|x t Ht IH Hall]; [constructor|].
  simpl in Hidx. apply andb_true_iff in Hidx. destruct Hidx as [Hx Hidx].
  constructor; [apply IH, Hidx|].
  rewrite forallb_forall in Hidx. rewrite Forall_forall in *.
  intros y Hy. specialize (Hall y Hy). apply list_elem_of_In in Hy.
  specialize (Hidx y Hy). unfold is_index in Hx, Hidx. unfold precedes in Hall.
  destruct (array_index x) as [i|] eqn:Hi; [|discriminate].
  destruct (array_index y) as [j|] eqn:Hj; [|discriminate].
  rewrite (key_order_indices x y i j Hi Hj).
  assert (H : Z.of_N i - Z.of_N j < 0) by lia.
  rewrite (Z.sgn_neg _ H). lia.
Qed.

Lemma lookup_own_keys {V} (o : list (string * V)) (d : V) :
  distinct (map fst o) = true ->
  map (fun k => default d (lookup_prop o k)) (map fst o) = map snd o.
Proof.
  induction o as [|[k v] t IH]; intros Hd; [reflexivity|].
  change (map fst ((k, v) :: t)) with (k :: map fst t) in Hd.
  apply distinct_cons in Hd. destruct Hd as [Hk Hd].
  simpl. rewrite String.eqb_refl. simpl. f_equal.
  rewrite <- (IH Hd). apply map_ext_in. intros k' Hin.
  destruct (eqb_string_spec k k') as [->|_]; [contradiction|reflexivity].
Qed.

Lemma define_prop_assign {V} (o : list (string * V)) k v :
  k <> "__proto__" -> define_prop o k v = assign_prop o k v.
Proof.
  intros Hk. unfold assign_prop.
  destruct (eqb_string_spec k "__proto__") as [->|_]; [congruence|].
  rewrite andb_false_r. reflexivity.
Qed.

Lemma keys_assign_prop {V} (o : list (string * V)) k v k' :
  In k' (map fst (assign_prop o k v)) -> k' = k \/ In k' (map fst o).
Proof.
  unfold assign_prop. destruct (negb (has_own o k) && String.eqb k "__proto__"); [auto|].
  unfold define_prop. destruct (has_own o k).
  - rewrite keys_replace_prop. auto.
  - destruct (array_index k).
    + rewrite keys_insert_index. auto.
    + rewrite map_app, in_app_iff. simpl. intros [H|[H|[]]]; auto.
Qed.

Lemma obj_of_entries_fold (es o : object) :
  ~ In "__proto__" (map fst es) -> enumerable o ->
  enumerable (fold_left (fun o kv => define_prop o (fst kv) (snd kv)) es o)
  /\ forall k, In k (map fst (fold_left (fun o kv => define_prop o (fst kv) (snd kv)) es o)) ->
               In k (map fst es) \/ In k (map fst o).
Proof.
  revert o. induction es as [|[k v] t IH]; intros o Hproto Ho; [simpl; auto|].
  simpl in Hproto. simpl fold_left.
  assert (Hk : k <> "__proto__") by (intros ->; apply Hproto; left; reflexivity).
  rewrite (define_prop_assign o k v Hk).
  destruct (IH (assign_prop o k v)) as [He Hkeys].
  - intros H. apply Hproto. right. exact H.
  - apply enumerable_assign_prop, Ho.
  - split; [exact He|]. intros k' Hin. destruct (Hkeys k' Hin) as [H|H].
    + left. right. exact H.
    + apply keys_assign_prop in H. destruct H as [->|H]; [left; left; reflexivity|auto].
Qed.

Lemma is_index_not_proto (ks : list string) :
  forallb is_index ks = true -> ~ In "__proto__" ks.
Proof.
  intros H Hin. rewrite forallb_forall in H. specialize (H _ Hin). discriminate H.
Qed.

Lemma index_keyed_rows (rows : object) :
  enumerable rows -> forallb is_index (map fst rows) = true ->
  rows_of_keyed rows = map snd rows.
Proof.
  intros [Hs [Hd _]] Hidx.
  rewrite (rows_of_keyed_finite rows (index_keys_finite _ Hidx)).
  rewrite (stable_sort_settled _ _ (sorted_index_keys _ Hidx Hs)).
  apply lookup_own_keys, Hd.
Qed.

(** X3: A section whose value is a mapping keyed by array indices only
    gives the values of the mapping in ascending order of the indices,
    which is the order in which the mapping lists them: sorting the keys
    changes nothing.  This holds whatever the order of the members in the
    text the mapping was read from. *)
Theorem index_keyed_section_in_index_order :
  (forall (sec : string) (rows : object),
      sec <> "__proto__" ->
      enumerable rows ->
      forallb is_index (map fst rows) = true ->
      normalizeTables (VObj [(sec, VObj rows)]) = [(sec, VArr (map snd rows))])
  /\ (forall (sec : string) (members : object),
        sec <> "__proto__" ->
        forallb is_index (map fst members) = true ->
        normalizeTables (VObj [(sec, VObj (obj_of_entries members))])
        = [(sec, VArr (map snd (obj_of_entries members)))]
        /\ StronglySorted precedes (map fst (obj_of_entries members))).
Proof.
  split.
  - intros sec rows Hsec He Hidx.
    rewrite (normalizeTables_one_section sec rows Hsec), (index_keyed_rows rows He Hidx).
    reflexivity.
  - intros sec members Hsec Hidx.
    destruct (obj_of_entries_fold members [] (is_index_not_proto _ Hidx) enumerable_nil)
      as [He Hkeys].
    fold (obj_of_entries members) in He, Hkeys.
    assert (Hidx' : forallb is_index (map fst (obj_of_entries members)) = true).
    { rewrite forallb_forall in *. intros k Hk.
      destruct (Hkeys k Hk) as [H|[]]. apply Hidx, H. }
    rewrite (normalizeTables_one_section _ _ Hsec), (index_keyed_rows _ He Hidx').
    split; [reflexivity|]. destruct He as [Hs _]. exact Hs.
Qed.

Lemma index_keyed_section_in_index_order_witness :
  normalizeTables (VObj [("Procedures", VObj [("0", VStr "a"); ("2", VStr "b"); ("10", VStr "c")])])
  = [("Procedures", VArr (map snd [("0", VStr "a"); ("2", VStr "b"); ("10", VStr "c")]))]
  /\ normalizeTables
       (VObj [("Procedures",
               VObj (obj_of_entries [("10", VStr "c"); ("0", VStr "a"); ("2", VStr "b")]))])
     = [("Procedures",
         VArr (map snd (obj_of_entries [("10", VStr "c"); ("0", VStr "a"); ("2", VStr "b")])))]
  /\ StronglySorted precedes
       (map fst (obj_of_entries [("10", VStr "c"); ("0", VStr "a"); ("2", VStr "b")])).
Proof.
  split.
  - apply (proj1 index_keyed_section_in_index_order
             "Procedures" [("0", VStr "a"); ("2", VStr "b"); ("10", VStr "c")]).
    + discriminate.
    + split; [|split].
      * repeat constructor; vm_compute; reflexivity.
      * reflexivity.
      * simpl. intros [H|[H|[H|[]]]]; discriminate H.
    + reflexivity.
  - apply (proj2 index_keyed_section_in_index_order
             "Procedures" [("10", VStr "c"); ("0", VStr "a"); ("2", VStr "b")]).
    + discriminate.
    + reflexivity.
Defined.

(** ** PatientBlock: what it counts and what it shows *)

Lemma PatientBlock_parts patient procedureTables diagnosisTables view :
  PatientBlock patient procedureTables diagnosisTables = Ok view ->
  exists patientProcs patientDiags combinedProcs combinedDiags,
    array_field patient "Procedure / Billing (All Tables)" "Procedure / Billing"
    = Ok patientProcs
    /\ array_field patient "Diagnosis (All Tables)" "Diagnosis" = Ok patientDiags
    /\ combined_tables "Patient Procedures" patientProcs
         (with_default procedureTables (VObj [])) = Ok combinedProcs
    /\ combined_tables "Patient Diagnosis" patientDiags
         (with_default diagnosisTables (VObj [])) = Ok combinedDiags
    /\ counts view
       = {| procsTotal := Some (Z.of_nat (length patientProcs)
                                + count_rows (normalizeTables
                                                (with_default procedureTables (VObj []))));
            diagsTotal := Some (Z.of_nat (length patientDiags)
                                + count_rows (normalizeTables
                                                (with_default diagnosisTables (VObj [])))) |}
    /\ ProcedureTables (VObj combinedProcs) = Ok (procedures view)
    /\ DiagnosisTables (VObj combinedDiags) (highlightCodes patient) = Ok (diagnoses view)
    /\ probe patient ["Patient Name"; "Patient"] (VStr "Unknown") = Ok (heading view)
    /\ MetadataVertical patient (counts view) = Ok (fields view).
Proof.
  unfold PatientBlock. intros H.
  bind_inv H as patientProcs Hprocs. bind_inv H as patientDiags Hdiags.
  bind_inv H as combinedProcs Hcp. bind_inv H as combinedDiags Hcd.
  bind_inv H as name Hname. bind_inv H as rows Hrows.
  bind_inv H as procs Hp. bind_inv H as diags Hd.
  injection H as <-. simpl.
  exists patientProcs, patientDiags, combinedProcs, combinedDiags.
  repeat split; assumption.
Qed.

Lemma PatientBlock_counts
    (patient procedureTables diagnosisTables : value) (view : patient_view) :
  PatientBlock patient procedureTables diagnosisTables = Ok view ->
  counts view = {| procsTotal := Some (displayed_rows (procedures view));
                   diagsTotal := Some (displayed_rows (diagnoses view)) |}.
Proof.
  intros H. apply PatientBlock_parts in H.
  destruct H as (pp & pd & cp & cd & _ & _ & Hcp & Hcd & Hcounts & Hp & Hd & _).
  apply combined_tables_settled in Hcp; [|discriminate].
  apply combined_tables_settled in Hcd; [|discriminate].
  destruct Hcp as [Hnp Hcp], Hcd as [Hnd Hcd].
  unfold ProcedureTables in Hp. unfold DiagnosisTables in Hd.
  rewrite Hnp in Hp. rewrite Hnd in Hd.
  apply render_sections_rows in Hp, Hd.
  rewrite Hcounts, Hp, Hd, Hcp, Hcd. reflexivity.
Qed.

Lemma Forall2_map_fst {A B C} (f : A -> outcome B) (l : list A) (l' : list (C * B)) (g : A -> C) :
  Forall2 (fun x y => (cell ← f x; Ok (g x, cell)) = Ok y) l l' ->
  map fst l' = map g l /\ forall k cell, In (k, cell) l' -> exists x, In x l /\ g x = k /\ f x = Ok cell.
Proof.
  induction 1 as [|x y t t' Hy Ht IH]; [split; [reflexivity|contradiction]|].
  bind_inv Hy as cell Hcell. injection Hy as <-. destruct IH as [IH1 IH2].
  split; [simpl; rewrite IH1; reflexivity|].
  intros k c [Heq|Hin].
  - injection Heq as <- <-. exists x. simpl. auto.
  - destruct (IH2 k c Hin) as (x' & Hx' & Hk & Hc). exists x'. simpl. auto.
Qed.

Lemma MetadataVertical_rows meta combinedCounts rows :
  MetadataVertical meta combinedCounts = Ok (Some rows) ->
  map fst rows = own_keys meta
  /\ forall k cell, In (k, cell) rows -> meta_cell_of meta combinedCounts k = Ok cell.
Proof.
  unfold MetadataVertical.
  destruct (negb (truthy meta) || Nat.eqb (length (own_keys meta)) 0); [discriminate|].
  intros H. bind_inv H as rs Hrs. injection H as <-.
  apply map_outcome_Forall2 in Hrs.
  apply (Forall2_map_fst (meta_cell_of meta combinedCounts) _ _ (fun k => k)) in Hrs.
  destruct Hrs as [Hkeys Hcells]. rewrite map_id in Hkeys. split; [exact Hkeys|].
  intros k cell Hin. destruct (Hcells k cell Hin) as (x & _ & -> & Hx). exact Hx.
Qed.

(** X4: The table of fields of a patient block has one row for each field of
    the patient, in order.  The rows of the fields that hold procedure rows
    show, in place of the value, the number of rows of the procedure tables
    shown below, and the rows of the fields that hold diagnosis rows the
    number of rows of the diagnosis tables shown below. *)
Theorem PatientBlock_counts_are_rows_shown
    (patient procedureTables diagnosisTables : value) (view : patient_view) :
  PatientBlock patient procedureTables diagnosisTables = Ok view ->
  procsTotal (counts view) = Some (displayed_rows (procedures view))
  /\ diagsTotal (counts view) = Some (displayed_rows (diagnoses view))
  /\ forall rows,
       fields view = Some rows ->
       map fst rows = own_keys patient
       /\ forall k cell,
            In (k, cell) rows ->
            (k = "Procedure / Billing (All Tables)" \/ k = "Procedure / Billing" ->
             cell = RowCount (displayed_rows (procedures view)))
            /\ (k = "Diagnosis (All Tables)" \/ k = "Diagnosis" ->
                cell = RowCount (displayed_rows (diagnoses view))).
Proof.
  intros H. pose proof (PatientBlock_counts _ _ _ _ H) as Hcounts.
  rewrite Hcounts. split; [reflexivity|]. split; [reflexivity|].
  intros rows Hrows. apply PatientBlock_parts in H.
  destruct H as (_ & _ & _ & _ & _ & _ & _ & _ & _ & _ & _ & _ & Hmeta).
  rewrite Hrows, Hcounts in Hmeta. apply MetadataVertical_rows in Hmeta.
  destruct Hmeta as [Hkeys Hcells]. split; [exact Hkeys|].
  intros k cell Hin. specialize (Hcells k cell Hin). unfold meta_cell_of in Hcells.
  simpl in Hcells. split.
  - intros [-> | ->]; simpl in Hcells; injection Hcells as <-; reflexivity.
  - intros [-> | ->]; simpl in Hcells; injection Hcells as <-; reflexivity.
Qed.

Lemma PatientBlock_counts_are_rows_shown_witness :
  exists view,
    PatientBlock
      (VObj [("Patient Name", VStr "A");
             ("Diagnosis", VArr [VArr [VStr "ICD-10"; VStr "J20"; VStr "Bronchitis"]])])
      (VObj [("Visit", VArr [VArr [VStr "99213"; VStr "Office visit"; VStr "5000"];
                             VObj [("Code", VStr "99214")]])])
      (VObj [("Patient Diagnosis", VArr [VObj [("Code", VStr "I10")]])])
    = Ok view
    /\ procsTotal (counts view) = Some (displayed_rows (procedures view))
    /\ diagsTotal (counts view) = Some (displayed_rows (diagnoses view))
    /\ forall rows,
         fields view = Some rows ->
         map fst rows = ["Patient Name"; "Diagnosis"]
         /\ forall k cell,
              In (k, cell) rows ->
              (k = "Procedure / Billing (All Tables)" \/ k = "Procedure / Billing" ->
               cell = RowCount (displayed_rows (procedures view)))
              /\ (k = "Diagnosis (All Tables)" \/ k = "Diagnosis" ->
                  cell = RowCount (displayed_rows (diagnoses view))).
Proof.
  eexists. split; [vm_compute; reflexivity|].
  apply (PatientBlock_counts_are_rows_shown
           (VObj [("Patient Name", VStr "A");
                  ("Diagnosis", VArr [VArr [VStr "ICD-10"; VStr "J20"; VStr "Bronchitis"]])])
           (VObj [("Visit", VArr [VArr [VStr "99213"; VStr "Office visit"; VStr "5000"];
                                  VObj [("Code", VStr "99214")]])])
           (VObj [("Patient Diagnosis", VArr [VObj [("Code", VStr "I10")]])])).
  vm_compute. reflexivity.
Defined.

Lemma flat_fallback_settled normalized section flat :
  section <> "__proto__" ->
  enumerable normalized -> Forall (fun e => is_array (snd e) = true) normalized ->
  normalizeTables (VObj (flat_fallback normalized section flat))
  = flat_fallback normalized section flat.
Proof.
  intros Hsec He Harr. apply normalizeTables_settled.
  - unfold flat_fallback. destruct flat as [| | | | |[|x l]|]; try exact He.
    destruct (Nat.eqb (length normalized) 0); [|exact He].
    split; [repeat constructor|]. split; [reflexivity|].
    simpl. intros [H|[]]. congruence.
  - unfold flat_fallback. destruct flat as [| | | | |[|x l]|]; try exact Harr.
    destruct (Nat.eqb (length normalized) 0); [|exact Harr].
    constructor; [reflexivity|constructor].
Qed.

Lemma ResultBlock_parts item view :
  ResultBlock item = Ok view ->
  normalizeTables (VObj (procedureTables view)) = procedureTables view
  /\ normalizeTables (VObj (diagnosisTables view)) = diagnosisTables view
  /\ totalProcRows view = count_rows (procedureTables view)
  /\ totalDiagRows view = count_rows (diagnosisTables view).
Proof.
  unfold ResultBlock. intros H.
  bind_inv H as pats Hpats. bind_inv H as plist Hplist.
  bind_inv H as procs Hprocs. bind_inv H as diags Hdiags.
  bind_inv H as billing Hbilling. bind_inv H as codes Hcodes.
  bind_inv H as merged Hmerged. bind_inv H as ttl Httl.
  injection H as <-. simpl.
  split; [|split; [|split; reflexivity]];
    apply flat_fallback_settled;
    auto using enumerable_normalizeTables, normalizeTables_arrays; discriminate.
Qed.

(** X5: Every patient block of a result counts the rows attached to its patient
    plus the rows the summary line of the result counts. *)
Theorem patient_blocks_count_result_rows
    (item : value) (view : result_view) (blocks : list patient_view) :
  ResultBlock item = Ok view ->
  patient_blocks view = Ok blocks ->
  Forall2
    (fun patient block =>
       exists patientProcs patientDiags,
         array_field patient "Procedure / Billing (All Tables)" "Procedure / Billing"
         = Ok patientProcs
         /\ array_field patient "Diagnosis (All Tables)" "Diagnosis" = Ok patientDiags
         /\ procsTotal (counts block)
            = Some (Z.of_nat (length patientProcs) + totalProcRows view)
         /\ diagsTotal (counts block)
            = Some (Z.of_nat (length patientDiags) + totalDiagRows view))
    (patients view) blocks.
Proof.
  intros Hview Hblocks. apply ResultBlock_parts in Hview.
  destruct Hview as (Hnp & Hnd & -> & ->).
  unfold patient_blocks in Hblocks. apply map_outcome_Forall2 in Hblocks.
  eapply Forall2_impl; [exact Hblocks|].
  intros patient block H. simpl in H. apply PatientBlock_parts in H.
  destruct H as (pp & pd & cp & cd & Hpp & Hpd & _ & _ & Hcounts & _).
  exists pp, pd. split; [exact Hpp|]. split; [exact Hpd|].
  rewrite Hcounts. simpl. rewrite Hnp, Hnd. split; reflexivity.
Qed.

Lemma patient_blocks_count_result_rows_witness :
  exists view blocks,
    ResultBlock
      (VObj [("patients", VArr [VObj [("Patient Name", VStr "A");
                                      ("Procedure / Billing", VArr [VStr "99213"])];
                                VObj [("Patient Name", VStr "B")]]);
             ("medical_billing_codes", VArr [VArr [VStr "99214"; VStr "Visit"; VStr "7500"]])])
    = Ok view
    /\ patient_blocks view = Ok blocks
    /\ Forall2
         (fun patient block =>
            exists patientProcs patientDiags,
              array_field patient "Procedure / Billing (All Tables)" "Procedure / Billing"
              = Ok patientProcs
              /\ array_field patient "Diagnosis (All Tables)" "Diagnosis" = Ok patientDiags
              /\ procsTotal (counts block)
                 = Some (Z.of_nat (length patientProcs) + totalProcRows view)
              /\ diagsTotal (counts block)
                 = Some (Z.of_nat (length patientDiags) + totalDiagRows view))
         (patients view) blocks.
Proof.
  eexists. eexists. split; [vm_compute; reflexivity|]. split; [vm_compute; reflexivity|].
  apply (patient_blocks_count_result_rows
           (VObj [("patients", VArr [VObj [("Patient Name", VStr "A");
                                           ("Procedure / Billing", VArr [VStr "99213"])];
                                     VObj [("Patient Name", VStr "B")]]);
                  ("medical_billing_codes",
                   VArr [VArr [VStr "99214"; VStr "Visit"; VStr "7500"]])]));
    vm_compute; reflexivity.
Defined.

(** ** Conversions that raise *)

Section ValueInduction.
Variable P : value -> Prop.
Hypothesis Hundef : P VUndef.
Hypothesis Hnull : P VNull.
Hypothesis Hbool : forall b, P (VBool b).
Hypothesis Hnum : forall n, P (VNum n).
Hypothesis Hstr : forall s, P (VStr s).
Hypothesis Harr : forall l, Forall P l -> P (VArr l).
Hypothesis Hobj : forall o, Forall (fun e => P (snd e)) o -> P (VObj o).

Lemma value_induction (v : value) : P v.
Proof.
  revert v. fix IH 1.
  intros [| |b|n|s|l|o];
    [exact Hundef|exact Hnull|apply Hbool|apply Hnum|apply Hstr| |].
  - apply Harr. induction l as [|x t IHl]; constructor; [apply IH|exact IHl].
  - apply Hobj. induction o as [|e t IHo]; constructor; [apply IH|exact IHo].
Qed.

End ValueInduction.

(** The elements of a sequence convert to texts unless one of them hides
    [toString]; the conversion never leaves the fragment. *)
Lemma join_parts_outcome (l : list value) :
  Forall (fun v => if hides_toString v then to_text v = Throw
                   else exists s, to_text v = Ok s) l ->
  if existsb hides_toString l
  then map_outcome (fun x => if nullish x then Ok "" else to_text x) l = Throw
  else exists parts, map_outcome (fun x => if nullish x then Ok "" else to_text x) l = Ok parts.
Proof.
  induction 1 as [|x t Hx Ht IH]; [exists []; reflexivity|].
  rewrite map_outcome_cons. simpl existsb.
  destruct (nullish x) eqn:Hn.
  - assert (Hh : hides_toString x = false) by (destruct x; try discriminate Hn; reflexivity).
    rewrite Hh. simpl. destruct (existsb hides_toString t).
    + rewrite IH. reflexivity.
    + destruct IH as [parts ->]. eexists. reflexivity.
  - destruct (hides_toString x); simpl.
    + rewrite Hx. reflexivity.
    + destruct Hx as [s ->]. simpl. destruct (existsb hides_toString t).
      * rewrite IH. reflexivity.
      * destruct IH as [parts ->]. eexists. reflexivity.
Qed.

Lemma to_text_outcome (v : value) :
  if hides_toString v then to_text v = Throw else exists s, to_text v = Ok s.
Proof.
  induction v as [| | | | |l IH|o _] using value_induction;
    try (eexists; reflexivity).
  - simpl hides_toString. pose proof (join_parts_outcome l IH) as H.
    destruct (existsb hides_toString l).
    + simpl. rewrite H. reflexivity.
    + destruct H as [parts H]. simpl. rewrite H. eexists. reflexivity.
  - simpl. destruct (has_own o "toString"); [reflexivity|eexists; reflexivity].
Qed.

Lemma join_items_outcome sep (l : list value) :
  if hides_toString (VArr l) then join_items sep l = Throw
  else exists s, join_items sep l = Ok s.
Proof.
  unfold join_items. simpl hides_toString.
  pose proof (join_parts_outcome l) as H.
  assert (Hall : Forall (fun v => if hides_toString v then to_text v = Throw
                                  else exists s, to_text v = Ok s) l).
  { apply Forall_forall. intros x _. apply to_text_outcome. }
  specialize (H Hall). destruct (existsb hides_toString l).
  - rewrite H. reflexivity.
  - destruct H as [parts ->]. eexists. reflexivity.
Qed.

(** X6: [RenderMetaValue] raises on a sequence in which the conversion to text
    meets a mapping with an own property [toString], at any depth of nested
    sequences, and on nothing else: a scalar, a mapping and every other
    sequence are rendered. *)
Theorem RenderMetaValue_raises_on_hidden_toString (v : value) :
  if is_array v && hides_toString v
  then RenderMetaValue v = Throw
  else exists view, RenderMetaValue v = Ok view.
Proof.
  unfold RenderMetaValue. destruct v as [| |b|n|s|l|o]; simpl is_array; cbv iota;
    try (simpl; eexists; reflexivity).
  - simpl signature_path. destruct (starts_with "/signatures/" s); eexists; reflexivity.
  - rewrite andb_true_l. simpl signature_path. cbv iota.
    pose proof (join_items_outcome ", " l) as H. destruct (hides_toString (VArr l)).
    + rewrite H. reflexivity.
    + destruct H as [s ->]. eexists. reflexivity.
Qed.

(** ** FeeStringRepair: the layout of a repaired fee *)

Lemma clean_chars_layout s :
  spaced false (Fee.clean_chars s) = true
  /\ ends_in_space false (Fee.clean_chars s) = false
  /\ match Fee.clean_chars s with x :: _ => is_open_bracket x = false | [] => True end.
Proof.
  rewrite (clean_chars_unfold s).
  pose proof (trim_end_ends (trim_start s)) as Htrim. fold (trim_chars s) in Htrim.
  destruct (trim_chars s) as [|c0 t0] eqn:Ht; [repeat split|].
  set (b := Fee.collapse_spaces (c0 :: t0)).
  assert (Hb : spaced false b = true /\ ends_in_space false b = false).
  { split; [apply spaced_collapse|].
    unfold b, Fee.collapse_spaces. rewrite ends_collapse. exact Htrim. }
  set (c := Fee.strip_open_brackets b).
  assert (Hc : spaced false c = true /\ ends_in_space false c = false
               /\ match c with x :: _ => is_open_bracket x = false | [] => True end).
  { destruct Hb as [Hs He].
    pose proof (span_skip_while is_open_bracket b) as Hsplit.
    fold (Fee.strip_open_brackets b) in Hsplit. fold c in Hsplit.
    rewrite <- Hsplit in Hs, He.
    split; [eapply suffix_spaced, Hs|]. split; [eapply suffix_ends, He|].
    apply skip_while_head. }
  set (d := Fee.join_split_amount c).
  assert (Hd : spaced false d = true /\ ends_in_space false d = false
               /\ match d with x :: _ => is_open_bracket x = false | [] => True end).
  { destruct Hc as [Hs [He Hh]]. unfold d.
    split; [apply join_split_amount_spaced, Hs|].
    split; [apply join_split_amount_ends, He|].
    apply (join_split_amount_head (fun x => is_open_bracket x = false)), Hh. }
  destruct (finish_cases d) as [->|Hdd]; [exact Hd|].
  pose proof (digits_dots_no_space _ Hdd) as Hns.
  split; [apply no_space_spaced, Hns|]. split; [apply no_space_ends, Hns|].
  destruct (finish d) as [|x t]; [exact I|].
  unfold digits_dots in Hdd. simpl in Hdd. apply andb_true_iff in Hdd.
  destruct Hdd as [Hx _]. apply orb_true_iff in Hx.
  destruct Hx as [Hx|Hx]; [apply digit_not_bracket|apply dot_not_bracket]; exact Hx.
Qed.

(** X7: Whatever it is given, [_cleanFeeString] returns a text in which white
    space occurs only as single spaces, never two in a row, which does not
    end with white space and does not begin with [|], [[] or [(]. *)
Theorem cleanFeeString_layout (s : value) (r : string) :
  _cleanFeeString s = Ok r ->
  spaced false (explode r) = true
  /\ ends_in_space false (explode r) = false
  /\ match explode r with x :: _ => is_open_bracket x = false | [] => True end.
Proof.
  unfold _cleanFeeString. destruct (nullish s).
  - intros H. injection H as <-. repeat split.
  - intros H. bind_inv H as t Ht. injection H as <-.
    unfold Fee.clean_text. rewrite explode_implode. apply clean_chars_layout.
Qed.

Lemma cleanFeeString_layout_witness :
  spaced false (explode "n/a 7 [x") = true
  /\ ends_in_space false (explode "n/a 7 [x") = false
  /\ match explode "n/a 7 [x" with x :: _ => is_open_bracket x = false | [] => True end.
Proof.
  apply (cleanFeeString_layout (VStr " ([n/a    7 [x  ") "n/a 7 [x").
  vm_compute. reflexivity.
Defined.

(** ** FeeStringRepair: amounts written with digits only *)

Lemma digits_no_surplus_zeros l : forallb is_digit l = true -> surplus_zeros_chars l = false.
Proof.
  intros H. unfold surplus_zeros_chars. destruct l as [|z1 [|z2 t]]; try reflexivity.
  pose proof (forallb_skip_while is_zero is_digit _ H) as Hs.
  destruct (skip_while is_zero (z1 :: z2 :: t)) as [|p [|d1 [|d2 [|x r]]]];
    rewrite ?andb_false_r; try reflexivity.
  simpl in Hs. apply andb_true_iff in Hs. destruct Hs as [Hp _].
  destruct (is_dot p) eqn:Hdot; [|rewrite ?andb_false_r; reflexivity].
  rewrite (dot_not_digit p Hdot) in Hp. discriminate.
Qed.

Lemma digits_pass_through l :
  all_digits l = true ->
  Fee.clean_chars l = finish l /\ Fee.collapse_zeros l = l.
Proof.
  unfold all_digits. intros H. apply andb_true_iff in H. destruct H as [Hne Hd].
  pose proof (digits_no_space l Hd) as Hns.
  assert (Hhead : match l with c :: _ => is_space c = false | [] => True end).
  { destruct l as [|c t]; [exact I|]. simpl in Hns. apply andb_true_iff in Hns.
    destruct Hns as [Hc _]. apply negb_true_iff, Hc. }
  assert (Hbr : match l with c :: _ => is_open_bracket c = false | [] => True end).
  { destruct l as [|c t]; [exact I|]. simpl in Hd. apply andb_true_iff in Hd.
    destruct Hd as [Hc _]. apply digit_not_bracket, Hc. }
  split; [|apply collapse_zeros_fixed, digits_no_surplus_zeros, Hd].
  rewrite clean_chars_unfold.
  rewrite (trim_chars_fixed l Hhead (no_space_ends l Hns)).
  destruct l as [|c t]; [discriminate Hne|].
  unfold Fee.collapse_spaces.
  rewrite (collapse_fixed false (c :: t) (no_space_spaced false (c :: t) Hns)).
  unfold Fee.strip_open_brackets. rewrite (skip_while_fixed is_open_bracket (c :: t) Hbr).
  rewrite (join_split_amount_no_space (c :: t) Hns). reflexivity.
Qed.

Lemma ends_dot_2digits_insert_point l :
  forallb is_digit l = true -> (2 < length l)%nat ->
  Fee.ends_dot_2digits (Fee.insert_point l) = true.
Proof.
  intros Hd Hlen. unfold Fee.insert_point, Fee.ends_dot_2digits.
  rewrite rev_app_distr. simpl rev.
  assert (Hdrop : length (drop (length l - 2) l) = 2%nat) by (rewrite length_drop; lia).
  assert (Hdd : forallb is_digit (drop (length l - 2) l) = true).
  { rewrite <- (take_drop (length l - 2) l) in Hd. rewrite forallb_app in Hd.
    apply andb_true_iff in Hd. tauto. }
  destruct (drop (length l - 2) l) as [|a [|b [|x r]]]; try discriminate Hdrop.
  simpl in Hdd. apply andb_true_iff in Hdd. destruct Hdd as [Ha Hb].
  rewrite andb_true_r in Hb. simpl. rewrite Ha, Hb. reflexivity.
Qed.

Lemma pad_short_digits l :
  all_digits l = true -> (length l <= 2)%nat -> pad_step l = l ++ [dot; zero; zero].
Proof.
  intros Hall Hlen. pose proof Hall as H. unfold all_digits in H.
  apply andb_true_iff in H. destruct H as [_ Hd].
  unfold pad_step.
  assert (Hdec : Fee.is_decimal l = true).
  { unfold Fee.is_decimal. rewrite (skip_while_all_true is_digit l Hd). exact Hall. }
  assert (Hends : Fee.ends_dot_2digits l = false).
  { unfold Fee.ends_dot_2digits.
    assert (Hr : (length (rev l) <= 2)%nat) by (rewrite length_rev; exact Hlen).
    destruct (rev l) as [|a [|b [|c r]]]; try reflexivity. simpl in Hr. lia. }
  rewrite Hdec, Hends. simpl. unfold Fee.pad_decimals, Fee.split_dot.
  rewrite (split_dot_from_no_dot [] l (digits_no_dot l Hd)). reflexivity.
Qed.

(** On a text of digits [_cleanFeeString] reads the last two digits as
    decimals when there are three digits or more, and appends [.00] when
    there are one or two. *)
Lemma clean_chars_digits l :
  all_digits l = true ->
  Fee.clean_chars l
  = if Nat.ltb 2 (length l)
    then take (length l - 2) l ++ dot :: drop (length l - 2) l
    else l ++ [dot; zero; zero].
Proof.
  intros Hall. destruct (digits_pass_through l Hall) as [-> Hz].
  unfold finish. rewrite Hz. unfold point_step. rewrite Hall. simpl andb.
  pose proof Hall as H. unfold all_digits in H.
  apply andb_true_iff in H. destruct H as [_ Hd].
  destruct (Nat.ltb 2 (length l)) eqn:Hlen.
  - apply Nat.ltb_lt in Hlen. unfold pad_step.
    rewrite (ends_dot_2digits_insert_point l Hd Hlen). rewrite andb_false_r. reflexivity.
  - apply Nat.ltb_ge in Hlen. apply pad_short_digits; assumption.
Qed.

Lemma uint_digits (d : Decimal.uint) :
  forallb is_digit (explode (NilEmpty.string_of_uint d)) = true.
Proof. induction d; simpl; auto. Qed.

Lemma text_of_Z_digits (n : Z) :
  0 <= n -> safe_integer n = true -> all_digits (explode (text_of_Z n)) = true.
Proof.
  intros Hn Hsafe. unfold text_of_Z. rewrite Hsafe. unfold all_digits.
  destruct n as [|p|p]; [reflexivity| |lia].
  simpl Z.to_int. simpl NilZero.string_of_int. unfold NilZero.string_of_uint.
  destruct (Pos.to_uint p) as [|u|u|u|u|u|u|u|u|u|u] eqn:Hp; try reflexivity;
    rewrite uint_digits, andb_true_r; reflexivity.
Qed.

(** X8: A fee written with digits only, be it a text or a number that is
    not negative and that the engine holds exactly (at most [2^53 - 1]),
    comes out with its last two digits as decimals when it has three digits
    or more, and with [.00] appended when it has one or two: [5000] gives
    ["50.00"] and [75] gives ["75.00"]. *)
Theorem cleanFeeString_digits_only :
  (forall t : string,
      all_digits (explode t) = true ->
      _cleanFeeString (VStr t)
      = Ok (implode (if Nat.ltb 2 (length (explode t))
                     then take (length (explode t) - 2) (explode t)
                          ++ dot :: drop (length (explode t) - 2) (explode t)
                     else explode t ++ [dot; zero; zero])))
  /\ (forall n : Z,
        0 <= n <= 9007199254740991 ->
        all_digits (explode (text_of_Z n)) = true
        /\ _cleanFeeString (VNum n)
           = Ok (implode (if Nat.ltb 2 (length (explode (text_of_Z n)))
                          then take (length (explode (text_of_Z n)) - 2) (explode (text_of_Z n))
                               ++ dot :: drop (length (explode (text_of_Z n)) - 2)
                                              (explode (text_of_Z n))
                          else explode (text_of_Z n) ++ [dot; zero; zero]))).
Proof.
  assert (Htext : forall t : string,
             all_digits (explode t) = true ->
             Fee.clean_text t
             = implode (if Nat.ltb 2 (length (explode t))
                        then take (length (explode t) - 2) (explode t)
                             ++ dot :: drop (length (explode t) - 2) (explode t)
                        else explode t ++ [dot; zero; zero])).
  { intros t Hall. unfold Fee.clean_text. rewrite (clean_chars_digits _ Hall). reflexivity. }
  split.
  - intros t Hall. unfold _cleanFeeString. simpl. rewrite (Htext t Hall). reflexivity.
  - intros n Hn.
    assert (Hall : all_digits (explode (text_of_Z n)) = true).
    { apply text_of_Z_digits; [lia|]. unfold safe_integer. apply Z.leb_le. lia. }
    split; [exact Hall|].
    unfold _cleanFeeString. simpl. rewrite (Htext _ Hall). reflexivity.
Qed.

Lemma cleanFeeString_digits_only_witness :
  _cleanFeeString (VStr "75") = Ok "75.00"
  /\ _cleanFeeString (VNum 5000) = Ok "50.00".
Proof.
  split.
  - apply (proj1 cleanFeeString_digits_only "75"). reflexivity.
  - apply (proj2 (proj2 cleanFeeString_digits_only 5000 ltac:(lia))).
Defined.

(** ** FeeStringRepair: the decimals of a numeric result *)

Lemma ends_dot_2digits_frac int p frac :
  is_dot p = true -> forallb is_digit frac = true -> frac <> [] ->
  Fee.ends_dot_2digits (int ++ p :: frac) = true -> (2 <= length frac)%nat.
Proof.
  intros Hp Hd Hne. unfold Fee.ends_dot_2digits.
  rewrite rev_app_distr. simpl rev. rewrite <- app_assoc. simpl.
  destruct frac as [|a [|b r]]; [congruence| |simpl; lia].
  simpl. destruct (rev int); [discriminate|].
  rewrite (dot_not_digit p Hp), andb_false_r. discriminate.
Qed.

Lemma ends_dot_2digits_digits l : forallb is_digit l = true -> Fee.ends_dot_2digits l = false.
Proof.
  intros Hd. unfold Fee.ends_dot_2digits.
  assert (Hr : forallb is_digit (rev l) = true).
  { rewrite forallb_forall in *. intros x Hx. apply Hd. apply in_rev. exact Hx. }
  destruct (rev l) as [|d2 [|d1 [|p r]]]; try reflexivity.
  simpl in Hr. repeat (apply andb_true_iff in Hr; destruct Hr as [? Hr]).
  destruct (is_dot p) eqn:Hp; [|rewrite andb_false_r; reflexivity].
  rewrite (dot_not_digit p Hp) in *. discriminate.
Qed.

(** A decimal numeral with at least two decimals. *)
Lemma pad_step_decimals f :
  Fee.is_decimal (pad_step f) = true ->
  exists int p frac,
    pad_step f = int ++ p :: frac
    /\ all_digits int = true /\ is_dot p = true
    /\ forallb is_digit frac = true /\ (2 <= length frac)%nat.
Proof.
  unfold pad_step. destruct (Fee.is_decimal f) eqn:Hdec; simpl.
  2: { intros H. congruence. }
  destruct (is_decimal_cases f Hdec) as [[Hd Hne]|(int & p & frac & -> & Hi & Hp & Hf & Hne)].
  - rewrite (ends_dot_2digits_digits f Hd). simpl. intros _.
    unfold Fee.pad_decimals, Fee.split_dot.
    rewrite (split_dot_from_no_dot [] f (digits_no_dot f Hd)). simpl.
    exists f, dot, [zero; zero]. repeat split; try reflexivity.
    unfold all_digits. rewrite Hd, andb_true_r. destruct f; [congruence|reflexivity].
  - assert (Hint : all_digits int = true).
    { unfold all_digits. rewrite Hi, andb_true_r.
      unfold Fee.is_decimal in Hdec.
      destruct int as [|c t]; [|reflexivity]. simpl in Hdec.
      rewrite (dot_not_digit p Hp) in Hdec. simpl in Hdec.
      rewrite Hp in Hdec. simpl in Hdec. discriminate Hdec. }
    destruct (Fee.ends_dot_2digits (int ++ p :: frac)) eqn:Hends; simpl.
    + intros _. exists int, p, frac. repeat split; auto.
      eapply ends_dot_2digits_frac; eassumption.
    + intros _. unfold Fee.pad_decimals, Fee.split_dot.
      rewrite (split_dot_from_at_dot [] int p frac (digits_no_dot int Hi) Hp).
      rewrite (split_dot_from_no_dot [] frac (digits_no_dot frac Hf)). simpl.
      destruct (Nat.eqb (length frac) 1) eqn:Hlen.
      * apply Nat.eqb_eq in Hlen. exists int, p, (frac ++ [zero]).
        rewrite <- app_assoc. simpl. repeat split; auto.
        -- rewrite forallb_app, Hf. reflexivity.
        -- rewrite length_app. simpl. lia.
      * apply Nat.eqb_neq in Hlen. exists int, p, frac. repeat split; auto.
        destruct frac as [|a [|b r]]; [congruence|simpl in Hlen; lia|simpl; lia].
Qed.

(** X9: When the text [_cleanFeeString] returns is a decimal numeral, digits
    with or without a dot and digits after it, it has the dot, and at least
    two digits after it: no repaired fee is a whole number or a number with
    one decimal. *)
Theorem cleanFeeString_two_decimals (s : value) (r : string) :
  _cleanFeeString s = Ok r ->
  Fee.is_decimal (explode r) = true ->
  exists int frac,
    explode r = int ++ dot :: frac
    /\ all_digits int = true /\ forallb is_digit frac = true /\ (2 <= length frac)%nat.
Proof.
  unfold _cleanFeeString. destruct (nullish s).
  - intros H. injection H as <-. discriminate.
  - intros H. bind_inv H as t Ht. injection H as <-.
    unfold Fee.clean_text. rewrite explode_implode, clean_chars_unfold.
    destruct (trim_chars (explode t)) as [|c0 t0]; [discriminate|].
    unfold finish. intros Hdec.
    destruct (pad_step_decimals _ Hdec) as (int & p & frac & -> & Hi & Hp & Hf & Hlen).
    exists int, frac. split; [|auto].
    assert (Heq : p = dot).
    { unfold is_dot in Hp. apply N.eqb_eq in Hp. apply code_inj. exact Hp. }
    rewrite Heq. reflexivity.
Qed.

Lemma cleanFeeString_two_decimals_witness :
  exists int frac,
    explode "10.50" = int ++ dot :: frac
    /\ all_digits int = true /\ forallb is_digit frac = true /\ (2 <= length frac)%nat.
Proof.
  apply (cleanFeeString_two_decimals (VStr " 10.5") "10.50"); reflexivity.
Defined.

(** ** FeeStringRepair: amounts that are already well formed *)

Lemma clean_chars_amount int d1 d2 :
  all_digits int = true -> is_digit d1 = true -> is_digit d2 = true ->
  surplus_zeros_chars (int ++ [dot; d1; d2]) = false ->
  Fee.clean_chars (int ++ [dot; d1; d2]) = int ++ [dot; d1; d2].
Proof.
  intros Hint H1 H2 Hz. unfold all_digits in Hint.
  apply andb_true_iff in Hint. destruct Hint as [Hne Hd].
  set (l := int ++ [dot; d1; d2]) in *.
  assert (Hdd : digits_dots l = true).
  { unfold l. rewrite digits_dots_app, (all_digits_digits_dots int Hd).
    unfold digits_dots. simpl. rewrite H1, H2. reflexivity. }
  pose proof (digits_dots_no_space l Hdd) as Hns.
  assert (Hhead : exists c t, l = c :: t /\ is_digit c = true).
  { unfold l. destruct int as [|c t]; [discriminate Hne|].
    simpl in Hd. apply andb_true_iff in Hd. destruct Hd as [Hc _].
    exists c, (t ++ [dot; d1; d2]). auto. }
  destruct Hhead as (c & t & Hl & Hc).
  assert (Hnot : forallb is_digit l = false).
  { unfold l. rewrite forallb_app. simpl. apply andb_false_r. }
  assert (Hends : Fee.ends_dot_2digits l = true).
  { unfold Fee.ends_dot_2digits, l. rewrite rev_app_distr. simpl.
    rewrite H1, H2. reflexivity. }
  clearbody l. subst l.
  rewrite clean_chars_unfold.
  rewrite (trim_chars_fixed (c :: t) (digit_not_space c Hc) (no_space_ends _ Hns)).
  unfold Fee.collapse_spaces.
  rewrite (collapse_fixed false (c :: t) (no_space_spaced false _ Hns)).
  unfold Fee.strip_open_brackets.
  rewrite (skip_while_fixed is_open_bracket (c :: t) (digit_not_bracket c Hc)).
  rewrite (join_split_amount_no_space (c :: t) Hns).
  unfold finish. rewrite (collapse_zeros_fixed (c :: t) Hz).
  unfold point_step, all_digits. rewrite Hnot, andb_false_r. simpl andb. cbv iota.
  unfold pad_step. rewrite Hends, andb_false_r. reflexivity.
Qed.

(** X10: An amount that is already well formed, digits, a dot and two digits,
    comes back as it is, unless it begins with two or more zeros, of which
    only one is kept. *)
Theorem cleanFeeString_keeps_amounts (int : string) (d1 d2 : ascii) :
  all_digits (explode int) = true -> is_digit d1 = true -> is_digit d2 = true ->
  surplus_zeros (int +:+ String dot (String d1 (String d2 ""))) = false ->
  _cleanFeeString (VStr (int +:+ String dot (String d1 (String d2 ""))))
  = Ok (int +:+ String dot (String d1 (String d2 ""))).
Proof.
  intros Hint H1 H2 Hz. unfold _cleanFeeString.
  change (Ok (Fee.clean_text (int +:+ String dot (String d1 (String d2 ""))))
          = Ok (int +:+ String dot (String d1 (String d2 "")))).
  unfold Fee.clean_text. unfold surplus_zeros in Hz. rewrite explode_append in *.
  change (explode (String dot (String d1 (String d2 "")))) with [dot; d1; d2] in *.
  rewrite (clean_chars_amount _ d1 d2 Hint H1 H2 Hz).
  change [dot; d1; d2] with (explode (String dot (String d1 (String d2 "")))).
  rewrite <- explode_append, implode_explode. reflexivity.
Qed.

Lemma cleanFeeString_keeps_amounts_witness :
  _cleanFeeString (VStr ("1250" +:+ String dot (String "0" (String "5" ""))))
  = Ok ("1250" +:+ String dot (String "0" (String "5" ""))).
Proof.
  apply (cleanFeeString_keeps_amounts "1250" "0"%char "5"%char); reflexivity.
Defined.

(** ** RowNormalizer: the rows it returns *)

Lemma skip_while_snoc_stop {A} (f : A -> bool) a c :
  f c = false -> exists x, skip_while f (a ++ [c]) = x ++ [c].
Proof.
  intros Hc. induction a as [|y t IH]; simpl.
  - rewrite Hc. exists []. reflexivity.
  - destruct (f y); [exact IH|]. exists (y :: t). reflexivity.
Qed.

Lemma trim_end_cons c t : is_space c = false -> exists t', trim_end (c :: t) = c :: t'.
Proof.
  intros Hc. unfold trim_end. simpl rev.
  destruct (skip_while_snoc_stop is_space (rev t) c Hc) as [x ->].
  rewrite rev_app_distr. simpl. eexists. reflexivity.
Qed.

Lemma trim_chars_idempotent l : trim_chars (trim_chars l) = trim_chars l.
Proof.
  pose proof (trim_end_ends (trim_start l)) as Hend. fold (trim_chars l) in Hend.
  apply trim_chars_fixed; [|exact Hend].
  unfold trim_chars, trim_start.
  pose proof (skip_while_head is_space l) as Hhead.
  destruct (skip_while is_space l) as [|c t]; [exact I|].
  destruct (trim_end_cons c t Hhead) as [t' ->]. exact Hhead.
Qed.

Lemma trim_idempotent s : trim (trim s) = trim s.
Proof. unfold trim. rewrite explode_implode, trim_chars_idempotent. reflexivity. Qed.

Lemma get_prop_own (r : value) k :
  nullish r = false ->
  exists v, get_prop r k = Ok v /\ (v = VUndef \/ In v (own_values r)).
Proof.
  intros Hr. exists (default VUndef (lookup_prop (own_entries r) k)). split.
  - destruct r; try discriminate Hr; reflexivity.
  - unfold own_values. destruct (lookup_prop (own_entries r) k) as [v|] eqn:Hk; [|left; reflexivity].
    right. apply lookup_prop_In in Hk. apply (in_map snd) in Hk. exact Hk.
Qed.

Lemma probe_own (r : value) keys d :
  nullish r = false ->
  exists v, probe r keys d = Ok v /\ (v = d \/ In v (own_values r)).
Proof.
  intros Hr. induction keys as [|k ks IH]; simpl.
  - exists d. auto.
  - destruct (get_prop_own r k Hr) as [v [-> Hv]]. simpl.
    destruct (nullish v) eqn:Hn; [exact IH|].
    exists v. split; [reflexivity|]. destruct Hv as [->|Hv]; [discriminate|auto].
Qed.

Lemma trimmed_text_returns v :
  hides_toString v = false -> exists s, trimmed_text v = Ok s /\ trim s = s.
Proof.
  intros Hv. pose proof (to_text_outcome v) as H. rewrite Hv in H.
  destruct H as [t Ht]. unfold trimmed_text. rewrite Ht. simpl.
  exists (trim t). split; [reflexivity|apply trim_idempotent].
Qed.

Lemma cleanFeeString_returns v :
  hides_toString v = false -> exists f, _cleanFeeString v = Ok f.
Proof.
  intros Hv. pose proof (to_text_outcome v) as H. rewrite Hv in H.
  destruct H as [t Ht]. unfold _cleanFeeString. rewrite Ht.
  destruct (nullish v); eexists; reflexivity.
Qed.

Lemma probe_plain (r : value) keys s :
  nullish r = false ->
  forallb (fun v => negb (hides_toString v)) (own_values r) = true ->
  exists v, probe r keys (VStr s) = Ok v /\ hides_toString v = false.
Proof.
  intros Hr Hall. destruct (probe_own r keys (VStr s) Hr) as [v [Hv Hin]].
  exists v. split; [exact Hv|]. destruct Hin as [->|Hin]; [reflexivity|].
  rewrite forallb_forall in Hall. apply negb_true_iff, Hall, Hin.
Qed.

Lemma truthy_not_nullish v : truthy v = true -> nullish v = false.
Proof. destruct v; simpl; congruence. Qed.

(** X11: [normalizeProcRow] and [normalizeDiagRow] return a row for every row
    in whose fields the conversion to text meets no own property
    [toString]; the code and the description [normalizeProcRow] returns
    have no white space around them. *)
Theorem row_normalizers_return (r : value) :
  forallb (fun v => negb (hides_toString v)) (own_values r) = true ->
  (exists code desc fee,
      normalizeProcRow r = Ok (code, desc, fee) /\ trim code = code /\ trim desc = desc)
  /\ (exists type code diag, normalizeDiagRow r = Ok (type, code, diag)).
Proof.
  intros Hall. unfold normalizeProcRow, normalizeDiagRow.
  destruct (truthy r) eqn:Hr; simpl negb; cbv iota.
  2: { split; [exists "", "", ""|eexists _, _, _]; repeat split; reflexivity. }
  apply truthy_not_nullish in Hr.
  assert (Hprobe : forall keys s, exists v,
             probe r keys (VStr s) = Ok v /\ hides_toString v = false).
  { intros keys s. apply probe_plain; assumption. }
  assert (Hrow : forall k1 k2 k3,
             exists code desc fee,
               (code ← probe r k1 (VStr "");
                desc ← probe r k2 (VStr "");
                fee ← probe r k3 (VStr "");
                c ← trimmed_text code; d ← trimmed_text desc; f ← _cleanFeeString fee;
                Ok (c, d, f)) = Ok (code, desc, fee)
               /\ trim code = code /\ trim desc = desc).
  { intros k1 k2 k3.
    destruct (Hprobe k1 "") as [v1 [-> H1]], (Hprobe k2 "") as [v2 [-> H2]],
             (Hprobe k3 "") as [v3 [-> H3]]. simpl.
    destruct (trimmed_text_returns v1 H1) as [c [-> Hc]].
    destruct (trimmed_text_returns v2 H2) as [d [-> Hd]].
    destruct (cleanFeeString_returns v3 H3) as [f ->]. simpl.
    exists c, d, f. auto. }
  split.
  - destruct (is_array r); apply Hrow.
  - destruct (is_array r).
    + destruct (Hprobe ["0"] "ICD-10") as [v1 [-> _]], (Hprobe ["1"] "") as [v2 [-> _]],
               (Hprobe ["2"] "") as [v3 [-> _]]. simpl. eexists _, _, _. reflexivity.
    + destruct (Hprobe ["Type"; "type"; "0"] "ICD-10") as [v1 [-> _]],
               (Hprobe ["Code"; "code"; "1"] "") as [v2 [-> H2]],
               (Hprobe ["Diagnosis"; "diagnosis"; "Description"; "description"; "2"] "")
                 as [v3 [-> H3]]. simpl.
      destruct (trimmed_text_returns v2 H2) as [c [-> _]].
      destruct (trimmed_text_returns v3 H3) as [d [-> _]]. simpl.
      eexists _, _, _. reflexivity.
Qed.

Lemma row_normalizers_return_witness :
  (exists code desc fee,
      normalizeProcRow (VObj [("code", VNum 99213); ("Desc", VArr [VStr " Office"; VStr "visit "]);
                              ("Amount", VStr "| 75")])
      = Ok (code, desc, fee) /\ trim code = code /\ trim desc = desc)
  /\ (exists type code diag,
         normalizeDiagRow (VObj [("code", VNum 99213); ("Desc", VArr [VStr " Office"; VStr "visit "]);
                                 ("Amount", VStr "| 75")])
         = Ok (type, code, diag)).
Proof.
  apply (row_normalizers_return
           (VObj [("code", VNum 99213); ("Desc", VArr [VStr " Office"; VStr "visit "]);
                  ("Amount", VStr "| 75")])).
  reflexivity.
Defined.

(** X12: A procedure row gives the same result as a sequence [[code, desc, fee]]
    and as a mapping with the fields [Code], [Description] and [Fee], or
    [code], [description] and [fee], whatever the three values are. *)
Theorem normalizeProcRow_shapes_agree (code desc fee : value) :
  normalizeProcRow (VObj [("Code", code); ("Description", desc); ("Fee", fee)])
  = normalizeProcRow (VArr [code; desc; fee])
  /\ normalizeProcRow (VObj [("code", code); ("description", desc); ("fee", fee)])
     = normalizeProcRow (VArr [code; desc; fee]).
Proof.
  unfold normalizeProcRow. simpl.
  destruct (nullish code), (nullish desc), (nullish fee); split; reflexivity.
Qed.

(** ** CodeHighlighter: what a match looks like *)

Lemma digits_exactly_shape n taken l taken' rest :
  Icd.digits_exactly n taken l = Some (taken', rest) ->
  exists ds, length ds = n /\ forallb is_digit ds = true
             /\ taken' = rev ds ++ taken /\ l = ds ++ rest.
Proof.
  revert taken l. induction n as [|n IH]; simpl; intros taken l H.
  - injection H as <- <-. exists []. auto.
  - destruct l as [|c t]; [discriminate|].
    destruct (is_digit c) eqn:Hc; [|discriminate].
    destruct (IH _ _ H) as (ds & Hlen & Hd & -> & ->).
    exists (c :: ds). simpl. rewrite Hc, Hd, Hlen, <- app_assoc. auto.
Qed.

Lemma suffix_runs_shape taken l cand :
  In cand (Icd.suffix_runs taken l) ->
  exists run, run <> [] /\ forallb Icd.is_suffix_char run = true
              /\ fst cand = rev run ++ taken /\ l = run ++ snd cand.
Proof.
  revert taken. induction l as [|c t IH]; simpl; intros taken H; [contradiction|].
  destruct (Icd.is_suffix_char c) eqn:Hc; [|contradiction].
  apply in_app_or in H. destruct H as [H|[<-|[]]].
  - destruct (IH _ H) as (run & _ & Hrun & -> & Hl).
    exists (c :: run). simpl. rewrite Hc, Hrun, <- app_assoc, <- Hl.
    split; [discriminate|auto].
  - exists [c]. simpl. rewrite Hc. split; [discriminate|auto].
Qed.

Lemma match_tail_shape taken l taken' rest :
  Icd.match_tail taken l = Some (taken', rest) ->
  (taken' = taken /\ rest = l)
  \/ exists p run, is_dot p = true /\ run <> [] /\ forallb Icd.is_suffix_char run = true
                   /\ taken' = rev run ++ p :: taken /\ l = p :: run ++ rest.
Proof.
  unfold Icd.match_tail.
  set (cands := _ ++ [(taken, l)]).
  destruct (filter _ cands) as [|cand others] eqn:Hf; [discriminate|].
  assert (Hin : cand ∈ cands).
  { eapply list_elem_of_filter. rewrite Hf. left. }
  intros H. injection H as Heq. apply list_elem_of_In in Hin. unfold cands in Hin.
  rewrite Heq in Hin. clear Hf cands Heq.
  apply in_app_or in Hin. destruct Hin as [Hin|[Heq|[]]].
  - right. destruct l as [|p t]; [contradiction|].
    destruct (is_dot p) eqn:Hp; [|contradiction].
    apply suffix_runs_shape in Hin. destruct Hin as (run & Hne & Hrun & Ht & Hl).
    simpl in Ht, Hl. exists p, run. rewrite Hl. auto.
  - left. injection Heq as <- <-. auto.
Qed.

Lemma span_skip_at_stop {A} (f : A -> bool) ds tail :
  forallb f ds = true ->
  match tail with x :: _ => f x = false | [] => True end ->
  span_while f (ds ++ tail) = ds /\ skip_while f (ds ++ tail) = tail.
Proof.
  intros Hd Htail. induction ds as [|c t IH]; simpl.
  - destruct tail as [|x r]; [auto|]. simpl. rewrite Htail. auto.
  - simpl in Hd. apply andb_true_iff in Hd. destruct Hd as [-> Ht].
    destruct (IH Ht) as [-> ->]. auto.
Qed.

(** Every match of the pattern has the shape of a code. *)
Lemma match_at_code_shaped prev l m :
  Icd.match_at prev l = Some m -> code_shaped (implode m) = true.
Proof.
  unfold Icd.match_at. destruct l as [|a t]; [discriminate|].
  destruct (Icd.boundary prev (Some a) && is_upper a) eqn:Hstart; [|discriminate].
  apply andb_true_iff in Hstart. destruct Hstart as [_ Ha].
  assert (Hattempt : forall n taken rest,
             (n = 2 \/ n = 3)%nat ->
             match Icd.digits_exactly n [a] t with
             | Some (taken0, rest0) => Icd.match_tail taken0 rest0
             | None => None
             end = Some (taken, rest) ->
             code_shaped (implode (rev taken)) = true).
  { intros n taken rest Hn H.
    destruct (Icd.digits_exactly n [a] t) as [[taken0 rest0]|] eqn:Hd; [|discriminate].
    apply digits_exactly_shape in Hd. destruct Hd as (ds & Hlen & Hds & -> & _).
    apply match_tail_shape in H. unfold code_shaped. rewrite explode_implode.
    destruct H as [[-> _]|(p & run & Hp & Hne & Hrun & -> & _)].
    - rewrite rev_app_distr, rev_involutive. simpl.
      destruct (span_skip_at_stop is_digit ds [] Hds I) as [Hspan Hskip].
      rewrite app_nil_r in Hspan, Hskip. rewrite Hspan, Hskip, Ha, Hlen. simpl.
      destruct Hn as [->| ->]; reflexivity.
    - rewrite rev_app_distr. simpl. rewrite rev_app_distr, !rev_involutive. simpl.
      rewrite <- app_assoc. simpl.
      destruct (span_skip_at_stop is_digit ds (p :: run) Hds (dot_not_digit p Hp))
        as [Hspan Hskip].
      rewrite Hspan, Hskip, Ha, Hlen, Hp, Hrun. simpl.
      destruct run as [|x r]; [congruence|]. simpl.
      destruct Hn as [->| ->]; reflexivity. }
  destruct (match Icd.digits_exactly 3 [a] t with
            | Some (taken0, rest0) => Icd.match_tail taken0 rest0
            | None => None
            end) as [[taken rest]|] eqn:H3.
  - intros H. injection H as <-. eapply (Hattempt 3%nat); [auto|exact H3].
  - destruct (match Icd.digits_exactly 2 [a] t with
              | Some (taken0, rest0) => Icd.match_tail taken0 rest0
              | None => None
              end) as [[taken rest]|] eqn:H2; [|discriminate].
    intros H. injection H as <-. eapply (Hattempt 2%nat); [auto|exact H2].
Qed.

Lemma scan_matches prev skip l m :
  In m (Icd.scan prev skip l) -> exists prev' l', Icd.match_at prev' l' = Some m.
Proof.
  revert prev skip. induction l as [|c t IH]; intros prev skip H; [contradiction|].
  rewrite scan_cons in H. destruct skip as [|n]; [|eapply IH, H].
  destruct (Icd.match_at prev (c :: t)) as [m0|] eqn:Hm; [|eapply IH, H].
  destruct H as [<-|H]; [eauto|eapply IH, H].
Qed.

Lemma matches_code_shaped s code :
  In code (map trim (Icd.matches s)) -> code_shaped code = true.
Proof.
  intros H. apply in_map_iff in H. destruct H as (m & <- & Hm).
  unfold Icd.matches in Hm. apply in_map_iff in Hm. destruct Hm as (chars & <- & Hc).
  apply scan_matches in Hc. destruct Hc as (prev & l & Hc).
  apply match_at_code_shaped in Hc. rewrite (code_shaped_trim _ Hc). exact Hc.
Qed.

Lemma highlightCodes_In (patient : value) (code : string) :
  In code (highlightCodes patient)
  <-> exists v s, In v (own_values (patient ?| VObj []))
                  /\ to_text (v ?| VStr "") = Ok s
                  /\ In code (map trim (Icd.matches s)).
Proof.
  unfold highlightCodes. rewrite In_fold_highlight_field. simpl. tauto.
Qed.

(** ** CodeHighlighter: the set of codes *)

Lemma distinct_set_add set x : distinct set = true -> distinct (set_add set x) = true.
Proof.
  intros Hd. unfold set_add. destruct (existsb (String.eqb x) set) eqn:Hx; [exact Hd|].
  apply distinct_snoc; [|exact Hd]. apply existsb_eqb_not_In, Hx.
Qed.

Lemma distinct_fold_set_add l set :
  distinct set = true -> distinct (fold_left set_add l set) = true.
Proof.
  revert set. induction l as [|x t IH]; simpl; intros set Hd; [exact Hd|].
  apply IH, distinct_set_add, Hd.
Qed.

Lemma distinct_highlight_field set v :
  distinct set = true -> distinct (highlight_field set v) = true.
Proof.
  intros Hd. unfold highlight_field. destruct (to_text (v ?| VStr "")); try exact Hd.
  apply distinct_fold_set_add, Hd.
Qed.

Lemma distinct_highlightCodes patient : distinct (highlightCodes patient) = true.
Proof.
  unfold highlightCodes. generalize (own_values (patient ?| VObj [])).
  assert (H : forall vs set, distinct set = true ->
                             distinct (fold_left highlight_field vs set) = true).
  { induction vs as [|v t IH]; simpl; intros set Hd; [exact Hd|].
    apply IH, distinct_highlight_field, Hd. }
  intros vs. apply H. reflexivity.
Qed.

(** X13: Everything [highlightCodes] collects has the shape of a code: an
    upper-case letter, two or three digits and, possibly, a dot followed by
    digits and upper-case letters.  No code is collected twice. *)
Theorem highlightCodes_only_code_shaped (patient : value) :
  distinct (highlightCodes patient) = true
  /\ forall code, In code (highlightCodes patient) -> code_shaped code = true.
Proof.
  split; [apply distinct_highlightCodes|].
  intros code H. apply highlightCodes_In in H. destruct H as (v & s & _ & _ & H).
  eapply matches_code_shaped, H.
Qed.

Lemma highlightCodes_only_code_shaped_witness : code_shaped "E11.9" = true.
Proof.
  apply (proj2 (highlightCodes_only_code_shaped
                  (VObj [("Notes", VStr "dx E11.9x, E11.9; see A1234")])) "E11.9").
  vm_compute. auto.
Defined.

(** ** DiagnosisTables: the rows it highlights *)

Lemma skip_while_all_app {A} (f : A -> bool) a b :
  forallb f a = true -> skip_while f (a ++ b) = skip_while f b.
Proof.
  induction a as [|x t IH]; simpl; [reflexivity|].
  intros H. apply andb_true_iff in H. destruct H as [-> Ht]. auto.
Qed.

Lemma forallb_rev {A} (f : A -> bool) l : forallb f (rev l) = forallb f l.
Proof.
  induction l as [|x t IH]; simpl; [reflexivity|].
  rewrite forallb_app, IH. simpl. rewrite andb_true_r. apply andb_comm.
Qed.

(** Trimming removes the white space around a text that has none at its
    ends. *)
Lemma trim_chars_padded before l after :
  forallb is_space before = true -> forallb is_space after = true ->
  match l with c :: _ => is_space c = false | [] => True end ->
  ends_in_space false l = false ->
  l <> [] ->
  trim_chars (before ++ l ++ after) = l.
Proof.
  intros Hb Ha Hhead Hend Hne. unfold trim_chars, trim_start, trim_end.
  rewrite (skip_while_all_app is_space before _ Hb).
  assert (Hfix : skip_while is_space (l ++ after) = l ++ after).
  { apply skip_while_fixed. destruct l as [|c t]; [congruence|exact Hhead]. }
  rewrite Hfix, rev_app_distr.
  rewrite (skip_while_all_app is_space (rev after)) by (rewrite forallb_rev; exact Ha).
  rewrite skip_while_fixed; [apply rev_involutive|].
  rewrite ends_in_space_rev in Hend. destruct (rev l) as [|c t] eqn:Hr; [exact I|exact Hend].
Qed.

Lemma code_shaped_ends t :
  code_shaped t = true ->
  match explode t with c :: _ => is_space c = false | [] => True end
  /\ ends_in_space false (explode t) = false /\ explode t <> [].
Proof.
  intros H. pose proof (code_shaped_chars t H) as Hchars.
  assert (Hns : forallb (fun c => negb (is_space c)) (explode t) = true).
  { rewrite forallb_forall in *. intros c Hc.
    rewrite (code_char_not_space c (Hchars c Hc)). reflexivity. }
  split; [|split; [apply no_space_ends, Hns|]].
  - destruct (explode t) as [|c l]; [exact I|].
    simpl in Hns. apply andb_true_iff in Hns. destruct Hns as [Hc _].
    apply negb_true_iff, Hc.
  - unfold code_shaped in H. destruct (explode t); [discriminate|discriminate].
Qed.

Lemma trim_padded_code before code after :
  forallb is_space (explode before) = true -> forallb is_space (explode after) = true ->
  code_shaped code = true ->
  trim (before +:+ code +:+ after) = code.
Proof.
  intros Hb Ha Hcode. destruct (code_shaped_ends code Hcode) as [Hhead [Hend Hne]].
  unfold trim. rewrite !explode_append.
  rewrite (trim_chars_padded _ _ _ Hb Ha Hhead Hend Hne). apply implode_explode.
Qed.

(** A code that is an element of a field value, at any depth of nested
    sequences, is collected. *)
Lemma highlightCodes_element (patient v : value) (code s : string) :
  In v (own_values (patient ?| VObj [])) ->
  element_of code v -> code_shaped code = true -> to_text v = Ok s ->
  In code (highlightCodes patient).
Proof.
  intros Hv He Hcode Hs. apply highlightCodes_In. exists v, s.
  split; [exact Hv|]. unfold or_else. rewrite (element_truthy code v He Hcode).
  split; [exact Hs|].
  destruct (to_text_element code v s He Hs) as (pre & post & Hsplit & Hpre & Hpost).
  rewrite <- (code_shaped_trim code Hcode). apply in_map.
  unfold Icd.matches. rewrite <- (implode_explode code). apply in_map.
  rewrite Hsplit. apply scan_finds_code; assumption.
Qed.

(** X14: A diagnosis row whose code is a code held by a field of the patient, as
    the field value or as an element of it, is highlighted; white space
    around the code of the row does not matter, and a sequence row keeps
    it in the cell. *)
Theorem DiagnosisTables_highlights_patient_codes
    (patient v type desc : value) (code s before after : string) :
  In v (own_values (patient ?| VObj [])) ->
  element_of code v -> code_shaped code = true -> to_text v = Ok s ->
  forallb is_space (explode before) = true ->
  forallb is_space (explode after) = true ->
  diag_row_view (highlightCodes patient)
                (VArr [type; VStr (before +:+ code +:+ after); desc])
  = Ok (or_default type (VStr "ICD-10"), VStr (before +:+ code +:+ after),
        or_default desc (VStr ""), true)
  /\ diag_row_view (highlightCodes patient)
                   (VObj [("Code", VStr (before +:+ code +:+ after))])
     = Ok (VStr "ICD-10", VStr code, VStr "", true).
Proof.
  intros Hv He Hcode Hs Hb Ha.
  pose proof (highlightCodes_element patient v code s Hv He Hcode Hs) as Hin.
  pose proof (trim_padded_code before code after Hb Ha Hcode) as Htrim.
  assert (Hflag : existsb (String.eqb code) (highlightCodes patient) = true).
  { apply existsb_exists. exists code. split; [exact Hin|apply String.eqb_refl]. }
  unfold diag_row_view, normalizeDiagRow. split.
  - simpl. unfold or_default.
    destruct (nullish type), (nullish desc); simpl; rewrite Htrim, Hflag; reflexivity.
  - simpl. unfold trimmed_text. simpl. rewrite Htrim. simpl.
    rewrite (code_shaped_trim code Hcode), Hflag. reflexivity.
Qed.

Lemma DiagnosisTables_highlights_patient_codes_witness :
  diag_row_view (highlightCodes (VObj [("Dx", VArr [VStr "J20"; VStr "I10"])]))
                (VArr [VNull; VStr (" " +:+ "I10" +:+ "  "); VStr "Hypertension"])
  = Ok (or_default VNull (VStr "ICD-10"), VStr (" " +:+ "I10" +:+ "  "),
        or_default (VStr "Hypertension") (VStr ""), true)
  /\ diag_row_view (highlightCodes (VObj [("Dx", VArr [VStr "J20"; VStr "I10"])]))
                   (VObj [("Code", VStr (" " +:+ "I10" +:+ "  "))])
     = Ok (VStr "ICD-10", VStr "I10", VStr "", true).
Proof.
  apply (DiagnosisTables_highlights_patient_codes
           (VObj [("Dx", VArr [VStr "J20"; VStr "I10"])])
           (VArr [VStr "J20"; VStr "I10"]) VNull (VStr "Hypertension")
           "I10" "J20,I10" " " "  ").
  - simpl. auto.
  - apply (element_inside "I10" _ (VStr "I10")); [simpl; auto|apply element_here].
  - reflexivity.
  - reflexivity.
  - reflexivity.
  - reflexivity.
Defined.

(** ** PatientReconciler: one record for each identity *)

Lemma map_get_keys (m : patient_map) key :
  map_get m key = None <-> existsb (String.eqb key) (map fst m) = false.
Proof.
  induction m as [|[k o] t IH]; simpl; [tauto|].
  rewrite (String.eqb_sym key k). destruct (String.eqb k key); simpl; [|exact IH].
  split; discriminate.
Qed.

Lemma map_set_keys (m : patient_map) key o :
  map fst (map_set m key o) = set_add (map fst m) key.
Proof.
  unfold set_add. induction m as [|[k o'] t IH]; simpl; [reflexivity|].
  rewrite (String.eqb_sym key k). destruct (String.eqb k key); simpl; [reflexivity|].
  rewrite IH. destruct (existsb (String.eqb key) (map fst t)); reflexivity.
Qed.

Lemma reconcile_step_keys m p m' :
  reconcile_step m p = Ok m' ->
  exists key, identity_key p = Ok key /\ map fst m' = set_add (map fst m) key.
Proof.
  unfold reconcile_step. intros H. bind_inv H as key Hkey. exists key.
  split; [exact Hkey|]. destruct (map_get m key) as [existing|].
  - bind_inv H as merged Hm. injection H as <-. apply map_set_keys.
  - injection H as <-. apply map_set_keys.
Qed.

Lemma reconcile_fold_keys ps m m' :
  fold_outcome reconcile_step ps m = Ok m' ->
  exists keys,
    map_outcome identity_key ps = Ok keys
    /\ map fst m' = fold_left set_add keys (map fst m).
Proof.
  revert m. induction ps as [|p t IH]; intros m H.
  - injection H as <-. exists []. auto.
  - rewrite fold_outcome_cons in H. bind_inv H as m1 Hstep.
    destruct (reconcile_step_keys m p m1 Hstep) as [key [Hkey Hkeys]].
    destruct (IH m1 H) as [keys [Hmap Hfold]].
    exists (key :: keys). rewrite map_outcome_cons, Hkey, Hmap. simpl.
    rewrite Hfold, Hkeys. auto.
Qed.

Lemma set_add_length set x : (length set <= length (set_add set x) <= S (length set))%nat.
Proof.
  unfold set_add. destruct (existsb (String.eqb x) set); [lia|].
  rewrite length_app. simpl. lia.
Qed.

Lemma fold_set_add_length keys set :
  (length (fold_left set_add keys set) <= length set + length keys)%nat.
Proof.
  revert set. induction keys as [|k t IH]; intros set; simpl; [lia|].
  specialize (IH (set_add set k)). pose proof (set_add_length set k). lia.
Qed.

Lemma records_of_snoc key keyed k p :
  records_of key (keyed ++ [(k, p)])
  = records_of key keyed ++ (if String.eqb k key then [p] else []).
Proof.
  unfold records_of. rewrite List.filter_app, map_app. simpl.
  destruct (String.eqb k key); reflexivity.
Qed.

Lemma map_get_set (m : patient_map) key o key' :
  map_get (map_set m key o) key'
  = if String.eqb key key' then Some o else map_get m key'.
Proof.
  induction m as [|[k0 o0] t IH]; simpl.
  - destruct (String.eqb key key'); reflexivity.
  - destruct (eqb_string_spec k0 key) as [->|Hne]; simpl.
    + destruct (String.eqb key key'); reflexivity.
    + rewrite IH. destruct (eqb_string_spec k0 key') as [->|_]; [|reflexivity].
      destruct (eqb_string_spec key key') as [->|_]; [congruence|reflexivity].
Qed.

Lemma fold_outcome_snoc {A S} (f : S -> A -> outcome S) l x s :
  fold_outcome f (l ++ [x]) s = (s' ← fold_outcome f l s; f s' x).
Proof.
  revert s. induction l as [|y t IH]; intros s; simpl.
  - destruct (f s x); reflexivity.
  - destruct (f s y) as [s1| |]; simpl; [apply IH|reflexivity|reflexivity].
Qed.

Lemma merge_group_snoc group p :
  group <> [] ->
  merge_group (group ++ [p]) = (o ← merge_group group; merge_into o p).
Proof.
  destruct group as [|q rest]; [congruence|]. intros _.
  simpl. apply fold_outcome_snoc.
Qed.

Lemma grouped_nil : grouped [] [].
Proof. split; [reflexivity|]. intros key. reflexivity. Qed.

Lemma grouped_step m keyed p m1 :
  grouped m keyed -> reconcile_step m p = Ok m1 ->
  exists key, identity_key p = Ok key /\ grouped m1 (keyed ++ [(key, p)]).
Proof.
  intros [Hkeys Hget] H. unfold reconcile_step in H. bind_inv H as key Hkey.
  exists key. split; [exact Hkey|].
  assert (Hfst : forall o, map fst (map_set m key o)
                           = fold_left set_add (map fst (keyed ++ [(key, p)])) []).
  { intros o. rewrite map_set_keys, Hkeys, map_app, fold_left_app. reflexivity. }
  pose proof (Hget key) as Hhere.
  destruct (map_get m key) as [existing|] eqn:Hm.
  - bind_inv H as merged Hmerged. injection H as <-.
    split; [apply Hfst|]. intros key'. rewrite map_get_set, records_of_snoc.
    destruct (eqb_string_spec key key') as [<-|Hne].
    + destruct Hhere as [Hne Hgroup]. split.
      * intros E. apply app_eq_nil in E. destruct E as [_ E]. discriminate E.
      * rewrite (merge_group_snoc _ p Hne), Hgroup. exact Hmerged.
    + rewrite app_nil_r. apply Hget.
  - injection H as <-.
    split; [apply Hfst|]. intros key'. rewrite map_get_set, records_of_snoc.
    destruct (eqb_string_spec key key') as [<-|Hne].
    + rewrite Hhere. simpl. split; [discriminate|reflexivity].
    + rewrite app_nil_r. apply Hget.
Qed.

Lemma grouped_fold ps m keyed m' :
  grouped m keyed -> fold_outcome reconcile_step ps m = Ok m' ->
  exists keys,
    map_outcome identity_key ps = Ok keys /\ grouped m' (keyed ++ combine keys ps).
Proof.
  revert m keyed. induction ps as [|p t IH]; intros m keyed Hg H.
  - injection H as <-. exists []. rewrite app_nil_r. auto.
  - rewrite fold_outcome_cons in H. bind_inv H as m1 Hstep.
    destruct (grouped_step m keyed p m1 Hg Hstep) as [key [Hkey Hg1]].
    destruct (IH m1 _ Hg1 H) as [keys [Hkeys Hg']].
    exists (key :: keys). rewrite map_outcome_cons, Hkey, Hkeys. simpl.
    rewrite <- app_assoc in Hg'. auto.
Qed.

Lemma map_get_entry (m : patient_map) key o :
  distinct (map fst m) = true -> In (key, o) m -> map_get m key = Some o.
Proof.
  induction m as [|[k0 o0] t IH]; intros Hd Hin; [contradiction|].
  change (map fst ((k0, o0) :: t)) with (k0 :: map fst t) in Hd.
  apply distinct_cons in Hd. destruct Hd as [Hk Hd]. simpl.
  destruct Hin as [E|Hin].
  - injection E as -> ->. rewrite String.eqb_refl. reflexivity.
  - destruct (eqb_string_spec k0 key) as [->|_]; [|apply IH; assumption].
    exfalso. apply Hk. apply (in_map fst) in Hin. exact Hin.
Qed.

Lemma map_fst_combine {A B} (l : list A) (l' : list B) :
  length l = length l' -> map fst (combine l l') = l.
Proof.
  revert l'. induction l as [|x t IH]; intros [|y t'] H; simpl in *; try lia; [reflexivity|].
  rewrite IH by lia. reflexivity.
Qed.

Lemma grouped_records (m : patient_map) keyed (l : patient_map) :
  (forall key o, In (key, o) l -> merge_group (records_of key keyed) = Ok o) ->
  map_outcome (fun key => o ← merge_group (records_of key keyed); Ok (VObj o)) (map fst l)
  = Ok (map (fun entry => VObj (snd entry)) l).
Proof.
  induction l as [|[k o] t IH]; intros H; [reflexivity|].
  change (map fst ((k, o) :: t)) with (k :: map fst t).
  rewrite map_outcome_cons, (H k o) by (left; reflexivity). simpl.
  rewrite IH by (intros; apply H; right; assumption). reflexivity.
Qed.

(** X15: [dedupeAndMergePatients] returns one record for each identity key
    that occurs among the records, in the order in which the keys are first
    seen; the record of a key is made of the records with that key, in
    their order of arrival: the copy of the first, into which the others
    are merged in turn.  So it never returns more records than it was
    given. *)
Theorem dedupeAndMergePatients_one_record_per_key (ps out : list value) :
  dedupeAndMergePatients (VArr ps) = Ok out ->
  exists keys,
    map_outcome identity_key ps = Ok keys
    /\ map_outcome (fun key => o ← merge_group (records_of key (combine keys ps)); Ok (VObj o))
                   (fold_left set_add keys [])
       = Ok out
    /\ (length out <= length ps)%nat.
Proof.
  unfold dedupeAndMergePatients. intros H. bind_inv H as m Hm. injection H as <-.
  destruct (grouped_fold ps [] [] m grouped_nil Hm) as [keys [Hkeys [Hfst Hget]]].
  simpl app in *.
  pose proof (map_outcome_length _ _ _ Hkeys) as Hlen.
  rewrite (map_fst_combine keys ps Hlen) in Hfst.
  exists keys. split; [exact Hkeys|].
  assert (Hd : distinct (map fst m) = true).
  { rewrite Hfst. apply distinct_fold_set_add. reflexivity. }
  split.
  - rewrite <- Hfst. apply (grouped_records m). intros key o Hin.
    pose proof (Hget key) as Hk. rewrite (map_get_entry m key o Hd Hin) in Hk.
    apply Hk.
  - rewrite length_map, <- (length_map fst m), Hfst.
    pose proof (fold_set_add_length keys []) as Hle. simpl in Hle. lia.
Qed.

Lemma dedupeAndMergePatients_one_record_per_key_witness :
  exists keys,
    map_outcome identity_key
      [VObj [("Patient Name", VStr "A")]; VObj [("Subscriber ID", VStr "S7")];
       VObj [("Patient", VStr " A "); ("Age", VNum 7)]]
    = Ok keys
    /\ map_outcome
         (fun key =>
            o ← merge_group
                  (records_of key
                     (combine keys
                        [VObj [("Patient Name", VStr "A")]; VObj [("Subscriber ID", VStr "S7")];
                         VObj [("Patient", VStr " A "); ("Age", VNum 7)]]));
            Ok (VObj o))
         (fold_left set_add keys [])
       = Ok [VObj [("Patient Name", VStr "A"); ("Patient", VStr " A "); ("Age", VNum 7)];
             VObj [("Subscriber ID", VStr "S7")]]
    /\ (length [VObj [("Patient Name", VStr "A"); ("Patient", VStr " A "); ("Age", VNum 7)];
                VObj [("Subscriber ID", VStr "S7")]]
        <= length [VObj [("Patient Name", VStr "A")]; VObj [("Subscriber ID", VStr "S7")];
                   VObj [("Patient", VStr " A "); ("Age", VNum 7)]])%nat.
Proof.
  apply (dedupeAndMergePatients_one_record_per_key
           [VObj [("Patient Name", VStr "A")]; VObj [("Subscriber ID", VStr "S7")];
            VObj [("Patient", VStr " A "); ("Age", VNum 7)]]).
  vm_compute. reflexivity.
Defined.

(** ** PatientReconciler: records of different patients *)

Lemma reconcile_fold_distinct ps keys m :
  map_outcome identity_key ps = Ok keys ->
  distinct keys = true ->
  forallb (fun key => negb (existsb (String.eqb key) (map fst m))) keys = true ->
  fold_outcome reconcile_step ps m
  = Ok (m ++ combine keys (map first_clone ps)).
Proof.
  revert keys m. induction ps as [|p t IH]; intros keys m Hkeys Hd Hfresh.
  - injection Hkeys as <-. simpl. rewrite app_nil_r. reflexivity.
  - rewrite map_outcome_cons in Hkeys. bind_inv Hkeys as key Hkey.
    bind_inv Hkeys as rest Hrest. injection Hkeys as <-.
    apply distinct_cons in Hd. destruct Hd as [Hnew Hd].
    simpl in Hfresh. apply andb_true_iff in Hfresh. destruct Hfresh as [Hk Hfresh].
    apply negb_true_iff in Hk.
    assert (Hstep : reconcile_step m p = Ok (m ++ [(key, first_clone p)])).
    { unfold reconcile_step. rewrite Hkey. simpl.
      rewrite (proj2 (map_get_keys m key) Hk).
      rewrite (map_set_fresh m key (first_clone p) (proj2 (map_get_keys m key) Hk)).
      reflexivity. }
    rewrite fold_outcome_cons, Hstep.
    change (fold_outcome reconcile_step t (m ++ [(key, first_clone p)])
            = Ok (m ++ (key, first_clone p) :: combine rest (map first_clone t))).
    rewrite (IH rest _ Hrest Hd).
    + rewrite <- app_assoc. reflexivity.
    + rewrite forallb_forall in *. intros x Hx. rewrite map_app, existsb_app.
      rewrite (proj1 (negb_true_iff _) (Hfresh x Hx)). simpl.
      rewrite orb_false_r. apply negb_true_iff.
      destruct (eqb_string_spec x key) as [->|Hne]; [contradiction|reflexivity].
Qed.

Lemma map_snd_combine {A B} (l : list A) (l' : list B) :
  length l = length l' -> map snd (combine l l') = l'.
Proof.
  revert l'. induction l as [|x t IH]; intros [|y t'] H; simpl in *; try lia; [reflexivity|].
  rewrite IH by lia. reflexivity.
Qed.

Lemma wrap_rows_settled (o : object) k :
  match lookup_prop o k with
  | Some v => truthy v = false \/ is_array v = true
  | None => True
  end ->
  wrap_rows o k = o.
Proof.
  unfold wrap_rows. destruct (lookup_prop o k) as [v|]; simpl; [|reflexivity].
  intros [-> | ->]; [reflexivity|]. rewrite andb_false_r. reflexivity.
Qed.

(** X16: Records with pairwise different identity keys are not merged: the
    result holds a copy of each, in the order given.  The copy of a record
    that is a mapping is the record itself, when neither of its all-tables
    fields holds a value that is truthy and not a sequence. *)
Theorem dedupeAndMergePatients_keeps_distinct_records :
  (forall (ps : list value) (keys : list string),
      map_outcome identity_key ps = Ok keys ->
      distinct keys = true ->
      dedupeAndMergePatients (VArr ps) = Ok (map (fun p => VObj (first_clone p)) ps))
  /\ (forall record : object,
        forallb (fun k => match lookup_prop record k with
                          | Some v => negb (truthy v) || is_array v
                          | None => true
                          end)
                ["Procedure / Billing (All Tables)"; "Diagnosis (All Tables)"] = true ->
        first_clone (VObj record) = record).
Proof.
  split.
  - intros ps keys Hkeys Hd. unfold dedupeAndMergePatients.
    rewrite (reconcile_fold_distinct ps keys [] Hkeys Hd).
    + change (Ok (map (fun entry : string * object => VObj (snd entry))
                      (combine keys (map first_clone ps)))
              = Ok (map (fun p => VObj (first_clone p)) ps)).
      rewrite <- (map_map snd VObj), map_snd_combine, map_map; [reflexivity|].
      rewrite length_map. apply (map_outcome_length _ _ _ Hkeys).
    + apply forallb_forall. intros x _. reflexivity.
  - intros record H. simpl in H.
    apply andb_true_iff in H. destruct H as [Hp H].
    apply andb_true_iff in H. destruct H as [Hd _].
    unfold first_clone. simpl spread.
    rewrite (wrap_rows_settled record "Procedure / Billing (All Tables)").
    + apply wrap_rows_settled.
      destruct (lookup_prop record "Diagnosis (All Tables)") as [v|]; [|exact I].
      apply orb_true_iff in Hd. destruct Hd as [Hd|Hd]; [left; apply negb_true_iff, Hd|auto].
    + destruct (lookup_prop record "Procedure / Billing (All Tables)") as [v|]; [|exact I].
      apply orb_true_iff in Hp. destruct Hp as [Hp|Hp]; [left; apply negb_true_iff, Hp|auto].
Qed.

Lemma dedupeAndMergePatients_keeps_distinct_records_witness :
  dedupeAndMergePatients
    (VArr [VObj [("Patient Name", VStr "A"); ("Diagnosis (All Tables)", VStr "J20")];
           VObj [("Subscriber ID", VStr "S7")]; VObj [("Patient", VStr "B")]])
  = Ok (map (fun p => VObj (first_clone p))
            [VObj [("Patient Name", VStr "A"); ("Diagnosis (All Tables)", VStr "J20")];
             VObj [("Subscriber ID", VStr "S7")]; VObj [("Patient", VStr "B")]])
  /\ first_clone (VObj [("Subscriber ID", VStr "S7"); ("Diagnosis (All Tables)", VArr [])])
     = [("Subscriber ID", VStr "S7"); ("Diagnosis (All Tables)", VArr [])].
Proof.
  split.
  - apply (proj1 dedupeAndMergePatients_keeps_distinct_records
             [VObj [("Patient Name", VStr "A"); ("Diagnosis (All Tables)", VStr "J20")];
              VObj [("Subscriber ID", VStr "S7")]; VObj [("Patient", VStr "B")]]
             ["A"; "S7"; "B"]);
      vm_compute; reflexivity.
  - apply (proj2 dedupeAndMergePatients_keeps_distinct_records
             [("Subscriber ID", VStr "S7"); ("Diagnosis (All Tables)", VArr [])]).
    reflexivity.
Defined.

(** ** PatientReconciler: a missing record *)

Lemma reconcile_fold_missing ps m :
  existsb nullish ps = true ->
  fold_outcome reconcile_step ps m = Throw \/ fold_outcome reconcile_step ps m = Unmodelled.
Proof.
  revert m. induction ps as [|p t IH]; intros m H; [discriminate|].
  rewrite fold_outcome_cons. simpl in H.
  destruct (nullish p) eqn:Hp.
  - left. destruct p; try discriminate Hp; reflexivity.
  - simpl in H. destruct (reconcile_step m p) as [m1| |]; simpl; auto.
Qed.

(** X17: A [null] among the records makes [dedupeAndMergePatients] raise: the
    record is read before anything tests it. *)
Theorem dedupeAndMergePatients_raises_on_null (ps : list value) :
  existsb nullish ps = true ->
  dedupeAndMergePatients (VArr ps) = Throw \/ dedupeAndMergePatients (VArr ps) = Unmodelled.
Proof.
  intros H. unfold dedupeAndMergePatients.
  destruct (reconcile_fold_missing ps [] H) as [-> | ->]; auto.
Qed.

Lemma dedupeAndMergePatients_raises_on_null_witness :
  dedupeAndMergePatients (VArr [VObj [("Patient Name", VStr "A")]; VNull]) = Throw
  \/ dedupeAndMergePatients (VArr [VObj [("Patient Name", VStr "A")]; VNull]) = Unmodelled.
Proof.
  apply (dedupeAndMergePatients_raises_on_null [VObj [("Patient Name", VStr "A")]; VNull]).
  reflexivity.
Defined.

(** ** PatientReconciler: the rows of one patient *)

Lemma lookup_none_keys {V} (o : list (string * V)) k :
  lookup_prop o k = None -> existsb (String.eqb k) (map fst o) = false.
Proof.
  intros H. apply existsb_eqb_not_In, has_own_not_In. unfold has_own. rewrite H. reflexivity.
Qed.

Lemma merge_rows_step (key k : string) (existing : object) (p : value) (acc : list value) :
  lookup_prop existing k = Some (VArr acc) ->
  identity_key p = Ok key -> plain_record p = true ->
  match lookup_prop (own_entries p) k with
  | Some v => is_array v = true
  | None => True
  end ->
  exists m,
    reconcile_step [(key, existing)] p = Ok [(key, m)]
    /\ lookup_prop m k = Some (VArr (acc ++ field_rows k p)).
Proof.
  intros He Hkey Hplain Hfield.
  apply andb_true_iff in Hplain. destruct Hplain as [Hdistinct Hnames].
  pose proof (identity_key_not_nullish p key Hkey) as Hp.
  destruct (merge_fold_lookup p (own_keys p) Hp existing Hnames)
    as [m [Hfold [_ [Hout Hin]]]].
  exists m. split.
  - unfold reconcile_step, merge_into. rewrite Hkey. simpl.
    rewrite String.eqb_refl, Hfold. reflexivity.
  - unfold field_rows. destruct (lookup_prop (own_entries p) k) as [v|] eqn:Hv.
    + destruct v; try discriminate Hfield.
      rewrite (Hin Hdistinct k (lookup_prop_keys _ k _ Hv)), He, Hv. reflexivity.
    + rewrite (Hout k (lookup_none_keys _ k Hv)), He, app_nil_r. reflexivity.
Qed.

Lemma merge_rows_fold (key k : string) (ps : list value) :
  Forall (fun p => identity_key p = Ok key /\ plain_record p = true
                   /\ match lookup_prop (own_entries p) k with
                      | Some v => is_array v = true
                      | None => True
                      end) ps ->
  forall (existing : object) (acc : list value),
    lookup_prop existing k = Some (VArr acc) ->
    exists m,
      fold_outcome reconcile_step ps [(key, existing)] = Ok [(key, m)]
      /\ lookup_prop m k = Some (VArr (acc ++ flat_map (field_rows k) ps)).
Proof.
  induction 1 as [|p t [Hkey [Hplain Hfield]] Ht IH]; intros existing acc He.
  - exists existing. simpl. rewrite app_nil_r. auto.
  - destruct (merge_rows_step key k existing p acc He Hkey Hplain Hfield) as [m1 [Hstep H1]].
    destruct (IH m1 _ H1) as [m [Hfold Hm]].
    exists m. rewrite fold_outcome_cons, Hstep. split; [exact Hfold|].
    rewrite Hm. simpl. rewrite <- app_assoc. reflexivity.
Qed.

(** X18: When the records of one patient hold rows under a field, each of
    them a sequence, the reconciled record holds under that field the rows
    of all the records, in the order in which the records arrive.  A
    record that lacks the field adds nothing. *)
Theorem merged_rows_in_order_of_arrival
    (key k : string) (first : value) (others : list value) (rows : list value) :
  identity_key first = Ok key ->
  lookup_prop (own_entries first) k = Some (VArr rows) ->
  Forall (fun p => identity_key p = Ok key /\ plain_record p = true
                   /\ match lookup_prop (own_entries p) k with
                      | Some v => is_array v = true
                      | None => True
                      end) others ->
  exists m,
    dedupeAndMergePatients (VArr (first :: others)) = Ok [VObj m]
    /\ lookup_prop m k = Some (VArr (rows ++ flat_map (field_rows k) others)).
Proof.
  intros Hkey Hrows Hothers.
  assert (Hclone : lookup_prop (first_clone first) k = Some (VArr rows)).
  { unfold first_clone. rewrite !lookup_wrap_rows. unfold spread.
    change (String.eqb "Procedure / Billing (All Tables)" "Diagnosis (All Tables)")
      with false. cbv iota.
    destruct (eqb_string_spec "Diagnosis (All Tables)" k) as [<-|_].
    - rewrite Hrows. reflexivity.
    - destruct (eqb_string_spec "Procedure / Billing (All Tables)" k) as [<-|_].
      + rewrite Hrows. reflexivity.
      + exact Hrows. }
  destruct (merge_rows_fold key k others Hothers (first_clone first) rows Hclone)
    as [m [Hfold Hm]].
  exists m. split; [|exact Hm].
  assert (Hstep : reconcile_step [] first = Ok [(key, first_clone first)]).
  { unfold reconcile_step. rewrite Hkey. reflexivity. }
  unfold dedupeAndMergePatients. rewrite fold_outcome_cons, Hstep. simpl.
  rewrite Hfold. reflexivity.
Qed.

Lemma merged_rows_in_order_of_arrival_witness :
  exists m,
    dedupeAndMergePatients
      (VArr [VObj [("Patient Name", VStr "A"); ("Diagnosis", VArr [VStr "x"])];
             VObj [("Patient Name", VStr " A "); ("Phone", VStr "111")];
             VObj [("Patient", VStr "A"); ("Diagnosis", VArr [VStr "y"; VStr "z"])]])
    = Ok [VObj m]
    /\ lookup_prop m "Diagnosis"
       = Some (VArr ([VStr "x"]
                     ++ flat_map (field_rows "Diagnosis")
                          [VObj [("Patient Name", VStr " A "); ("Phone", VStr "111")];
                           VObj [("Patient", VStr "A"); ("Diagnosis", VArr [VStr "y"; VStr "z"])]])).
Proof.
  apply (merged_rows_in_order_of_arrival
           "A" "Diagnosis"
           (VObj [("Patient Name", VStr "A"); ("Diagnosis", VArr [VStr "x"])])
           [VObj [("Patient Name", VStr " A "); ("Phone", VStr "111")];
            VObj [("Patient", VStr "A"); ("Diagnosis", VArr [VStr "y"; VStr "z"])]]
           [VStr "x"]).
  - reflexivity.
  - reflexivity.
  - repeat constructor.
Defined.

(** ** ResultAssembler: the item and its view *)

Lemma probe_truthy_truthy r keys d v :
  truthy d = true -> probe_truthy r keys d = Ok v -> truthy v = true.
Proof.
  intros Hd. induction keys as [|k ks IH]; simpl.
  - intros H. injection H as <-. exact Hd.
  - intros H. bind_inv H as x Hx. destruct (truthy x) eqn:Ht; [|auto].
    injection H as <-. exact Ht.
Qed.

Lemma array_or_empty_array x : exists l, array_or_empty x = VArr l.
Proof. unfold array_or_empty. destruct x; simpl; eexists; reflexivity. Qed.

(** The shape of every item [buildItemFromResponse] returns. *)
Lemma buildItemFromResponse_shape resData name item :
  buildItemFromResponse resData name = Ok item ->
  exists fname pats procs diags meta,
    item = make_item fname (VArr pats) procs diags meta
    /\ truthy procs = true /\ truthy diags = true /\ truthy meta = true.
Proof.
  unfold buildItemFromResponse. destruct (truthy resData) eqn:Hres; simpl negb; cbv iota.
  2: { intros H. injection H as <-. eexists _, _, _, _, _. repeat split. }
  intros H. bind_inv H as canonical Hc. destruct (truthy canonical).
  - bind_inv H as fname Hf. bind_inv H as pats Hp. bind_inv H as procs Hprocs.
    bind_inv H as diags Hdiags. bind_inv H as meta Hmeta. injection H as <-.
    destruct (array_or_empty_array pats) as [l ->].
    exists fname, l, procs, diags, meta. split; [reflexivity|].
    split; [exact (probe_truthy_truthy _ _ (VObj []) _ eq_refl Hprocs)|].
    split; [exact (probe_truthy_truthy _ _ (VObj []) _ eq_refl Hdiags)|].
    exact (probe_truthy_truthy _ _ (VObj []) _ eq_refl Hmeta).
  - bind_inv H as legacy Hl. destruct (truthy legacy).
    + bind_inv H as billing Hb. bind_inv H as prows Hprows.
      bind_inv H as codes Hcodes. bind_inv H as drows Hdrows.
      bind_inv H as fname Hf. bind_inv H as pats Hp. bind_inv H as meta Hmeta.
      injection H as <-. destruct (array_or_empty_array pats) as [l ->].
      exists fname, l, (VObj [("Procedures", prows)]), (VObj [("Diagnosis", drows)]), meta.
      repeat split. exact (probe_truthy_truthy _ _ (VObj []) _ eq_refl Hmeta).
    + bind_inv H as meta Hmeta. bind_inv H as meta' Hstamp. bind_inv H as fname Hf.
      injection H as <-. exists fname, [], (VObj []), (VObj []), meta'.
      repeat split.
      pose proof (probe_truthy_truthy _ _ _ _ Hres Hmeta) as Htm.
      unfold stamp_file_name in Hstamp. bind_inv Hstamp as f Hfn.
      destruct (truthy f); [injection Hstamp as <-; exact Htm|].
      destruct meta; try discriminate Hstamp. injection Hstamp as <-. reflexivity.
Qed.

Lemma ResultBlock_of_item fname pats procs diags meta :
  truthy procs = true -> truthy diags = true ->
  ResultBlock (make_item fname (VArr pats) procs diags meta)
  = (merged ← dedupeAndMergePatients (VArr pats);
     Ok {| title := fname ?| VStr "Uploaded file";
           patients := merged;
           procedureTables := normalizeTables procs;
           diagnosisTables := normalizeTables diags;
           totalProcRows := count_rows (normalizeTables procs);
           totalDiagRows := count_rows (normalizeTables diags) |}).
Proof.
  intros Hp Hd. unfold ResultBlock, make_item. simpl. rewrite Hp, Hd. simpl.
  destruct (fold_outcome reconcile_step pats []) as [merged| |]; simpl; try reflexivity.
  unfold or_else. destruct (truthy fname); reflexivity.
Qed.

(** X19: Every item [buildItemFromResponse] returns has the five fields
    [file_name], [patients], [procedure_tables], [diagnosis_tables] and
    [metadata]; its patients are a sequence and its tables and metadata are
    truthy.  [ResultBlock] shows such an item with the patients reconciled
    and the tables normalised, and its branch for the flat legacy arrays is
    never taken. *)
Theorem assembled_item_is_shown_as_built (resData : value) (name : string) (item : value) :
  buildItemFromResponse resData name = Ok item ->
  exists fname pats procs diags meta,
    item = VObj [("file_name", fname); ("patients", VArr pats);
                 ("procedure_tables", procs); ("diagnosis_tables", diags);
                 ("metadata", meta)]
    /\ truthy procs = true /\ truthy diags = true /\ truthy meta = true
    /\ ResultBlock item
       = (merged ← dedupeAndMergePatients (VArr pats);
          Ok {| title := fname ?| VStr "Uploaded file";
                patients := merged;
                procedureTables := normalizeTables procs;
                diagnosisTables := normalizeTables diags;
                totalProcRows := count_rows (normalizeTables procs);
                totalDiagRows := count_rows (normalizeTables diags) |}).
Proof.
  intros H. apply buildItemFromResponse_shape in H.
  destruct H as (fname & pats & procs & diags & meta & -> & Hp & Hd & Hm).
  exists fname, pats, procs, diags, meta. split; [reflexivity|].
  split; [exact Hp|]. split; [exact Hd|]. split; [exact Hm|].
  apply ResultBlock_of_item; assumption.
Qed.

Lemma assembled_item_is_shown_as_built_witness :
  exists fname pats procs diags meta,
    VObj [("file_name", VStr "scan.pdf"); ("patients", VArr []);
          ("procedure_tables", VObj [("Procedures", VArr [VArr [VStr "99213"; VStr ""; VNum 5000]])]);
          ("diagnosis_tables", VObj [("Diagnosis", VArr [])]);
          ("metadata", VObj [])]
    = VObj [("file_name", fname); ("patients", VArr pats);
            ("procedure_tables", procs); ("diagnosis_tables", diags);
            ("metadata", meta)]
    /\ truthy procs = true /\ truthy diags = true /\ truthy meta = true
    /\ ResultBlock
         (VObj [("file_name", VStr "scan.pdf"); ("patients", VArr []);
                ("procedure_tables",
                 VObj [("Procedures", VArr [VArr [VStr "99213"; VStr ""; VNum 5000]])]);
                ("diagnosis_tables", VObj [("Diagnosis", VArr [])]);
                ("metadata", VObj [])])
       = (merged ← dedupeAndMergePatients (VArr pats);
          Ok {| title := fname ?| VStr "Uploaded file";
                patients := merged;
                procedureTables := normalizeTables procs;
                diagnosisTables := normalizeTables diags;
                totalProcRows := count_rows (normalizeTables procs);
                totalDiagRows := count_rows (normalizeTables diags) |}).
Proof.
  apply (assembled_item_is_shown_as_built
           (VObj [("medical_billing_codes", VArr [VObj [("code", VStr "99213"); ("fee", VNum 5000)]])])
           "scan.pdf").
  vm_compute. reflexivity.
Defined.

(** ** ResultAssembler: rows of the legacy shape *)

Lemma probe_app r ks1 ks2 d :
  nullish r = false ->
  forallb (fun k => nullish (default VUndef (lookup_prop (own_entries r) k))) ks2 = true ->
  probe r (ks1 ++ ks2) d = probe r ks1 d.
Proof.
  intros Hr Hks2. induction ks1 as [|k ks IH]; simpl.
  - induction ks2 as [|k ks IH]; simpl; [reflexivity|].
    simpl in Hks2. apply andb_true_iff in Hks2. destruct Hks2 as [Hk Hks].
    rewrite (get_prop_ok r k Hr). simpl. rewrite Hk. apply IH, Hks.
  - rewrite (get_prop_ok r k Hr). simpl.
    destruct (nullish (default VUndef (lookup_prop (own_entries r) k))); [exact IH|reflexivity].
Qed.

Lemma probe_not_nullish r keys d v :
  nullish d = false -> probe r keys d = Ok v -> nullish v = false.
Proof.
  intros Hd. induction keys as [|k ks IH]; simpl.
  - intros H. injection H as <-. exact Hd.
  - intros H. bind_inv H as x Hx. destruct (nullish x) eqn:Hn; [auto|].
    injection H as <-. exact Hn.
Qed.

Lemma normalizeProcRow_triple c d f :
  nullish c = false -> nullish d = false -> nullish f = false ->
  normalizeProcRow (VArr [c; d; f])
  = (x ← trimmed_text c; y ← trimmed_text d; z ← _cleanFeeString f; Ok (x, y, z)).
Proof. intros Hc Hd Hf. unfold normalizeProcRow. simpl. rewrite Hc, Hd, Hf. reflexivity. Qed.

(** X20: A legacy procedure row that is a mapping is turned into a sequence by
    [buildItemFromResponse] before [normalizeProcRow] sees it.  The result
    is the one [normalizeProcRow] gives for the mapping itself when the row
    has none of the fields only [normalizeProcRow] knows: [code_value],
    [Desc], [desc], [Amount], [amount], [Price], [price] and the indices
    [0], [1], [2].  A fee under [Amount] is lost on the way. *)
Theorem legacy_rows_are_read_alike :
  (forall row : object,
      forallb (fun k => nullish (default VUndef (lookup_prop row k)))
              ["code_value"; "0"; "Desc"; "desc"; "1";
               "Amount"; "amount"; "Price"; "price"; "2"] = true ->
      (r ← legacy_proc_row (VObj row); normalizeProcRow r) = normalizeProcRow (VObj row))
  /\ (r ← legacy_proc_row (VObj [("Code", VStr "99213"); ("Amount", VStr "50")]);
      normalizeProcRow r) = Ok ("99213", "", "")
  /\ normalizeProcRow (VObj [("Code", VStr "99213"); ("Amount", VStr "50")])
     = Ok ("99213", "", "50.00").
Proof.
  split; [|split; vm_compute; reflexivity].
  intros row Hrow. simpl in Hrow.
  repeat (apply andb_true_iff in Hrow; destruct Hrow as [? Hrow]).
  assert (Hr : nullish (VObj row) = false) by reflexivity.
  unfold legacy_proc_row. simpl is_array. cbv iota.
  unfold normalizeProcRow at 2. simpl truthy. simpl negb. simpl is_array. cbv iota.
  assert (Ecode : probe (VObj row) ["Code"; "code"; "code_value"; "0"] (VStr "")
               = probe (VObj row) ["Code"; "code"] (VStr "")).
  { apply (probe_app (VObj row) ["Code"; "code"] ["code_value"; "0"] (VStr "") Hr).
    simpl. repeat (apply andb_true_iff; split); auto. }
  assert (Edesc : probe (VObj row) ["Description"; "description"; "Desc"; "desc"; "1"] (VStr "")
               = probe (VObj row) ["Description"; "description"] (VStr "")).
  { apply (probe_app (VObj row) ["Description"; "description"] ["Desc"; "desc"; "1"]
             (VStr "") Hr).
    simpl. repeat (apply andb_true_iff; split); auto. }
  assert (Efee : probe (VObj row) ["Fee"; "fee"; "Amount"; "amount"; "Price"; "price"; "2"]
                 (VStr "")
               = probe (VObj row) ["Fee"; "fee"] (VStr "")).
  { apply (probe_app (VObj row) ["Fee"; "fee"]
             ["Amount"; "amount"; "Price"; "price"; "2"] (VStr "") Hr).
    simpl. repeat (apply andb_true_iff; split); auto. }
  rewrite Ecode, Edesc, Efee.
  destruct (probe (VObj row) ["Code"; "code"] (VStr "")) as [c| |] eqn:Hc;
    try reflexivity.
  destruct (probe (VObj row) ["Description"; "description"] (VStr "")) as [d| |] eqn:Hd;
    try reflexivity.
  destruct (probe (VObj row) ["Fee"; "fee"] (VStr "")) as [f| |] eqn:Hf;
    try reflexivity.
  apply probe_not_nullish in Hc, Hd, Hf; try reflexivity.
  change (normalizeProcRow (VArr [c; d; f])
          = (x ← trimmed_text c; y ← trimmed_text d; z ← _cleanFeeString f; Ok (x, y, z))).
  apply normalizeProcRow_triple; assumption.
Qed.

Lemma legacy_rows_are_read_alike_witness :
  (r ← legacy_proc_row (VObj [("code", VStr " 99213 "); ("Fee", VNum 5000); ("Note", VStr "x")]);
   normalizeProcRow r)
  = normalizeProcRow (VObj [("code", VStr " 99213 "); ("Fee", VNum 5000); ("Note", VStr "x")]).
Proof.
  apply (proj1 legacy_rows_are_read_alike
           [("code", VStr " 99213 "); ("Fee", VNum 5000); ("Note", VStr "x")]).
  reflexivity.
Defined.

(** ** The upload form *)

Lemma handleFileChange_frame selected st :
  loading (handleFileChange selected st) = loading st
  /\ auth (handleFileChange selected st) = auth st
  /\ (length (files (handleFileChange selected st)) <= 10 `max` length (files st))%nat
  /\ (length (results (handleFileChange selected st)) <= length (results st))%nat.
Proof.
  unfold handleFileChange. destruct (Nat.ltb 10 (length selected)) eqn:Hlen; simpl.
  - repeat split; lia.
  - apply Nat.ltb_ge in Hlen. repeat split; lia.
Qed.








Lemma choices_loading es st : loading (choices es st) = loading st.
Proof.
  revert st. induction es as [|e t IH]; intros st; [reflexivity|].
  simpl. rewrite IH. destruct e; try reflexivity.
  apply handleFileChange_frame.
Qed.




